(** * The Query core of TileDB: a shallow embedding of
    [tiledb/sm/query/query.cc] and the properties of its validators,
    its status life cycle and its buffer-copy protocol. *)

From Stdlib Require Import ZArith SpecFloat.
From stdpp Require Import base option list strings pretty gmap.

#[local] Set Warnings "-clear-no-such-hyp".

Local Open Scope Z_scope.

(** ** Outcomes of a call

    A C++ call either returns, stops the program at a failed [assert], or
    leaves the defined behaviour of the language (a read through a null or
    dangling pointer, a read past the end of a buffer). *)

Inductive outcome (A : Type) : Type :=
  | Done (a : A)
  | AssertionFailed
  | Undefined.
Arguments Done {A} a.
Arguments AssertionFailed {A}.
Arguments Undefined {A}.

Definition obind {A B} (m : outcome A) (k : A → outcome B) : outcome B :=
  match m with
  | Done a => k a
  | AssertionFailed => AssertionFailed
  | Undefined => Undefined
  end.

(** A dereference: [None] is the null or dangling pointer. *)
Definition deref {A} (p : option A) : outcome A :=
  match p with Some a => Done a | None => Undefined end.

Notation "x ←! m ; k" := (obind m (λ x, k))
  (at level 20, m at level 100, k at level 200, right associativity,
   format "x  ←!  m ;  '/' k").

(** ** Status values *)

(** Modelled from the spec: [tiledb/sm/misc/status.h] is not among the
    sources.  A [Status] is OK or an error with a message;
    [Status::QueryError(msg)] builds the errors of the Query, and the
    errors of the engines are opaque to it and surfaced as they are.
    [RETURN_NOT_OK(s)] returns [s] from the calling function when [s] is
    not OK. *)
Inductive Status : Type :=
  | Ok
  | QueryError (msg : string)
  | EngineError (msg : string).

Global Instance Status_eq_dec : EqDecision Status.
Proof. solve_decision. Defined.

Definition ok (st : Status) : bool :=
  match st with Ok => true | _ => false end.

(** Modelled from the spec: the macro [LOG_STATUS] of
    [tiledb/sm/misc/logger.h] is not among the sources.  It emits the
    error to the log sink and does not change the error value. *)
Definition LOG_STATUS (st : Status) : Status := st.

(** [std::to_string] on a [uint64_t]. *)
Definition to_string (n : Z) : string := pretty n.

(** ** Query::check_var_attr_offsets *)

(** The body of [for (uint64_t i = 1; i < num_offsets; i++)], run over the
    indices still to visit; [prev_offset] is the loop-carried variable. *)
Fixpoint check_var_attr_offsets_loop
    (buffer_off : list Z) (buffer_val_size : Z)
    (prev_offset : Z) (indices : list nat) : outcome Status :=
  match indices with
  | [] => Done Ok
  | i :: indices' =>
      off_i ←! deref (buffer_off !! i);
      if off_i <=? prev_offset then
        Done (LOG_STATUS (QueryError
          "Invalid offsets; offsets must be given in strictly ascending order."))
      else if off_i >=? buffer_val_size then
        Done (LOG_STATUS (QueryError
          ("Invalid offsets; offset " +:+ to_string off_i +:+
           " specified for buffer of size " +:+ to_string buffer_val_size)))
      else
        check_var_attr_offsets_loop buffer_off buffer_val_size off_i indices'
  end.

(** The three arguments are nullable pointers: to the offsets array, and to
    the two [uint64_t] cells holding the sizes in bytes. *)
Definition check_var_attr_offsets
    (buffer_off : option (list Z))
    (buffer_off_size buffer_val_size : option Z) : outcome Status :=
  match buffer_off, buffer_off_size, buffer_val_size with
  | Some buffer_off, Some off_size, Some val_size =>
      let num_offsets := off_size / 8 in
      if num_offsets =? 0 then Done Ok
      else
        prev_offset ←! deref (buffer_off !! 0%nat);
        if prev_offset >=? val_size then
          Done (LOG_STATUS (QueryError
            ("Invalid offsets; offset " +:+ to_string prev_offset +:+
             " specified for buffer of size " +:+ to_string val_size)))
        else
          check_var_attr_offsets_loop buffer_off val_size prev_offset
            (seq 1 (Z.to_nat num_offsets - 1))
  | _, _, _ =>
      Done (LOG_STATUS (QueryError "Cannot use null offset buffers."))
  end.

(** The error kinds of the specification, as the statuses the code builds. *)
Definition NullBuffer : Status :=
  QueryError "Cannot use null offset buffers.".

Definition InvalidOffsets (st : Status) : Prop :=
  ∃ detail, st = QueryError ("Invalid offsets; " +:+ detail).

(** ** Enumerations *)

(** Modelled from the spec: [tiledb/sm/enums/datatype.h] is not among the
    sources.  The constants are the ten numeric kinds and the eight
    string and opaque kinds, the labels of the two [switch] statements of
    [query.cc]. *)
Inductive Datatype : Type :=
  | INT8 | UINT8 | INT16 | UINT16 | INT32 | UINT32 | INT64 | UINT64
  | FLOAT32 | FLOAT64
  | CHAR | STRING_ASCII | STRING_UTF8 | STRING_UTF16 | STRING_UTF32
  | STRING_UCS2 | STRING_UCS4 | ANY.

(** Modelled from the spec: [tiledb/sm/enums/query_type.h] is not among
    the sources. *)
Inductive QueryType : Type := READ | WRITE.

(** Modelled from the spec: [tiledb/sm/enums/query_status.h] is not among
    the sources; [query.cc] assigns and tests these five values. *)
Inductive QueryStatus : Type :=
  | UNINITIALIZED | INPROGRESS | INCOMPLETE | COMPLETED | FAILED.

(** Modelled from the spec: [tiledb/sm/enums/layout.h] is not among the
    sources; the specification lists the four layouts. *)
Inductive Layout : Type := ROW_MAJOR | COL_MAJOR | GLOBAL_ORDER | UNORDERED.

Global Instance Datatype_eq_dec : EqDecision Datatype.
Proof. solve_decision. Defined.
Global Instance QueryType_eq_dec : EqDecision QueryType.
Proof. solve_decision. Defined.
Global Instance QueryStatus_eq_dec : EqDecision QueryStatus.
Proof. solve_decision. Defined.

(** ** Untyped memory and its typed views

    What a [const void*] points to: an array of integers or an array of
    floating-point numbers.  An integer is a [Z]; no arithmetic is done on
    the scalars, only comparisons, so nothing wraps.  A floating-point
    number is an IEEE 754 datum ([spec_float]: signed zeros, infinities,
    NaN, finite numbers). *)

Inductive Buffer : Type :=
  | IntArr (l : list Z)
  | FloatArr (l : list spec_float).

(** The ten C++ types [T] the templates are instantiated at: the carrier,
    the operators [<] and [<=] of the type, the NaN test, and the view
    [static_cast<const T*>] gives of a buffer.  The view exists when the
    buffer holds values of [T]; reinterpreting the bytes of another type is
    outside the model. *)
Record NumType : Type := {
  carrier : Type;
  lt : carrier → carrier → bool;
  le : carrier → carrier → bool;
  is_nan : carrier → bool;
  view : Buffer → option (list carrier);
}.

Definition int_type (lo hi : Z) : NumType := {|
  carrier := Z;
  lt := Z.ltb;
  le := Z.leb;
  is_nan := λ _, false;
  view := λ b,
    match b with
    | IntArr l => if forallb (λ z, (lo <=? z) && (z <=? hi)) l then Some l else None
    | FloatArr _ => None
    end;
|}.

Definition float_type (prec emax : Z) : NumType := {|
  carrier := spec_float;
  lt := SFltb;
  le := SFleb;
  is_nan := λ f, match f with S754_nan => true | _ => false end;
  view := λ b,
    match b with
    | FloatArr l => if forallb (valid_binary prec emax) l then Some l else None
    | IntArr _ => None
    end;
|}.

Definition int8_t : NumType := int_type (-128) 127.
Definition uint8_t : NumType := int_type 0 255.
Definition int16_t : NumType := int_type (-32768) 32767.
Definition uint16_t : NumType := int_type 0 65535.
Definition int32_t : NumType := int_type (-2147483648) 2147483647.
Definition uint32_t : NumType := int_type 0 4294967295.
Definition int64_t : NumType := int_type (-9223372036854775808) 9223372036854775807.
Definition uint64_t : NumType := int_type 0 18446744073709551615.
Definition float : NumType := float_type 24 128.
Definition double : NumType := float_type 53 1024.

(** ** Dimension, Domain, ArraySchema *)

(** The four private attributes of [dimension.h]; the two [void*] are
    nullable. *)
Record Dimension : Type := {
  dim_domain_ : option Buffer;
  dim_name_ : string;
  dim_tile_extent_ : option Buffer;
  dim_type_ : Datatype;
}.

(** Modelled from the spec: [domain.h] is not among the sources.  A
    domain is an ordered sequence of dimensions that share one datatype;
    the Query uses [type()], [dim_num()] and [dimension(i)]. *)
Record Domain : Type := {
  dom_type : Datatype;
  dimensions : list Dimension;
}.

Definition dim_num (d : Domain) : nat := length (dimensions d).
Definition dimension (d : Domain) (i : nat) : option Dimension := dimensions d !! i.

(** Modelled from the spec: [array_schema.h] is not among the sources.
    The Query uses [domain()]. *)
Record ArraySchema : Type := { domain : Domain }.

(** ** Caller memory and attribute buffers

    A pointer is null or a location.  The heap maps the location of a
    payload allocation to its bytes and the location of a [uint64_t] size
    cell to its value. *)

Definition loc : Type := positive.
Definition ptr : Type := option loc.

Record Heap : Type := {
  payload : gmap loc (list Byte.byte);
  sizes : gmap loc Z;
}.

(** Modelled from the spec: the struct is declared in
    [tiledb/sm/query/types.h], which is not among the sources.  The four
    pointers are the members [copy_buffers] reads: the fixed payload (the
    offsets of a variable-length attribute) and its size cell, the values
    payload and its size cell, both null for a fixed-length attribute. *)
Record AttributeBuffer : Type := {
  buffer_ : ptr;
  buffer_var_ : ptr;
  buffer_size_ : ptr;
  buffer_var_size_ : ptr;
}.

(** ** The engines

    [Reader] and [Writer] are the collaborators the Query routes to; their
    sources are not part of the Query core.  The Query uses the member
    functions below; each takes the engine and returns what the C++ member
    returns, with the engine as the call left it. *)

Record Engines : Type := {
  Reader : Type;
  Writer : Type;
  reader_array_schema : Reader → option ArraySchema;
  writer_array_schema : Writer → option ArraySchema;
  reader_attribute_buffers : Reader → list (string * AttributeBuffer);
  writer_attribute_buffers : Writer → list (string * AttributeBuffer);
  reader_init : Reader → Status * Reader;
  writer_init : Writer → Status * Writer;
  reader_read : Reader → Status * Reader;
  reader_incomplete : Reader → bool;
  writer_write : Writer → Status * Writer;
  writer_finalize : Writer → Status * Writer;
  reader_set_buffer : Reader → string → ptr → ptr → Status * Reader;
  writer_set_buffer : Writer → string → ptr → ptr → Status * Writer;
  reader_set_buffer_var :
    Reader → string → ptr → ptr → ptr → ptr → Status * Reader;
  writer_set_buffer_var :
    Writer → string → ptr → ptr → ptr → ptr → Status * Writer;
  reader_set_layout : Reader → Layout → Status * Reader;
  writer_set_layout : Writer → Layout → Status * Writer;
  reader_set_subarray : Reader → option Buffer → Status * Reader;
  writer_set_subarray : Writer → option Buffer → Status * Writer;
}.

(** A callback is known by its identity; calling it is an event of the
    run.  The event records the argument and the status the Query shows
    at the time of the call.  The body of a callback is code of the
    caller: it is taken not to call back into the Query. *)
Definition Callback : Type := positive.

Inductive Event : Type :=
  | CallbackInvoked (callback : Callback) (callback_data : ptr)
      (observable : QueryStatus).

Section QueryCore.

Context (E : Engines).

(** [true] when the translation unit is compiled with [NDEBUG], which
    turns [assert] into nothing. *)
Variable NDEBUG : bool.

Definition assert_false : outcome unit :=
  if NDEBUG then Done () else AssertionFailed.

(** ** The Query object *)

Record Query : Type := {
  type_ : QueryType;
  status_ : QueryStatus;
  layout_ : Layout;
  callback_ : option Callback;
  callback_data_ : ptr;
  reader_ : Reader E;
  writer_ : Writer E;
}.

Definition with_type (q : Query) (t : QueryType) : Query :=
  {| type_ := t; status_ := status_ q; layout_ := layout_ q;
     callback_ := callback_ q; callback_data_ := callback_data_ q;
     reader_ := reader_ q; writer_ := writer_ q |}.

Definition with_status (q : Query) (s : QueryStatus) : Query :=
  {| type_ := type_ q; status_ := s; layout_ := layout_ q;
     callback_ := callback_ q; callback_data_ := callback_data_ q;
     reader_ := reader_ q; writer_ := writer_ q |}.

Definition with_layout (q : Query) (l : Layout) : Query :=
  {| type_ := type_ q; status_ := status_ q; layout_ := l;
     callback_ := callback_ q; callback_data_ := callback_data_ q;
     reader_ := reader_ q; writer_ := writer_ q |}.

Definition with_reader (q : Query) (r : Reader E) : Query :=
  {| type_ := type_ q; status_ := status_ q; layout_ := layout_ q;
     callback_ := callback_ q; callback_data_ := callback_data_ q;
     reader_ := r; writer_ := writer_ q |}.

Definition with_writer (q : Query) (w : Writer E) : Query :=
  {| type_ := type_ q; status_ := status_ q; layout_ := layout_ q;
     callback_ := callback_ q; callback_data_ := callback_data_ q;
     reader_ := reader_ q; writer_ := w |}.

(** *** Accessors *)

Definition array_schema (q : Query) : option ArraySchema :=
  match type_ q with
  | WRITE => writer_array_schema E (writer_ q)
  | READ => reader_array_schema E (reader_ q)
  end.

Definition attribute_buffers (q : Query) : list (string * AttributeBuffer) :=
  match type_ q with
  | WRITE => writer_attribute_buffers E (writer_ q)
  | READ => reader_attribute_buffers E (reader_ q)
  end.

Definition layout (q : Query) : Layout := layout_ q.
Definition status (q : Query) : QueryStatus := status_ q.
Definition type (q : Query) : QueryType := type_ q.

(** *** Life cycle *)

Definition finalize (q : Query) : Status * Query :=
  if decide (status_ q = UNINITIALIZED) then (Ok, q)
  else
    let '(st, w) := writer_finalize E (writer_ q) in
    let q := with_writer q w in
    if negb (ok st) then (st, q)
    else (Ok, with_status q COMPLETED).

Definition init (q : Query) : Status * Query :=
  let '(st, q) :=
    if decide (status_ q = UNINITIALIZED) then
      match type_ q with
      | READ =>
          let '(st, r) := reader_init E (reader_ q) in (st, with_reader q r)
      | WRITE =>
          let '(st, w) := writer_init E (writer_ q) in (st, with_writer q w)
      end
    else (Ok, q) in
  if negb (ok st) then (st, q)
  else (Ok, with_status q INPROGRESS).

Definition cancel (q : Query) : Status * Query :=
  (Ok, with_status q FAILED).

Definition process (q : Query) : Status * Query * list Event :=
  if decide (status_ q = UNINITIALIZED) then
    (LOG_STATUS (QueryError "Cannot process query; Query is not initialized"),
     q, [])
  else
    let q := with_status q INPROGRESS in
    let '(st, q) :=
      match type_ q with
      | READ =>
          let '(st, r) := reader_read E (reader_ q) in (st, with_reader q r)
      | WRITE =>
          let '(st, w) := writer_write E (writer_ q) in (st, with_writer q w)
      end in
    if negb (ok st) then (st, with_status q FAILED, [])
    else
      let completed :=
        match type_ q with
        | WRITE => true
        | READ => negb (reader_incomplete E (reader_ q))
        end in
      if completed then
        let events :=
          match callback_ q with
          | Some callback =>
              [CallbackInvoked callback (callback_data_ q) (status_ q)]
          | None => []
          end in
        (Ok, with_status q COMPLETED, events)
      else
        (Ok, with_status q INCOMPLETE, []).

(** *** Setters *)

Definition set_buffer (q : Query) (attribute : string)
    (buffer buffer_size : ptr) : Status * Query :=
  match type_ q with
  | WRITE =>
      let '(st, w) := writer_set_buffer E (writer_ q) attribute buffer buffer_size in
      (st, with_writer q w)
  | READ =>
      let '(st, r) := reader_set_buffer E (reader_ q) attribute buffer buffer_size in
      (st, with_reader q r)
  end.

Definition set_buffer_var (q : Query) (attribute : string)
    (buffer_off buffer_off_size buffer_val buffer_val_size : ptr)
    : Status * Query :=
  match type_ q with
  | WRITE =>
      let '(st, w) := writer_set_buffer_var E (writer_ q) attribute
                        buffer_off buffer_off_size buffer_val buffer_val_size in
      (st, with_writer q w)
  | READ =>
      let '(st, r) := reader_set_buffer_var E (reader_ q) attribute
                        buffer_off buffer_off_size buffer_val buffer_val_size in
      (st, with_reader q r)
  end.

Definition set_callback (q : Query) (callback : option Callback)
    (callback_data : ptr) : Query :=
  {| type_ := type_ q; status_ := status_ q; layout_ := layout_ q;
     callback_ := callback; callback_data_ := callback_data;
     reader_ := reader_ q; writer_ := writer_ q |}.

Definition set_layout (q : Query) (l : Layout) : Status * Query :=
  let q := with_layout q l in
  match type_ q with
  | WRITE =>
      let '(st, w) := writer_set_layout E (writer_ q) l in (st, with_writer q w)
  | READ =>
      let '(st, r) := reader_set_layout E (reader_ q) l in (st, with_reader q r)
  end.

Definition set_status (q : Query) (s : QueryStatus) : Query := with_status q s.

(** *** Subarray validation *)

(** The body of [for (unsigned int i = 0; i < dim_num; ++i)] of the
    template, over the indices still to visit.  [||] evaluates its right
    operand only when the left one is false.  [2 * i] is computed in
    [unsigned int]; it does not wrap for a domain of fewer than 2^31
    dimensions. *)
Fixpoint check_subarray_bounds_loop (T : NumType) (domain : Domain)
    (subarray : list (carrier T)) (indices : list nat) : outcome Status :=
  match indices with
  | [] => Done Ok
  | i :: indices' =>
      dim ←! deref (dimension domain i);
      raw ←! deref (dim_domain_ dim);
      dim_domain ←! deref (view T raw);
      lo ←! deref (subarray !! (2 * i)%nat);
      d0 ←! deref (dim_domain !! 0%nat);
      if lt T lo d0 then
        Done (LOG_STATUS (QueryError "Subarray out of bounds"))
      else
        hi ←! deref (subarray !! (2 * i + 1)%nat);
        d1 ←! deref (dim_domain !! 1%nat);
        if lt T d1 hi then
          Done (LOG_STATUS (QueryError "Subarray out of bounds"))
        else if lt T hi lo then
          Done (LOG_STATUS (QueryError
            "Subarray lower bound is larger than upper bound"))
        else check_subarray_bounds_loop T domain subarray indices'
  end.

(** [check_subarray_bounds<T>(static_cast<const T*>(subarray))]. *)
Definition check_subarray_bounds_T (T : NumType) (q : Query)
    (subarray : Buffer) : outcome Status :=
  subarray ←! deref (view T subarray);
  array_schema ←! deref (array_schema q);
  let domain := domain array_schema in
  let dim_num := dim_num domain in
  check_subarray_bounds_loop T domain subarray (seq 0 dim_num).

Definition check_subarray_bounds (q : Query) (subarray : option Buffer)
    : outcome Status :=
  match subarray with
  | None => Done Ok
  | Some subarray =>
      match array_schema q with
      | None =>
          Done (LOG_STATUS (QueryError
            "Cannot check subarray; Array schema not set"))
      | Some array_schema =>
          match dom_type (domain array_schema) with
          | INT8 => check_subarray_bounds_T int8_t q subarray
          | UINT8 => check_subarray_bounds_T uint8_t q subarray
          | INT16 => check_subarray_bounds_T int16_t q subarray
          | UINT16 => check_subarray_bounds_T uint16_t q subarray
          | INT32 => check_subarray_bounds_T int32_t q subarray
          | UINT32 => check_subarray_bounds_T uint32_t q subarray
          | INT64 => check_subarray_bounds_T int64_t q subarray
          | UINT64 => check_subarray_bounds_T uint64_t q subarray
          | FLOAT32 => check_subarray_bounds_T float q subarray
          | FLOAT64 => check_subarray_bounds_T double q subarray
          | CHAR | STRING_ASCII | STRING_UTF8 | STRING_UTF16 | STRING_UTF32
          | STRING_UCS2 | STRING_UCS4 | ANY =>
              _ ←! assert_false;
              Done Ok
          end
      end
  end.

Definition set_subarray (q : Query) (subarray : option Buffer)
    : outcome (Status * Query) :=
  st ←! check_subarray_bounds q subarray;
  if negb (ok st) then Done (st, q)
  else
    let '(st, q) :=
      match type_ q with
      | WRITE =>
          let '(st, w) := writer_set_subarray E (writer_ q) subarray in
          (st, with_writer q w)
      | READ =>
          let '(st, r) := reader_set_subarray E (reader_ q) subarray in
          (st, with_reader q r)
      end in
    if negb (ok st) then Done (st, q)
    else Done (Ok, with_status q UNINITIALIZED).

(** *** Memory operations of the buffer copy *)

(** [*p] for a [uint64_t* p]. *)
Definition load_size (h : Heap) (p : ptr) : outcome Z :=
  l ←! deref p;
  deref (sizes h !! l).

(** [memcpy(dst, src, n)]: both blocks must hold [n] bytes and must not
    overlap. *)
Definition memcpy (dst src : ptr) (n : Z) (h : Heap) : outcome Heap :=
  d ←! deref dst;
  s ←! deref src;
  to ←! deref (payload h !! d);
  from ←! deref (payload h !! s);
  if decide (0 ≤ n ≤ Z.of_nat (length to) ∧ n ≤ Z.of_nat (length from) ∧
             (d ≠ s ∨ n = 0)) then
    Done {| payload := <[d := take (Z.to_nat n) from ++ drop (Z.to_nat n) to]>
                         (payload h);
            sizes := sizes h |}
  else Undefined.

(** [free(p)]: nothing for a null pointer; releases a live allocation. *)
Definition free_payload (p : ptr) (h : Heap) : outcome Heap :=
  match p with
  | None => Done h
  | Some l =>
      _ ←! deref (payload h !! l);
      Done {| payload := delete l (payload h); sizes := sizes h |}
  end.

Definition free_size (p : ptr) (h : Heap) : outcome Heap :=
  match p with
  | None => Done h
  | Some l =>
      _ ←! deref (sizes h !! l);
      Done {| payload := payload h; sizes := delete l (sizes h) |}
  end.

(** [existing_buffers.find(name)] on the [unordered_map]. *)
Fixpoint find (m : list (string * AttributeBuffer)) (name : string)
    : option AttributeBuffer :=
  match m with
  | [] => None
  | (k, b) :: m' => if decide (k = name) then Some b else find m' name
  end.

Definition buffer_mismatch (existing_size new_size : Z) : Status :=
  QueryError
    ("Existing buffer in query object is different size (" +:+
     to_string existing_size +:+
     ") vs new query object buffer size (" +:+
     to_string new_size +:+ ")").

Definition buffer_var_mismatch (existing_size new_size : Z) : Status :=
  QueryError
    ("Existing buffer_var_ in query object is different size (" +:+
     to_string existing_size +:+
     ") vs new query object buffer_var size (" +:+
     to_string new_size +:+ ")").

(** *** Query::copy_buffers

    The branch of the loop body for a buffer the receiver already has:
    the status is [Ok] when the branch falls through to the next
    iteration, and the error of the [return] otherwise. *)
Definition copy_existing (existing_buffer buffer : AttributeBuffer) (h : Heap)
    : outcome (Status * Heap) :=
  existing_size ←! load_size h (buffer_size_ existing_buffer);
  new_size ←! load_size h (buffer_size_ buffer);
  if decide (existing_size ≠ new_size) then
    Done (buffer_mismatch existing_size new_size, h)
  else
    h ←! memcpy (buffer_ existing_buffer) (buffer_ buffer) new_size h;
    h ←! free_payload (buffer_ buffer) h;
    h ←! free_size (buffer_size_ buffer) h;
    match buffer_var_ buffer with
    | Some _ =>
        existing_var_size ←! load_size h (buffer_var_size_ existing_buffer);
        new_var_size ←! load_size h (buffer_var_size_ buffer);
        if decide (existing_var_size ≠ new_var_size) then
          Done (buffer_var_mismatch existing_var_size new_var_size, h)
        else
          h ←! memcpy (buffer_var_ existing_buffer) (buffer_var_ buffer)
                 new_var_size h;
          h ←! free_payload (buffer_var_ buffer) h;
          h ←! free_size (buffer_var_size_ buffer) h;
          Done (Ok, h)
    | None => Done (Ok, h)
    end.

(** The branch for a buffer new to the receiver: the buffer is registered
    with the engine and the status of the registration is dropped. *)
Definition copy_new (q : Query) (name : string) (buffer : AttributeBuffer)
    : Query :=
  match buffer_var_ buffer with
  | Some _ =>
      (set_buffer_var q name
         (buffer_var_ buffer) (buffer_var_size_ buffer)
         (buffer_ buffer) (buffer_size_ buffer)).2
  | None =>
      (set_buffer q name (buffer_ buffer) (buffer_size_ buffer)).2
  end.

(** The loop [for (auto& buffer : buffers)], over the entries of the donor
    still to visit, in the iteration order of the map. *)
Fixpoint copy_buffers_loop (existing_buffers : list (string * AttributeBuffer))
    (buffers : list (string * AttributeBuffer)) (q : Query) (h : Heap)
    : outcome (Status * Query * Heap) :=
  match buffers with
  | [] => Done (Ok, q, h)
  | buffer :: buffers' =>
      match find existing_buffers buffer.1 with
      | Some existing_buffer =>
          r ←! copy_existing existing_buffer buffer.2 h;
          if negb (ok r.1) then Done (r.1, q, r.2)
          else copy_buffers_loop existing_buffers buffers' q r.2
      | None =>
          copy_buffers_loop existing_buffers buffers'
            (copy_new q buffer.1 buffer.2) h
      end
  end.

Definition copy_buffers (q query : Query) (h : Heap)
    : outcome (Status * Query * Heap) :=
  let buffers := attribute_buffers query in
  let existing_buffers := attribute_buffers q in
  copy_buffers_loop existing_buffers buffers q h.

(** *** Query::copy_json_wip

    [query.subarray<T>().data()] comes from [query.h], which is not among
    the sources: the pointer is taken as given, for each donor and each
    element type [T]. *)
Variable subarray_data : Query → NumType → option Buffer.

Definition copy_json_wip (q query : Query) (h : Heap)
    : outcome (Status * Query * Heap) :=
  let q := with_type q (type query) in
  let q := with_status q (status query) in
  let '(_, q) := set_layout q (layout query) in
  schema ←! deref (array_schema q);
  let set T : outcome Query :=
    r ←! set_subarray q (subarray_data query T);
    Done r.2 in
  q ←! match dom_type (domain schema) with
       | INT8 => set int8_t
       | UINT8 => set uint8_t
       | INT16 => set int16_t
       | UINT16 => set uint16_t
       | INT32 => set int32_t
       | UINT32 => set uint32_t
       | INT64 => set int64_t
       | UINT64 => set uint64_t
       | FLOAT32 => set float
       | FLOAT64 => set double
       | CHAR | STRING_ASCII | STRING_UTF8 | STRING_UTF16 | STRING_UTF32
       | STRING_UCS2 | STRING_UCS4 | ANY =>
           _ ←! assert_false;
           Done q
       end;
  copy_buffers q query h.

End QueryCore.

Arguments type_ {E} q.
Arguments status_ {E} q.
Arguments layout_ {E} q.
Arguments callback_ {E} q.
Arguments callback_data_ {E} q.
Arguments reader_ {E} q.
Arguments writer_ {E} q.
Arguments with_type {E} q t.
Arguments with_status {E} q s.
Arguments with_layout {E} q l.
Arguments with_reader {E} q r.
Arguments with_writer {E} q w.
Arguments array_schema {E} q.
Arguments attribute_buffers {E} q.
Arguments layout {E} q.
Arguments status {E} q.
Arguments type {E} q.
Arguments finalize {E} q.
Arguments init {E} q.
Arguments cancel {E} q.
Arguments process {E} q.
Arguments set_buffer {E} q attribute buffer buffer_size.
Arguments set_buffer_var {E} q attribute buffer_off buffer_off_size
  buffer_val buffer_val_size.
Arguments set_callback {E} q callback callback_data.
Arguments set_layout {E} q l.
Arguments set_status {E} q s.
Arguments check_subarray_bounds_T {E} T q subarray.
Arguments check_subarray_bounds {E} NDEBUG q subarray.
Arguments set_subarray {E} NDEBUG q subarray.
Arguments copy_new {E} q name buffer.
Arguments copy_buffers_loop {E} existing_buffers buffers q h.
Arguments copy_buffers {E} q query h.
Arguments copy_json_wip {E} NDEBUG subarray_data q query h.

(** ** The rest of the Query interface *)

(** What the Query passes through without looking inside: a URI, and the
    pointers to the storage manager and to the metadata of a fragment. *)
Definition URI : Type := string.

(** The further member functions of [Reader] and [Writer] the Query uses,
    with [Reader()], [Writer()] and [Writer(j)]; as for [Engines], the
    sources of the engines are not part of the Query core. *)
Record EngineAccessors (E : Engines) : Type := {
  Json : Type;
  reader_new : Reader E;
  writer_new : Writer E;
  writer_from_json : Json → Writer E;
  writer_json : Writer E → Json;
  reader_attributes : Reader E → list string;
  writer_attributes : Writer E → list string;
  reader_fragment_metadata : Reader E → list ptr;
  reader_fragment_num : Reader E → N;
  reader_fragment_uris : Reader E → list URI;
  reader_last_fragment_uri : Reader E → URI;
  reader_no_results : Reader E → bool;
  reader_storage_manager : Reader E → ptr;
  writer_storage_manager : Writer E → ptr;
  reader_set_storage_manager : Reader E → ptr → Reader E;
  writer_set_storage_manager : Writer E → ptr → Writer E;
  reader_set_array_schema : Reader E → option ArraySchema → Reader E;
  writer_set_array_schema : Writer E → option ArraySchema → Writer E;
  reader_set_fragment_metadata : Reader E → list ptr → Reader E;
  writer_set_fragment_uri : Writer E → URI → Writer E;
}.

Arguments Json {E} _.
Arguments reader_new {E} _.
Arguments writer_new {E} _.
Arguments writer_from_json {E} _ _.
Arguments writer_json {E} _ _.
Arguments reader_attributes {E} _ _.
Arguments writer_attributes {E} _ _.
Arguments reader_fragment_metadata {E} _ _.
Arguments reader_fragment_num {E} _ _.
Arguments reader_fragment_uris {E} _ _.
Arguments reader_last_fragment_uri {E} _ _.
Arguments reader_no_results {E} _ _.
Arguments reader_storage_manager {E} _ _.
Arguments writer_storage_manager {E} _ _.
Arguments reader_set_storage_manager {E} _ _ _.
Arguments writer_set_storage_manager {E} _ _ _.
Arguments reader_set_array_schema {E} _ _ _.
Arguments writer_set_array_schema {E} _ _ _.
Arguments reader_set_fragment_metadata {E} _ _ _.
Arguments writer_set_fragment_uri {E} _ _ _.

Section QueryInterface.

Context {E : Engines} (X : EngineAccessors E).

Definition attributes (q : Query E) : list string :=
  match type_ q with
  | WRITE => writer_attributes X (writer_ q)
  | READ => reader_attributes X (reader_ q)
  end.

Definition fragment_metadata (q : Query E) : list ptr :=
  match type_ q with
  | READ => reader_fragment_metadata X (reader_ q)
  | WRITE => []
  end.

Definition fragment_num (q : Query E) : N :=
  match type_ q with
  | WRITE => 0%N
  | READ => reader_fragment_num X (reader_ q)
  end.

Definition fragment_uris (q : Query E) : list URI :=
  let uris : list URI := [] in
  match type_ q with
  | WRITE => uris
  | READ => reader_fragment_uris X (reader_ q)
  end.

Definition has_results (q : Query E) : bool :=
  if bool_decide (status_ q = UNINITIALIZED) || bool_decide (type_ q = WRITE)
  then false
  else negb (reader_no_results X (reader_ q)).

(** [URI()] is the empty URI. *)
Definition last_fragment_uri (q : Query E) : URI :=
  match type_ q with
  | WRITE => ""
  | READ => reader_last_fragment_uri X (reader_ q)
  end.

Definition set_fragment_uri (q : Query E) (fragment_uri : URI) : Query E :=
  match type_ q with
  | WRITE => with_writer q (writer_set_fragment_uri X (writer_ q) fragment_uri)
  | READ => q
  end.

Definition set_writer (q : Query E) (j : Json X) : Query E :=
  let array_schema := writer_array_schema E (writer_ q) in
  let q := with_writer q (writer_from_json X j) in
  with_writer q (writer_set_array_schema X (writer_ q) array_schema).

Definition set_storage_manager (q : Query E) (storage_manager : ptr)
    : Query E :=
  match type_ q with
  | WRITE =>
      with_writer q (writer_set_storage_manager X (writer_ q) storage_manager)
  | READ =>
      with_reader q (reader_set_storage_manager X (reader_ q) storage_manager)
  end.

Definition storage_manager (q : Query E) : ptr :=
  match type_ q with
  | WRITE => writer_storage_manager X (writer_ q)
  | READ => reader_storage_manager X (reader_ q)
  end.

Definition writer_to_json (q : Query E) : Json X :=
  writer_json X (writer_ q).

Definition set_array_schema (q : Query E) (array_schema : option ArraySchema)
    : Query E :=
  match type_ q with
  | READ => with_reader q (reader_set_array_schema X (reader_ q) array_schema)
  | WRITE => with_writer q (writer_set_array_schema X (writer_ q) array_schema)
  end.

Definition set_fragment_metadata (q : Query E) (fragment_metadata : list ptr)
    : Query E :=
  match type_ q with
  | READ =>
      with_reader q
        (reader_set_fragment_metadata X (reader_ q) fragment_metadata)
  | WRITE => q
  end.

(** [Query::Query(storage_manager, type, array_schema, fragment_metadata)]:
    the two engines are default-constructed members; the body assigns the
    callback, the layout and the status, then calls the three setters. *)
Definition Query_new (storage_manager : ptr) (type : QueryType)
    (array_schema : option ArraySchema) (fragment_metadata : list ptr)
    : Query E :=
  let q := Build_Query E type UNINITIALIZED ROW_MAJOR None None
             (reader_new X) (writer_new X) in
  let q := set_storage_manager q storage_manager in
  let q := set_array_schema q array_schema in
  set_fragment_metadata q fragment_metadata.

(** [Query::Query(const Query& query)]: the two engines are
    default-constructed members again.  The first record holds the type and
    the callback the body assigns first; its status and layout are the
    members not assigned yet, which nothing reads before [set_layout] and
    the assignment of the status overwrite them. *)
Definition Query_copy (query : Query E) : Query E :=
  let q := Build_Query E (type query) UNINITIALIZED ROW_MAJOR
             (callback_ query) (callback_data_ query)
             (reader_new X) (writer_new X) in
  let '(_, q) := set_layout q (layout query) in
  let q := with_status q (status query) in
  let q := set_storage_manager q (storage_manager query) in
  let q := set_array_schema q (array_schema query) in
  set_fragment_metadata q (fragment_metadata query).

End QueryInterface.

(** ** Vocabulary of the statements *)

(** The C++ element type of a domain type, as the two [switch] statements
    pair them; [None] for the types of the [assert(false)] arm. *)
Definition numeric_type (t : Datatype) : option NumType :=
  match t with
  | INT8 => Some int8_t | UINT8 => Some uint8_t
  | INT16 => Some int16_t | UINT16 => Some uint16_t
  | INT32 => Some int32_t | UINT32 => Some uint32_t
  | INT64 => Some int64_t | UINT64 => Some uint64_t
  | FLOAT32 => Some float | FLOAT64 => Some double
  | _ => None
  end.

(** The error kinds of the specification, as the statuses the code builds. *)
Definition SubarrayOutOfBounds : Status :=
  QueryError "Subarray out of bounds".
Definition InvalidSubarrayRange : Status :=
  QueryError "Subarray lower bound is larger than upper bound".
Definition SchemaNotSet : Status :=
  QueryError "Cannot check subarray; Array schema not set".
Definition NotInitialized : Status :=
  QueryError "Cannot process query; Query is not initialized".

(** [[d0, d1]] of dimension [i], and the range [i] of a subarray. *)
Definition dim_bounds (T : NumType) (dom : Domain) (i : nat)
    : option (carrier T * carrier T) :=
  dim ← dimension dom i;
  raw ← dim_domain_ dim;
  l ← view T raw;
  d0 ← l !! 0%nat;
  d1 ← l !! 1%nat;
  Some (d0, d1).

Definition range (T : NumType) (s : list (carrier T)) (i : nat)
    : option (carrier T * carrier T) :=
  lo ← s !! (2 * i)%nat;
  hi ← s !! (2 * i + 1)%nat;
  Some (lo, hi).

(** The three requirements of the specification on range [i]:
    [subarray[2i] >= d0], [subarray[2i+1] <= d1],
    [subarray[2i] <= subarray[2i+1]]. *)
Definition within (T : NumType) (d r : carrier T * carrier T) : Prop :=
  le T d.1 r.1 = true ∧ le T r.2 d.2 = true.

Definition range_ok (T : NumType) (d r : carrier T * carrier T) : Prop :=
  within T d r ∧ le T r.1 r.2 = true.


(** A bound of range [i] lies outside the domain of dimension [i]; the
    range is empty. *)
Definition outside (T : NumType) (d r : carrier T * carrier T) : Prop :=
  lt T r.1 d.1 = true ∨ lt T d.2 r.2 = true.

Definition empty_range (T : NumType) (r : carrier T * carrier T) : Prop :=
  lt T r.2 r.1 = true.

(** Every dimension has its domain set, to two scalars of [T] that are not
    NaN (what [Dimension::set_domain] is specified to enforce). *)
Definition domain_set (T : NumType) (dom : Domain) : Prop :=
  ∀ i, (i < dim_num dom)%nat →
       ∃ d, dim_bounds T dom i = Some d ∧
            is_nan T d.1 = false ∧ is_nan T d.2 = false.

(** Dimension [i] and range [i] exist and hold no NaN; range [i] meets the
    three requirements. *)
Definition defined_at (T : NumType) (dom : Domain) (s : list (carrier T))
    (i : nat) : Prop :=
  ∃ d r, dim_bounds T dom i = Some d ∧ range T s i = Some r ∧
         is_nan T d.1 = false ∧ is_nan T d.2 = false ∧
         is_nan T r.1 = false ∧ is_nan T r.2 = false.

Definition ok_at (T : NumType) (dom : Domain) (s : list (carrier T))
    (i : nat) : Prop :=
  ∀ d r, dim_bounds T dom i = Some d → range T s i = Some r → range_ok T d r.

(** [needle] occurs in [hay]. *)
Definition occurs_in (needle hay : string) : Prop :=
  ∃ before after, hay = before +:+ needle +:+ after.

(** *** Vocabulary of the buffer copy *)

(** The pairs (buffer of the receiver, buffer of the donor) the loop of
    [copy_buffers] copies between, in the order it meets them. *)
Definition matches (existing_buffers buffers : list (string * AttributeBuffer))
    : list (AttributeBuffer * AttributeBuffer) :=
  omap (λ buffer : string * AttributeBuffer,
          existing_buffer ← find existing_buffers buffer.1;
          Some (existing_buffer, buffer.2)) buffers.

Definition non_null (l : list ptr) : list loc := omap id l.

(** The payload allocations and the size cells a pair of buffers names. *)
Definition payload_locs (p : AttributeBuffer * AttributeBuffer) : list loc :=
  non_null [buffer_ p.1; buffer_var_ p.1; buffer_ p.2; buffer_var_ p.2].

Definition size_locs (p : AttributeBuffer * AttributeBuffer) : list loc :=
  non_null [buffer_size_ p.1; buffer_var_size_ p.1;
            buffer_size_ p.2; buffer_var_size_ p.2].

(** Every payload and every size cell is an allocation of its own. *)
Definition separated (ps : list (AttributeBuffer * AttributeBuffer)) : Prop :=
  NoDup (ps ≫= payload_locs) ∧ NoDup (ps ≫= size_locs).

(** [p] is a live allocation and [sz] a live size cell, whose value the
    allocation can hold. *)
Definition block_ok (h : Heap) (p sz : ptr) : Prop :=
  ∃ l c bytes n,
    p = Some l ∧ sz = Some c ∧
    payload h !! l = Some bytes ∧ sizes h !! c = Some n ∧
    0 ≤ n ≤ Z.of_nat (length bytes).

(** Both buffers of a pair are usable: the fixed parts, and the
    variable-length parts when the donor has one. *)
Definition pair_ok (h : Heap) (p : AttributeBuffer * AttributeBuffer) : Prop :=
  block_ok h (buffer_ p.1) (buffer_size_ p.1) ∧
  block_ok h (buffer_ p.2) (buffer_size_ p.2) ∧
  (is_Some (buffer_var_ p.2) →
   block_ok h (buffer_var_ p.1) (buffer_var_size_ p.1) ∧
   block_ok h (buffer_var_ p.2) (buffer_var_size_ p.2)).

(** The value of a size cell. *)
Definition size_of (h : Heap) (p : ptr) : option Z :=
  l ← p; sizes h !! l.

(** The bytes of a payload. *)
Definition bytes_of (h : Heap) (p : ptr) : option (list Byte.byte) :=
  l ← p; payload h !! l.

(** The fixed sizes of a pair are equal; all the sizes the loop compares
    are equal. *)
Definition fixed_agree (h : Heap) (p : AttributeBuffer * AttributeBuffer)
    : Prop :=
  size_of h (buffer_size_ p.1) = size_of h (buffer_size_ p.2).

Definition sizes_agree (h : Heap) (p : AttributeBuffer * AttributeBuffer)
    : Prop :=
  fixed_agree h p ∧
  (is_Some (buffer_var_ p.2) →
   size_of h (buffer_var_size_ p.1) = size_of h (buffer_var_size_ p.2)).

(** The two heaps hold the same outside the given locations. *)
Definition agree_off (pl sl : list loc) (h h' : Heap) : Prop :=
  (∀ x, x ∉ pl → payload h' !! x = payload h !! x) ∧
  (∀ c, c ∉ sl → sizes h' !! c = sizes h !! c).

(** The error kind BufferSizeMismatch at a pair: the status is one of the
    two messages of [copy_buffers], made of the two sizes of the pair that
    differ (the fixed sizes, or the sizes of the values when the fixed
    sizes are equal). *)
Definition mismatch_at (h : Heap) (p : AttributeBuffer * AttributeBuffer)
    (st : Status) : Prop :=
  ∃ x y, x ≠ y ∧
    (size_of h (buffer_size_ p.1) = Some x ∧
     size_of h (buffer_size_ p.2) = Some y ∧
     st = buffer_mismatch x y
     ∨
     is_Some (buffer_var_ p.2) ∧ fixed_agree h p ∧
     size_of h (buffer_var_size_ p.1) = Some x ∧
     size_of h (buffer_var_size_ p.2) = Some y ∧
     st = buffer_var_mismatch x y).

(** The Status the engine selected by the type gives to [set_subarray],
    and to [process]. *)
Definition engine_subarray_status {E : Engines} (q : Query E)
    (subarray : option Buffer) : Status :=
  match type q with
  | WRITE => (writer_set_subarray E (writer_ q) subarray).1
  | READ => (reader_set_subarray E (reader_ q) subarray).1
  end.

Definition engine_process_status {E : Engines} (q : Query E) : Status :=
  match type q with
  | READ => (reader_read E (reader_ q)).1
  | WRITE => (writer_write E (writer_ q)).1
  end.

(** [needle] occurs in [hay], decided. *)
Fixpoint starts_with (needle hay : string) : bool :=
  match needle, hay with
  | EmptyString, _ => true
  | String a needle', String b hay' =>
      bool_decide (a = b) && starts_with needle' hay'
  | String _ _, EmptyString => false
  end.

Fixpoint occurs_in_b (needle hay : string) : bool :=
  starts_with needle hay ||
  match hay with
  | EmptyString => false
  | String _ hay' => occurs_in_b needle hay'
  end.

(** *** Further vocabulary *)

(** A key that orders the floating-point data other than NaN as [<=]
    does: the sign class first, then the exponent, then the mantissa. *)
Definition sf_key (f : spec_float) : Z * Z * Z :=
  match f with
  | S754_infinity true => (-2, 0, 0)
  | S754_finite true m e => (-1, - e, Z.neg m)
  | S754_zero _ | S754_nan => (0, 0, 0)
  | S754_finite false m e => (1, e, Z.pos m)
  | S754_infinity false => (2, 0, 0)
  end.

Definition lex_le (a b : Z * Z * Z) : Prop :=
  a.1.1 < b.1.1 ∨
  a.1.1 = b.1.1 ∧ (a.1.2 < b.1.2 ∨ a.1.2 = b.1.2 ∧ a.2 ≤ b.2).

(** What the Query keeps for itself, outside the two engines and the
    status: the type, the layout, the callback and its data. *)
Definition same_shell {E : Engines} (q q' : Query E) : Prop :=
  type q' = type q ∧ layout q' = layout q ∧
  callback_ q' = callback_ q ∧ callback_data_ q' = callback_data_ q.

(** The engine the type does not select is the same in both. *)
Definition other_engine_kept {E : Engines} (q q' : Query E) : Prop :=
  match type q with
  | WRITE => reader_ q' = reader_ q
  | READ => writer_ q' = writer_ q
  end.

(** One call of a member function that can assign to the Query, other than
    [copy_json_wip]: the Query before and after. *)
Inductive call {E : Engines} (X : EngineAccessors E) (NDEBUG : bool)
    : Query E → Query E → Prop :=
  | call_finalize q : call X NDEBUG q (finalize q).2
  | call_init q : call X NDEBUG q (init q).2
  | call_cancel q : call X NDEBUG q (cancel q).2
  | call_process q : call X NDEBUG q (process q).1.2
  | call_set_buffer q attribute buffer buffer_size :
      call X NDEBUG q (set_buffer q attribute buffer buffer_size).2
  | call_set_buffer_var q attribute buffer_off buffer_off_size
        buffer_val buffer_val_size :
      call X NDEBUG q
        (set_buffer_var q attribute buffer_off buffer_off_size
           buffer_val buffer_val_size).2
  | call_set_callback q callback callback_data :
      call X NDEBUG q (set_callback q callback callback_data)
  | call_set_fragment_uri q fragment_uri :
      call X NDEBUG q (set_fragment_uri X q fragment_uri)
  | call_set_writer q j : call X NDEBUG q (set_writer X q j)
  | call_set_layout q l : call X NDEBUG q (set_layout q l).2
  | call_set_status q s : call X NDEBUG q (set_status q s)
  | call_set_storage_manager q storage_manager :
      call X NDEBUG q (set_storage_manager X q storage_manager)
  | call_set_subarray q subarray st q' :
      set_subarray NDEBUG q subarray = Done (st, q') → call X NDEBUG q q'
  | call_set_array_schema q array_schema :
      call X NDEBUG q (set_array_schema X q array_schema)
  | call_set_fragment_metadata q fragment_metadata :
      call X NDEBUG q (set_fragment_metadata X q fragment_metadata)
  | call_copy_buffers q query h st q' h' :
      copy_buffers q query h = Done (st, q', h') → call X NDEBUG q q'.

(** What a completed copy leaves of one block: the destination starts with
    the first [n] bytes of the source, [n] the size the donor announced,
    and keeps its own bytes after them; the source and its size cell are
    released. *)
Definition block_moved (h h' : Heap) (dst src src_size : ptr) : Prop :=
  ∃ n to from,
    size_of h src_size = Some n ∧
    bytes_of h dst = Some to ∧ bytes_of h src = Some from ∧
    bytes_of h' dst = Some (take (Z.to_nat n) from ++ drop (Z.to_nat n) to) ∧
    bytes_of h' src = None ∧ size_of h' src_size = None.

(** A pair after a completed copy: the fixed part is moved, and the
    variable-length part when the donor has one; the size cells of the
    receiver hold what they held. *)
Definition moved (h h' : Heap) (p : AttributeBuffer * AttributeBuffer)
    : Prop :=
  block_moved h h' (buffer_ p.1) (buffer_ p.2) (buffer_size_ p.2) ∧
  size_of h' (buffer_size_ p.1) = size_of h (buffer_size_ p.1) ∧
  (is_Some (buffer_var_ p.2) →
   block_moved h h' (buffer_var_ p.1) (buffer_var_ p.2)
     (buffer_var_size_ p.2) ∧
   size_of h' (buffer_var_size_ p.1) = size_of h (buffer_var_size_ p.1)).

(** ** A small engine to run the Query on concrete inputs

    It keeps the schema, the registered buffers and the subarray; a read
    is incomplete while [sim_rounds] is not exhausted; [accept] says
    whether [set_subarray] takes the subarray. *)

Record SimEngine : Type := {
  sim_schema : option ArraySchema;
  sim_buffers : list (string * AttributeBuffer);
  sim_subarray : option Buffer;
  sim_rounds : nat;
}.

Definition sim_register (e : SimEngine) (name : string) (b : AttributeBuffer)
    : Status * SimEngine :=
  (Ok, {| sim_schema := sim_schema e;
          sim_buffers := sim_buffers e ++ [(name, b)];
          sim_subarray := sim_subarray e;
          sim_rounds := sim_rounds e |}).

Definition sim_read (e : SimEngine) : Status * SimEngine :=
  (Ok, {| sim_schema := sim_schema e;
          sim_buffers := sim_buffers e;
          sim_subarray := sim_subarray e;
          sim_rounds := pred (sim_rounds e) |}).

Definition sim_set_subarray (accept : bool) (e : SimEngine)
    (s : option Buffer) : Status * SimEngine :=
  if accept then
    (Ok, {| sim_schema := sim_schema e;
            sim_buffers := sim_buffers e;
            sim_subarray := s;
            sim_rounds := sim_rounds e |})
  else (EngineError "subarray rejected", e).

Definition sim_engines (accept : bool) : Engines := {|
  Reader := SimEngine;
  Writer := SimEngine;
  reader_array_schema := sim_schema;
  writer_array_schema := sim_schema;
  reader_attribute_buffers := sim_buffers;
  writer_attribute_buffers := sim_buffers;
  reader_init := λ e, (Ok, e);
  writer_init := λ e, (Ok, e);
  reader_read := sim_read;
  reader_incomplete := λ e, bool_decide (sim_rounds e ≠ 0%nat);
  writer_write := λ e, (Ok, e);
  writer_finalize := λ e, (Ok, e);
  reader_set_buffer := λ e name b bs,
    sim_register e name
      {| buffer_ := b; buffer_var_ := None;
         buffer_size_ := bs; buffer_var_size_ := None |};
  writer_set_buffer := λ e name b bs,
    sim_register e name
      {| buffer_ := b; buffer_var_ := None;
         buffer_size_ := bs; buffer_var_size_ := None |};
  reader_set_buffer_var := λ e name off off_size val val_size,
    sim_register e name
      {| buffer_ := off; buffer_var_ := val;
         buffer_size_ := off_size; buffer_var_size_ := val_size |};
  writer_set_buffer_var := λ e name off off_size val val_size,
    sim_register e name
      {| buffer_ := off; buffer_var_ := val;
         buffer_size_ := off_size; buffer_var_size_ := val_size |};
  reader_set_layout := λ e _, (Ok, e);
  writer_set_layout := λ e _, (Ok, e);
  reader_set_subarray := sim_set_subarray accept;
  writer_set_subarray := sim_set_subarray accept;
|}.

Definition sim_engine (schema : option ArraySchema)
    (buffers : list (string * AttributeBuffer)) (rounds : nat) : SimEngine :=
  {| sim_schema := schema; sim_buffers := buffers;
     sim_subarray := None; sim_rounds := rounds |}.

(** A Query on the small engine, of a given type and in a given status,
    with the defaults of the constructor; both engines start from [e]. *)
Definition sim_query (accept : bool) (t : QueryType) (s : QueryStatus)
    (e : SimEngine) : Query (sim_engines accept) :=
  Build_Query (sim_engines accept) t s ROW_MAJOR None None e e.

Definition one_dim_schema (t : Datatype) (bounds : Buffer) : ArraySchema :=
  {| domain := {| dom_type := t;
                  dimensions := [ {| dim_domain_ := Some bounds;
                                     dim_name_ := "d0";
                                     dim_tile_extent_ := None;
                                     dim_type_ := t |} ] |} |}.

(** ** Concrete inputs *)

(** The doubles 0.0, 0.5, 1.0 and 1.5. *)
Definition d_zero : spec_float := S754_zero false.
Definition d_half : spec_float := S754_finite false 4503599627370496 (-53).
Definition d_one : spec_float := S754_finite false 4503599627370496 (-52).
Definition d_one_and_half : spec_float :=
  S754_finite false 6755399441055744 (-52).

(** One [FLOAT64] dimension with domain [[0.0, 1.0]]. *)
Definition unit_interval_schema : ArraySchema :=
  one_dim_schema FLOAT64 (FloatArr [d_zero; d_one]).

(** One [INT32] dimension with domain [[0, 9]]. *)
Definition ten_cells_schema : ArraySchema :=
  one_dim_schema INT32 (IntArr [0; 9]).

(** Two [INT32] dimensions, each with domain [[0, 9]]. *)
Definition grid_schema : ArraySchema :=
  {| domain := {| dom_type := INT32;
                  dimensions :=
                    [ {| dim_domain_ := Some (IntArr [0; 9]);
                         dim_name_ := "rows";
                         dim_tile_extent_ := None;
                         dim_type_ := INT32 |};
                      {| dim_domain_ := Some (IntArr [0; 9]);
                         dim_name_ := "cols";
                         dim_tile_extent_ := None;
                         dim_type_ := INT32 |} ] |} |}.

(** One [CHAR] dimension. *)
Definition char_schema : ArraySchema :=
  one_dim_schema CHAR (IntArr [0; 9]).

(** A write query, not yet initialised, on a schema. *)
Definition fresh_write (schema : ArraySchema) : Query (sim_engines true) :=
  sim_query true WRITE UNINITIALIZED (sim_engine (Some schema) [] 0).

(** A write query that was initialised and then cancelled. *)
Definition cancelled_write : Query (sim_engines true) :=
  (cancel (init (fresh_write ten_cells_schema)).2).2.

(** A read query in progress whose reader needs [rounds] reads, with a
    callback registered. *)
Definition reading (rounds : nat) : Query (sim_engines true) :=
  set_callback
    (sim_query true READ INPROGRESS
       (sim_engine (Some ten_cells_schema) [] rounds))
    (Some 1%positive) None.

(** [n] calls of [process] in a row, with the callback events of all of
    them. *)
Fixpoint process_rounds (n : nat) (q : Query (sim_engines true))
    : Query (sim_engines true) * list Event :=
  match n with
  | O => (q, [])
  | S n' =>
      let '(_, q1, events1) := process q in
      let '(q2, events2) := process_rounds n' q1 in
      (q2, events1 ++ events2)
  end.

(** Buffers: a fixed-length one whose payload and size cell are at [l]; a
    variable-length one with its offsets at [off] and its values at [val]. *)
Definition fixed_buffer (l : loc) : AttributeBuffer :=
  {| buffer_ := Some l; buffer_var_ := None;
     buffer_size_ := Some l; buffer_var_size_ := None |}.

Definition var_buffer (off val : loc) : AttributeBuffer :=
  {| buffer_ := Some off; buffer_var_ := Some val;
     buffer_size_ := Some off; buffer_var_size_ := Some val |}.

(** A write query that holds the given buffers. *)
Definition holder (buffers : list (string * AttributeBuffer))
    : Query (sim_engines true) :=
  sim_query true WRITE UNINITIALIZED
    (sim_engine (Some ten_cells_schema) buffers 0).

(** A receiver buffer of 40 bytes at 1 and a donor buffer of 48 bytes at
    2. *)
Definition heap_40_48 : Heap :=
  {| payload := {[ 1%positive := replicate 40 Byte.x00;
                   2%positive := replicate 48 Byte.x01 ]};
     sizes := {[ 1%positive := 40; 2%positive := 48 ]} |}.

(** A receiver with offsets at 3 and values at 4, a donor with offsets at
    5 and values at 6: equal offsets sizes, different values sizes. *)
Definition heap_var : Heap :=
  {| payload := {[ 3%positive := [Byte.x00; Byte.x00; Byte.x00; Byte.x00];
                   4%positive := [Byte.x0a; Byte.x0b; Byte.x0c];
                   5%positive := [Byte.x00; Byte.x02; Byte.x00; Byte.x03];
                   6%positive := [Byte.x1a; Byte.x1b; Byte.x1c; Byte.x1d;
                                  Byte.x1e] ]};
     sizes := {[ 3%positive := 4; 4%positive := 3;
                 5%positive := 4; 6%positive := 5 ]} |}.

Definition receiver_fixed : Query (sim_engines true) :=
  holder [("a", fixed_buffer 1%positive)].
Definition donor_fixed : Query (sim_engines true) :=
  holder [("a", fixed_buffer 2%positive)].

Definition receiver_var : Query (sim_engines true) :=
  holder [("v", var_buffer 3%positive 4%positive)].
Definition donor_var : Query (sim_engines true) :=
  holder [("v", var_buffer 5%positive 6%positive)].

(** No caller memory. *)
Definition empty_heap : Heap := {| payload := ∅; sizes := ∅ |}.

(** A donor whose subarray is [[2, 7]], whatever the element type. *)
Definition subarray_2_7 (E : Engines) (query : Query E) (T : NumType)
    : option Buffer := Some (IntArr [2; 7]).

(** Read queries on an engine that rejects, or accepts, every subarray. *)
Definition rejecting (s : QueryStatus) : Query (sim_engines false) :=
  sim_query false READ s (sim_engine (Some ten_cells_schema) [] 0).

Definition accepting (s : QueryStatus) : Query (sim_engines true) :=
  sim_query true READ s (sim_engine (Some ten_cells_schema) [] 0).

(** The further member functions on the small engine: it keeps no storage
    manager, no fragments and no URI; its JSON form is the engine itself;
    a reader has no results while no buffer is registered. *)
Definition sim_set_schema (e : SimEngine) (schema : option ArraySchema)
    : SimEngine :=
  {| sim_schema := schema; sim_buffers := sim_buffers e;
     sim_subarray := sim_subarray e; sim_rounds := sim_rounds e |}.

Definition sim_accessors (accept : bool)
    : EngineAccessors (sim_engines accept) :=
  Build_EngineAccessors (sim_engines accept)
    (* Json *) SimEngine
    (* Reader(), Writer() *) (sim_engine None [] 0) (sim_engine None [] 0)
    (* Writer(j), to_json *) (λ j, j) (λ e : SimEngine, e)
    (* attributes *)
    (λ e : SimEngine, (sim_buffers e).*1) (λ e : SimEngine, (sim_buffers e).*1)
    (* fragment_metadata, fragment_num, fragment_uris, last_fragment_uri *)
    (λ _, []) (λ _, 0%N) (λ _, []) (λ _, "")
    (* no_results *)
    (λ e : SimEngine, match sim_buffers e with [] => true | _ => false end)
    (* storage_manager *) (λ _, None) (λ _, None)
    (* set_storage_manager *) (λ (e : SimEngine) _, e) (λ (e : SimEngine) _, e)
    (* set_array_schema *) sim_set_schema sim_set_schema
    (* set_fragment_metadata, set_fragment_uri *)
    (λ (e : SimEngine) _, e) (λ (e : SimEngine) _, e).

(** The read query [accepting COMPLETED] after [set_subarray] on [[2, 7]]:
    the reader holds the subarray and the status is reset. *)
Definition subarray_set : Query (sim_engines true) :=
  Build_Query (sim_engines true) READ UNINITIALIZED ROW_MAJOR None None
    {| sim_schema := Some ten_cells_schema; sim_buffers := [];
       sim_subarray := Some (IntArr [2; 7]); sim_rounds := 0 |}
    (sim_engine (Some ten_cells_schema) [] 0).

(** An engine whose [init] fails. *)
Definition failing_init_engines : Engines := {|
  Reader := SimEngine;
  Writer := SimEngine;
  reader_array_schema := sim_schema;
  writer_array_schema := sim_schema;
  reader_attribute_buffers := sim_buffers;
  writer_attribute_buffers := sim_buffers;
  reader_init := λ e, (EngineError "no buffers set", e);
  writer_init := λ e, (EngineError "no buffers set", e);
  reader_read := sim_read;
  reader_incomplete := λ e, bool_decide (sim_rounds e ≠ 0%nat);
  writer_write := λ e, (Ok, e);
  writer_finalize := λ e, (Ok, e);
  reader_set_buffer := reader_set_buffer (sim_engines true);
  writer_set_buffer := writer_set_buffer (sim_engines true);
  reader_set_buffer_var := reader_set_buffer_var (sim_engines true);
  writer_set_buffer_var := writer_set_buffer_var (sim_engines true);
  reader_set_layout := λ e _, (Ok, e);
  writer_set_layout := λ e _, (Ok, e);
  reader_set_subarray := sim_set_subarray true;
  writer_set_subarray := sim_set_subarray true;
|}.

Definition never_initialized : Query failing_init_engines :=
  Build_Query failing_init_engines WRITE UNINITIALIZED ROW_MAJOR None None
    (sim_engine (Some ten_cells_schema) [] 0)
    (sim_engine (Some ten_cells_schema) [] 0).

(** As [heap_var], with the values of the receiver and of the donor both
    of 5 bytes. *)
Definition heap_var_equal : Heap :=
  {| payload := {[ 3%positive := [Byte.x00; Byte.x00; Byte.x00; Byte.x00];
                   4%positive := [Byte.x0a; Byte.x0b; Byte.x0c; Byte.x0d;
                                  Byte.x0e];
                   5%positive := [Byte.x00; Byte.x02; Byte.x00; Byte.x03];
                   6%positive := [Byte.x1a; Byte.x1b; Byte.x1c; Byte.x1d;
                                  Byte.x1e] ]};
     sizes := {[ 3%positive := 4; 4%positive := 5;
                 5%positive := 4; 6%positive := 5 ]} |}.

(** An engine whose [read] and [write] fail. *)
Definition failing_io_engines : Engines := {|
  Reader := SimEngine;
  Writer := SimEngine;
  reader_array_schema := sim_schema;
  writer_array_schema := sim_schema;
  reader_attribute_buffers := sim_buffers;
  writer_attribute_buffers := sim_buffers;
  reader_init := λ e, (Ok, e);
  writer_init := λ e, (Ok, e);
  reader_read := λ e, (EngineError "read failed", e);
  reader_incomplete := λ e, bool_decide (sim_rounds e ≠ 0%nat);
  writer_write := λ e, (EngineError "write failed", e);
  writer_finalize := λ e, (Ok, e);
  reader_set_buffer := reader_set_buffer (sim_engines true);
  writer_set_buffer := writer_set_buffer (sim_engines true);
  reader_set_buffer_var := reader_set_buffer_var (sim_engines true);
  writer_set_buffer_var := writer_set_buffer_var (sim_engines true);
  reader_set_layout := λ e _, (Ok, e);
  writer_set_layout := λ e _, (Ok, e);
  reader_set_subarray := sim_set_subarray true;
  writer_set_subarray := sim_set_subarray true;
|}.

(** A write query in progress on it, with a callback registered. *)
Definition failing_write : Query failing_io_engines :=
  Build_Query failing_io_engines WRITE INPROGRESS ROW_MAJOR
    (Some 1%positive) None
    (sim_engine (Some ten_cells_schema) [] 0)
    (sim_engine (Some ten_cells_schema) [] 0).

(** Two fixed-length attributes that both queries hold: [a], of 40 bytes
    at 1 in the receiver and of 48 bytes at 2 in the donor; [b], of 10
    bytes at 7 in the receiver and of 12 bytes at 8 in the donor.  The
    loop over the donor meets [b] first. *)
Definition heap_a_b : Heap :=
  {| payload := {[ 1%positive := replicate 40 Byte.x00;
                   2%positive := replicate 48 Byte.x01;
                   7%positive := replicate 10 Byte.x02;
                   8%positive := replicate 12 Byte.x03 ]};
     sizes := {[ 1%positive := 40; 2%positive := 48;
                 7%positive := 10; 8%positive := 12 ]} |}.

Definition receiver_a_b : Query (sim_engines true) :=
  holder [("a", fixed_buffer 1%positive); ("b", fixed_buffer 7%positive)].
Definition donor_b_a : Query (sim_engines true) :=
  holder [("b", fixed_buffer 8%positive); ("a", fixed_buffer 2%positive)].

(** The attribute [a] of [heap_40_48] and the attribute [v] of [heap_var]
    together; the loop over the donor meets [a] first. *)
Definition heap_a_v : Heap :=
  {| payload := {[ 1%positive := replicate 40 Byte.x00;
                   2%positive := replicate 48 Byte.x01;
                   3%positive := [Byte.x00; Byte.x00; Byte.x00; Byte.x00];
                   4%positive := [Byte.x0a; Byte.x0b; Byte.x0c];
                   5%positive := [Byte.x00; Byte.x02; Byte.x00; Byte.x03];
                   6%positive := [Byte.x1a; Byte.x1b; Byte.x1c; Byte.x1d;
                                  Byte.x1e] ]};
     sizes := {[ 1%positive := 40; 2%positive := 48;
                 3%positive := 4; 4%positive := 3;
                 5%positive := 4; 6%positive := 5 ]} |}.

Definition receiver_a_v : Query (sim_engines true) :=
  holder [("a", fixed_buffer 1%positive);
          ("v", var_buffer 3%positive 4%positive)].
Definition donor_a_v : Query (sim_engines true) :=
  holder [("a", fixed_buffer 2%positive);
          ("v", var_buffer 5%positive 6%positive)].

(** The calls of the engine in a member function, one case each. *)
Ltac engine_calls :=
  repeat match goal with
         | |- context [let '(_, _) := ?x in _] => destruct x
         end.

(** [block_ok] on a concrete heap. *)
Ltac block_ok_tac :=
  eexists _, _, _, _;
  split; [reflexivity|]; split; [reflexivity|];
  split; [vm_compute; reflexivity|]; split; [vm_compute; reflexivity|];
  vm_compute; split; discriminate.

(** * Properties *)

(** ** Statuses *)

Lemma ok_true (st : Status) : ok st = true ↔ st = Ok.
Proof. destruct st; cbn; split; congruence. Qed.

Lemma ok_false (st : Status) : ok st = false ↔ st ≠ Ok.
Proof. destruct st; cbn; split; congruence. Qed.

(** ** Variable-length offsets *)

Example offsets_scenario :
  check_var_attr_offsets (Some [0; 5; 5; 8]) (Some 32) (Some 10)
  = Done (QueryError
      "Invalid offsets; offsets must be given in strictly ascending order.").
Proof. reflexivity. Qed.

Example offsets_too_large :
  check_var_attr_offsets (Some [10]) (Some 8) (Some 10)
  = Done (QueryError
      "Invalid offsets; offset 10 specified for buffer of size 10").
Proof. vm_compute. reflexivity. Qed.

Example offsets_empty val_size :
  check_var_attr_offsets (Some []) (Some 0) (Some val_size) = Done Ok.
Proof. reflexivity. Qed.

Lemma InvalidOffsets_order :
  InvalidOffsets (QueryError
    "Invalid offsets; offsets must be given in strictly ascending order.").
Proof. eexists. reflexivity. Qed.

Lemma InvalidOffsets_bound off size :
  InvalidOffsets (QueryError
    ("Invalid offsets; offset " +:+ to_string off +:+
     " specified for buffer of size " +:+ to_string size)).
Proof.
  exists ("offset " +:+ to_string off +:+
          " specified for buffer of size " +:+ to_string size).
  reflexivity.
Qed.

Lemma InvalidOffsets_not_Ok : ¬ InvalidOffsets Ok.
Proof. intros [? ?]. discriminate. Qed.

(** The loop from index [a] on, entered with [prev_offset = offsets[a-1]]. *)
Lemma check_var_attr_offsets_loop_spec (offsets : list Z) (val_size : Z) :
  ∀ (k a : nat) (prev : Z),
    (1 ≤ a)%nat → (a + k ≤ length offsets)%nat →
    offsets !! (a - 1)%nat = Some prev →
    let r := check_var_attr_offsets_loop offsets val_size prev (seq a k) in
    (r = Done Ok ∨ ∃ st, r = Done st ∧ InvalidOffsets st) ∧
    (r = Done Ok ↔
     ∀ i : nat, (a ≤ i < a + k)%nat →
       offsets !!! (i - 1)%nat < offsets !!! i ∧ offsets !!! i < val_size).
Proof.
  induction k as [|k IH]; intros a prev Ha Hlen Hprev; cbn [seq check_var_attr_offsets_loop].
  - split; [by left|]. split; [intros _ i ?; lia | done].
  - destruct (lookup_lt_is_Some_2 offsets a) as [x Hx]; [lia|].
    rewrite Hx. cbn [deref obind].
    assert (Hpt : offsets !!! (a - 1)%nat = prev)
      by (by apply list_lookup_total_correct).
    assert (Hxt : offsets !!! a = x) by (by apply list_lookup_total_correct).
    destruct (Z.leb_spec x prev) as [Hle|Hgt].
    { split; [right; eexists; split; [done|apply InvalidOffsets_order]|].
      split; [discriminate|]. intros H.
      specialize (H a ltac:(lia)). lia. }
    rewrite Z.geb_leb. destruct (Z.leb_spec val_size x) as [Hge|Hlt].
    { split; [right; eexists; split; [done|apply InvalidOffsets_bound]|].
      split; [discriminate|]. intros H.
      specialize (H a ltac:(lia)). lia. }
    destruct (IH (S a) x) as [IH1 IH2]; [lia|lia| |].
    { by replace (S a - 1)%nat with a by lia. }
    split; [exact IH1|]. rewrite IH2. split.
    + intros H i Hi. destruct (decide (i = a)) as [->|Hne]; [lia|].
      apply H. lia.
    + intros H i Hi. apply H. lia.
Qed.

(** C2. [check_var_attr_offsets] fails with NullBuffer when one of the
    three pointers is null.  Otherwise, with [n = offsets_size / 8] offsets
    in the buffer: it returns OK when [n = 0]; when [n > 0] it returns OK
    exactly if [offsets[0] < values_size] and, for every [i] in [[1, n)],
    [offsets[i] > offsets[i-1]] and [offsets[i] < values_size]; every
    other outcome is an InvalidOffsets error. *)
Theorem check_var_attr_offsets_spec :
  (∀ buffer_off off_size val_size,
     buffer_off = None ∨ off_size = None ∨ val_size = None →
     check_var_attr_offsets buffer_off off_size val_size = Done NullBuffer) ∧
  (∀ (offsets : list Z) (off_size val_size : Z),
     0 ≤ off_size → (Z.to_nat (off_size / 8) ≤ length offsets)%nat →
     let n := Z.to_nat (off_size / 8) in
     let r := check_var_attr_offsets (Some offsets) (Some off_size)
                (Some val_size) in
     (n = 0%nat → r = Done Ok) ∧
     (n ≠ 0%nat →
      (r = Done Ok ∨ ∃ st, r = Done st ∧ InvalidOffsets st) ∧
      (r = Done Ok ↔
       offsets !!! 0%nat < val_size ∧
       ∀ i : nat, (1 ≤ i < n)%nat →
         offsets !!! i > offsets !!! (i - 1)%nat ∧
         offsets !!! i < val_size))).
Proof.
  split.
  - intros [?|] [?|] [?|] [H|[H|H]]; try discriminate H; reflexivity.
  - intros offsets off_size val_size Hpos Hlen n r.
    assert (Hn : 0 ≤ off_size / 8) by (apply Z.div_pos; lia).
    subst r. unfold check_var_attr_offsets. cbv zeta.
    destruct (Z.eqb_spec (off_size / 8) 0) as [H0|H0].
    { split; [done|]. intros Hne. subst n. rewrite H0 in Hne. done. }
    split; [intros Hz; subst n; lia|]. intros _.
    destruct (lookup_lt_is_Some_2 offsets 0) as [x Hx]; [lia|].
    rewrite Hx. cbn [deref obind].
    assert (Hxt : offsets !!! 0%nat = x) by (by apply list_lookup_total_correct).
    rewrite Z.geb_leb. destruct (Z.leb_spec val_size x) as [Hge|Hlt].
    { split; [right; eexists; split; [done|apply InvalidOffsets_bound]|].
      split; [discriminate|]. intros [H _]. lia. }
    destruct (check_var_attr_offsets_loop_spec offsets val_size
                (Z.to_nat (off_size / 8) - 1) 1 x) as [L1 L2];
      [lia|lia|done|].
    split; [exact L1|]. rewrite L2. subst n. split.
    + intros H. split; [lia|]. intros i Hi.
      specialize (H i ltac:(lia)). lia.
    + intros [_ H] i Hi. specialize (H i ltac:(lia)). lia.
Qed.

Lemma check_var_attr_offsets_spec_witness :
  (0 ≤ 32 ∧ (Z.to_nat (32 / 8) ≤ length [0; 3; 5; 8])%nat) ∧
  check_var_attr_offsets (Some [0; 3; 5; 8]) (Some 32) (Some 10) = Done Ok ∧
  check_var_attr_offsets None (Some 32) (Some 10) = Done NullBuffer.
Proof.
  pose proof check_var_attr_offsets_spec as [Hnull Hspec].
  assert (H0 : 0 ≤ 32) by lia.
  assert (Hlen : (Z.to_nat (32 / 8) ≤ length [0; 3; 5; 8])%nat) by (vm_compute; lia).
  split; [done|]. split.
  - destruct (Hspec [0; 3; 5; 8] 32 10 H0 Hlen) as [_ Hpos].
    destruct Hpos as [_ Hiff]; [vm_compute; discriminate|].
    apply Hiff. split; [vm_compute; reflexivity|].
    intros i Hi. change (Z.to_nat (32 / 8)) with 4%nat in Hi.
    destruct i as [|[|[|[|i]]]]; [lia| | | |lia]; vm_compute; done.
  - apply Hnull. by left.
Defined.

(** ** Subarray validation *)

(** On the scalars of a numeric type other than NaN, [<] is the negation
    of the converse [<=]. *)
Lemma SFcompare_antisym (x y : spec_float) :
  x ≠ S754_nan → y ≠ S754_nan →
  ∃ c, SFcompare x y = Some c ∧ SFcompare y x = Some (CompOpp c).
Proof.
  intros Hx Hy.
  destruct x as [sx|sx| |sx mx ex], y as [sy|sy| |sy my ey];
    try done; cbn [SFcompare].
  all: try (destruct sx; eexists; split; reflexivity).
  all: try (destruct sy; eexists; split; reflexivity).
  all: try (destruct sx, sy; eexists; split; reflexivity).
  eexists; split; [reflexivity|].
  rewrite (Z.compare_antisym ex ey).
  change (Pos.compare_cont Eq my mx)
    with (Pos.compare_cont (CompOpp Eq) my mx).
  rewrite <- (Pos.compare_cont_antisym mx my Eq).
  destruct sx, sy; cbn [CompOpp]; try reflexivity;
    destruct (ex ?= ey)%Z; cbn [CompOpp]; try reflexivity;
    by rewrite ?CompOpp_involutive.
Qed.

Lemma float_type_total prec emax (x y : carrier (float_type prec emax)) :
  is_nan (float_type prec emax) x = false →
  is_nan (float_type prec emax) y = false →
  lt (float_type prec emax) x y = negb (le (float_type prec emax) y x).
Proof.
  cbn. intros Hx Hy.
  destruct (SFcompare_antisym x y) as [c [Hxy Hyx]];
    [by destruct x|by destruct y|].
  unfold SFltb, SFleb. rewrite Hxy, Hyx. by destruct c.
Qed.

Lemma numeric_type_total t T (x y : carrier T) :
  numeric_type t = Some T →
  is_nan T x = false → is_nan T y = false →
  lt T x y = negb (le T y x).
Proof.
  intros Ht. destruct t; simplify_eq/=;
    try (intros _ _; apply Z.ltb_antisym);
    first [apply (float_type_total 24 128) | apply (float_type_total 53 1024)].
Qed.

(** The switch of [check_subarray_bounds] on a numeric domain type. *)
Lemma check_subarray_bounds_numeric (E : Engines) NDEBUG (q : Query E)
    schema T sub :
  array_schema q = Some schema →
  numeric_type (dom_type (domain schema)) = Some T →
  check_subarray_bounds NDEBUG q (Some sub) = check_subarray_bounds_T T q sub.
Proof.
  intros Hs Ht. unfold check_subarray_bounds. rewrite Hs.
  destruct (dom_type (domain schema)); by simplify_eq/=.
Qed.

(** One turn of the loop, on a dimension with its domain set and a range
    inside the subarray. *)
Lemma check_subarray_bounds_loop_step T dom (s : list (carrier T)) i rest d r :
  dim_bounds T dom i = Some d → range T s i = Some r →
  check_subarray_bounds_loop T dom s (i :: rest) =
    if lt T r.1 d.1 then Done SubarrayOutOfBounds
    else if lt T d.2 r.2 then Done SubarrayOutOfBounds
    else if lt T r.2 r.1 then Done InvalidSubarrayRange
    else check_subarray_bounds_loop T dom s rest.
Proof.
  unfold dim_bounds, range. intros Hd Hr.
  cbn [check_subarray_bounds_loop].
  destruct (dimension dom i) as [dim|]; [|done].
  cbn [mbind option_bind deref obind] in Hd |- *.
  destruct (dim_domain_ dim) as [raw|]; [|done].
  cbn [mbind option_bind deref obind] in Hd |- *.
  destruct (view T raw) as [l|]; [|done].
  cbn [mbind option_bind deref obind] in Hd |- *.
  destruct (s !! (2 * i)%nat) as [lo|]; [|done].
  cbn [mbind option_bind deref obind] in Hr |- *.
  destruct (s !! (2 * i + 1)%nat) as [hi|]; [|done].
  cbn [mbind option_bind deref obind] in Hr |- *.
  destruct (l !! 0%nat) as [d0|]; [|done].
  cbn [mbind option_bind deref obind] in Hd |- *.
  destruct (l !! 1%nat) as [d1|]; [|done].
  cbn [mbind option_bind deref obind] in Hd |- *.
  by simplify_eq/=.
Qed.

Lemma range_defined T (s : list (carrier T)) (n i : nat) :
  length s = (2 * n)%nat → (i < n)%nat →
  Forall (λ x, is_nan T x = false) s →
  ∃ r, range T s i = Some r ∧ is_nan T r.1 = false ∧ is_nan T r.2 = false.
Proof.
  intros Hlen Hi Hnan. unfold range.
  destruct (lookup_lt_is_Some_2 s (2 * i)) as [lo Hlo]; [lia|].
  destruct (lookup_lt_is_Some_2 s (2 * i + 1)) as [hi Hhi]; [lia|].
  rewrite Hlo, Hhi. exists (lo, hi). split; [done|].
  rewrite Forall_lookup in Hnan. split; eapply Hnan; eassumption.
Qed.

Section LoopOverDimensions.

Context (T : NumType) (dom : Domain) (s : list (carrier T)).

Hypothesis total : ∀ x y : carrier T,
  is_nan T x = false → is_nan T y = false → lt T x y = negb (le T y x).

Lemma check_subarray_bounds_loop_spec :
  ∀ (k a : nat),
    (∀ i, (a ≤ i < a + k)%nat → defined_at T dom s i) →
    let res := check_subarray_bounds_loop T dom s (seq a k) in
    (res = Done Ok ∨ res = Done SubarrayOutOfBounds ∨
     res = Done InvalidSubarrayRange) ∧
    (res = Done Ok ↔ ∀ i, (a ≤ i < a + k)%nat → ok_at T dom s i) ∧
    (∀ i d r, (a ≤ i < a + k)%nat →
       dim_bounds T dom i = Some d → range T s i = Some r →
       (∀ j, (a ≤ j < i)%nat → ok_at T dom s j) →
       (outside T d r → res = Done SubarrayOutOfBounds) ∧
       (within T d r → empty_range T r → res = Done InvalidSubarrayRange)).
Proof.
  induction k as [|k IH]; intros a Hdef; cbn [seq].
  - cbn. split; [by left|]. split; [|intros; lia].
    split; [intros _ i ?; lia|done].
  - destruct (Hdef a ltac:(lia)) as (d & r & Hd & Hr & Nd1 & Nd2 & Nr1 & Nr2).
    rewrite (check_subarray_bounds_loop_step _ _ _ _ _ _ _ Hd Hr).
    rewrite (total r.1 d.1), (total d.2 r.2), (total r.2 r.1) by done.
    destruct (IH (S a)) as (IH1 & IH2 & IH3); [intros; apply Hdef; lia|].
    assert (Hhere : ok_at T dom s a ↔
      le T d.1 r.1 = true ∧ le T r.2 d.2 = true ∧ le T r.1 r.2 = true).
    { unfold ok_at, range_ok, within. split.
      - intros H. by destruct (H d r Hd Hr) as [[? ?] ?].
      - intros (? & ? & ?) d' r' Hd' Hr'. by simplify_eq. }
    assert (Hfirst : ∀ i d' r', (a ≤ i < a + S k)%nat →
      dim_bounds T dom i = Some d' → range T s i = Some r' →
      (∀ j, (a ≤ j < i)%nat → ok_at T dom s j) →
      i = a ∧ d' = d ∧ r' = r ∨ (S a ≤ i < S a + k)%nat ∧ ok_at T dom s a).
    { intros i d' r' Hi Hd' Hr' Hbefore.
      destruct (decide (i = a)) as [->|Hne].
      - left. by simplify_eq.
      - right. split; [lia|]. apply Hbefore. lia. }
    destruct (le T d.1 r.1) eqn:B1; cbn [negb].
    2:{ split; [by right; left|]. split.
        - split; [discriminate|]. intros H.
          apply Hhere in H; [|lia]. intuition congruence.
        - intros i d' r' Hi Hd' Hr' Hbefore.
          destruct (Hfirst i d' r' Hi Hd' Hr' Hbefore)
            as [(-> & -> & ->)|[_ Hok]].
          + split; [done|]. unfold within. rewrite B1. intuition congruence.
          + apply Hhere in Hok. intuition congruence. }
    destruct (le T r.2 d.2) eqn:B2; cbn [negb].
    2:{ split; [by right; left|]. split.
        - split; [discriminate|]. intros H.
          apply Hhere in H; [|lia]. intuition congruence.
        - intros i d' r' Hi Hd' Hr' Hbefore.
          destruct (Hfirst i d' r' Hi Hd' Hr' Hbefore)
            as [(-> & -> & ->)|[_ Hok]].
          + split; [done|]. unfold within. rewrite B2. intuition congruence.
          + apply Hhere in Hok. intuition congruence. }
    destruct (le T r.1 r.2) eqn:B3; cbn [negb].
    2:{ split; [by right; right|]. split.
        - split; [discriminate|]. intros H.
          apply Hhere in H; [|lia]. intuition congruence.
        - intros i d' r' Hi Hd' Hr' Hbefore.
          destruct (Hfirst i d' r' Hi Hd' Hr' Hbefore)
            as [(-> & -> & ->)|[_ Hok]].
          + split; [|done]. unfold outside.
            rewrite (total r.1 d.1), (total d.2 r.2), B1, B2 by done.
            cbn [negb]; intuition (discriminate || congruence).
          + apply Hhere in Hok. intuition congruence. }
    split; [exact IH1|]. split.
    + rewrite IH2. split.
      * intros H i Hi. destruct (decide (i = a)) as [->|Hne].
        -- by apply Hhere.
        -- apply H. lia.
      * intros H i Hi. apply H. lia.
    + intros i d' r' Hi Hd' Hr' Hbefore.
      destruct (Hfirst i d' r' Hi Hd' Hr' Hbefore)
        as [(-> & -> & ->)|[Hi' _]].
      * unfold outside, empty_range.
        rewrite (total r.1 d.1), (total d.2 r.2), (total r.2 r.1), B1, B2, B3
          by done.
        cbn [negb]; intuition (discriminate || congruence).
      * apply (IH3 i d' r' Hi' Hd' Hr'). intros j Hj. apply Hbefore. lia.
Qed.

End LoopOverDimensions.

Example subarray_whole_domain :
  check_subarray_bounds false (fresh_write ten_cells_schema)
    (Some (IntArr [0; 9])) = Done Ok.
Proof. reflexivity. Qed.

Example subarray_single_point :
  check_subarray_bounds false (fresh_write ten_cells_schema)
    (Some (IntArr [4; 4])) = Done Ok.
Proof. reflexivity. Qed.

Example subarray_empty_range :
  check_subarray_bounds false (fresh_write ten_cells_schema)
    (Some (IntArr [5; 3])) = Done InvalidSubarrayRange.
Proof. reflexivity. Qed.

Example subarray_float_out_of_bounds :
  check_subarray_bounds false (fresh_write unit_interval_schema)
    (Some (FloatArr [d_half; d_one_and_half])) = Done SubarrayOutOfBounds.
Proof. reflexivity. Qed.

(** The error is that of the first dimension, in index order, that breaks
    a requirement: here range 0 is empty inside its domain and range 1
    leaves its domain. *)
Example subarray_first_dimension_decides :
  check_subarray_bounds false (fresh_write grid_schema)
    (Some (IntArr [5; 3; 0; 20])) = Done InvalidSubarrayRange.
Proof. reflexivity. Qed.




(** C5 (as stated, refuted). On a [CHAR] domain no QueryError comes back
    for a non-null subarray: with assertions enabled the call stops at
    [assert(false)], and compiled with [NDEBUG] it returns OK. *)
Lemma check_subarray_bounds_char_no_error :
  (¬ ∃ msg, check_subarray_bounds false (fresh_write char_schema)
              (Some (IntArr [0; 1])) = Done (QueryError msg)) ∧
  check_subarray_bounds true (fresh_write char_schema)
    (Some (IntArr [0; 1])) = Done Ok.
Proof. split; [intros [msg H]; discriminate H|reflexivity]. Qed.

(** C5 (amended). On a non-numeric domain type, [check_subarray_bounds] on
    a non-null subarray reaches [assert(false)]: with assertions enabled
    the call stops the program there, and in no build does it return a
    QueryError. *)
Theorem check_subarray_bounds_non_numeric (E : Engines) (NDEBUG : bool)
    (q : Query E) (schema : ArraySchema) (sub : Buffer) :
  array_schema q = Some schema →
  numeric_type (dom_type (domain schema)) = None →
  (NDEBUG = false →
   check_subarray_bounds NDEBUG q (Some sub) = AssertionFailed) ∧
  (∀ msg, check_subarray_bounds NDEBUG q (Some sub) ≠ Done (QueryError msg)).
Proof.
  intros Hschema Ht. unfold check_subarray_bounds. rewrite Hschema.
  destruct (dom_type (domain schema)); try discriminate Ht;
    unfold assert_false; destruct NDEBUG; cbn [obind]; split; done.
Qed.

Lemma check_subarray_bounds_non_numeric_witness :
  (array_schema (fresh_write char_schema) = Some char_schema ∧
   numeric_type (dom_type (domain char_schema)) = None) ∧
  check_subarray_bounds false (fresh_write char_schema)
    (Some (IntArr [0; 1])) = AssertionFailed.
Proof.
  split; [by split|].
  by apply (check_subarray_bounds_non_numeric (sim_engines true) false
              (fresh_write char_schema) char_schema (IntArr [0; 1])
              eq_refl eq_refl).
Defined.

(** ** The status life cycle *)

(** [set_subarray] returns whenever the bounds check does. *)
Lemma set_subarray_returns (E : Engines) NDEBUG (q : Query E) sub st :
  check_subarray_bounds NDEBUG q sub = Done st →
  ∃ st' q', set_subarray NDEBUG q sub = Done (st', q').
Proof.
  intros H. unfold set_subarray. rewrite H. cbn [obind].
  destruct (ok st); cbn [negb]; [|by eauto].
  destruct (type_ q);
    [destruct (reader_set_subarray E (reader_ q) sub) as [st1 r]
    |destruct (writer_set_subarray E (writer_ q) sub) as [st1 w]];
    destruct (ok st1); cbn [negb]; eauto.
Qed.

(** A successful [set_subarray] ends with the assignment of
    UNINITIALIZED. *)
Lemma set_subarray_Ok_resets (E : Engines) NDEBUG (q : Query E) sub q' :
  set_subarray NDEBUG q sub = Done (Ok, q') → status q' = UNINITIALIZED.
Proof.
  unfold set_subarray.
  destruct (check_subarray_bounds NDEBUG q sub) as [st0| |];
    cbn [obind]; [|done..].
  destruct (ok st0) eqn:Hok0; cbn [negb];
    [|intros H; by simplify_eq/=].
  destruct (type_ q);
    [destruct (reader_set_subarray E (reader_ q) sub) as [st1 r]
    |destruct (writer_set_subarray E (writer_ q) sub) as [st1 w]];
    destruct (ok st1) eqn:Hok1; cbn [negb]; intros H; by simplify_eq/=.
Qed.

(** C3. [set_subarray] returns whenever the bounds validation does.  A
    failed validation is returned at once: the Status is the error of the
    validation and the Query is untouched.  When the validation passes,
    the Status is the one of the engine the type selects: its rejection is
    returned.  If [set_subarray] succeeds, the status afterwards is
    UNINITIALIZED, whatever it was before; if it fails, the status is
    unchanged, and the error is the one of the validation or, the
    validation passed, the one of the engine. *)
Theorem set_subarray_status (E : Engines) (NDEBUG : bool) (q : Query E)
    (sub : option Buffer) :
  (∀ st0, check_subarray_bounds NDEBUG q sub = Done st0 →
     ∃ st q',
       set_subarray NDEBUG q sub = Done (st, q') ∧
       (st0 ≠ Ok → st = st0 ∧ q' = q) ∧
       (st0 = Ok → st = engine_subarray_status q sub)) ∧
  (∀ st q', set_subarray NDEBUG q sub = Done (st, q') →
     (st = Ok →
      status q' = UNINITIALIZED ∧
      check_subarray_bounds NDEBUG q sub = Done Ok ∧
      engine_subarray_status q sub = Ok) ∧
     (st ≠ Ok →
      status q' = status q ∧
      (check_subarray_bounds NDEBUG q sub = Done st ∧ q' = q ∨
       check_subarray_bounds NDEBUG q sub = Done Ok ∧
       st = engine_subarray_status q sub))).
Proof.
  unfold set_subarray, engine_subarray_status, type, status.
  destruct (check_subarray_bounds NDEBUG q sub) as [st0| |];
    cbn [obind]; [|by split..].
  destruct (ok st0) eqn:Hok0; cbn [negb].
  - apply ok_true in Hok0 as ->.
    destruct (type_ q);
      [destruct (reader_set_subarray E (reader_ q) sub) as [st1 r]
      |destruct (writer_set_subarray E (writer_ q) sub) as [st1 w]];
      cbn [fst]; destruct (ok st1) eqn:Hok1; cbn [negb];
      try apply ok_true in Hok1 as ->; try apply ok_false in Hok1.
    all: split.
    all: try (intros st0 [= <-]; eexists _, _; split; [reflexivity|];
              split; [by intros []|done]).
    all: intros st q' [= <- <-]; split; intros Hst; try done.
    all: try (by repeat split).
    all: split; [reflexivity|by right].
  - apply ok_false in Hok0. split.
    + intros st [= <-]. exists st0, q. by repeat split.
    + intros st q' [= <- <-]. split; [done|]. intros _.
      split; [reflexivity|by left].
Qed.

Lemma set_subarray_status_witness :
  check_subarray_bounds false (rejecting COMPLETED) (Some (IntArr [2; 7]))
  = Done Ok ∧
  ∃ q', set_subarray false (rejecting COMPLETED) (Some (IntArr [2; 7]))
        = Done (EngineError "subarray rejected", q') ∧
        status q' = COMPLETED.
Proof.
  assert (Hcheck : check_subarray_bounds false (rejecting COMPLETED)
                     (Some (IntArr [2; 7])) = Done Ok) by reflexivity.
  split; [exact Hcheck|].
  destruct (set_subarray_status (sim_engines false) false
              (rejecting COMPLETED) (Some (IntArr [2; 7]))) as [Hret Hst].
  destruct (Hret Ok Hcheck) as (st & q' & Hrun & _ & Heng).
  exists q'. rewrite (Heng eq_refl) in Hrun. split; [exact Hrun|].
  destruct (Hst _ _ Hrun) as [_ Hfail].
  destruct Hfail as [Hs _]; [discriminate|]. exact Hs.
Defined.

Example set_subarray_out_of_bounds_keeps_status :
  set_subarray false
    (sim_query true WRITE INPROGRESS (sim_engine (Some unit_interval_schema) [] 0))
    (Some (FloatArr [d_half; d_one_and_half]))
  = Done (SubarrayOutOfBounds,
          sim_query true WRITE INPROGRESS
            (sim_engine (Some unit_interval_schema) [] 0)).
Proof. reflexivity. Qed.

Example set_subarray_engine_rejection_keeps_status :
  set_subarray false
    (sim_query false READ INCOMPLETE (sim_engine (Some ten_cells_schema) [] 0))
    (Some (IntArr [2; 7]))
  = Done (EngineError "subarray rejected",
          sim_query false READ INCOMPLETE
            (sim_engine (Some ten_cells_schema) [] 0)).
Proof. reflexivity. Qed.

(** The outcomes of [process] on a Query that is not UNINITIALIZED, by the
    answer of the engine. *)
Lemma process_cases (E : Engines) (q : Query E) st q' events :
  process q = (st, q', events) →
  status q = UNINITIALIZED ∧ st = NotInitialized ∧ q' = q ∧ events = [] ∨
  status q ≠ UNINITIALIZED ∧
  (st ≠ Ok ∧ status q' = FAILED ∧ events = [] ∨
   st = Ok ∧ status q' = INCOMPLETE ∧ events = [] ∧
     type q = READ ∧ reader_incomplete E (reader_ q') = true ∨
   st = Ok ∧ status q' = COMPLETED ∧
     (type q = WRITE ∨ reader_incomplete E (reader_ q') = false) ∧
     events = match callback_ q with
              | Some callback =>
                  [CallbackInvoked callback (callback_data_ q) INPROGRESS]
              | None => []
              end).
Proof.
  unfold process, status, type.
  destruct (decide (status_ q = UNINITIALIZED)) as [Hu|Hu].
  { intros [= <- <- <-]. by left. }
  intros H. right. split; [done|]. revert H.
  cbn [with_status type_ reader_ writer_].
  destruct (type_ q) eqn:Ht.
  - destruct (reader_read E (reader_ q)) as [st1 r].
    destruct (ok st1) eqn:Hok; cbn; rewrite ?Ht.
    + destruct (reader_incomplete E r) eqn:Hinc; cbn;
        intros [= <- <- <-]; cbn; [right; left|right; right]; by eauto.
    + intros [= <- <- <-]. left. apply ok_false in Hok. by cbn.
  - destruct (writer_write E (writer_ q)) as [st1 w].
    destruct (ok st1) eqn:Hok; cbn; rewrite ?Ht.
    + intros [= <- <- <-]. right; right. cbn. by eauto.
    + intros [= <- <- <-]. left. apply ok_false in Hok. by cbn.
Qed.

(** C9. When [process] returns, the status is not INPROGRESS.  It is still
    UNINITIALIZED when the call was refused with NotInitialized.
    Otherwise the engine the type selects is run: when it returns an
    error, [process] returns this error and the status is FAILED; when it
    returns OK, [process] returns OK and the status is COMPLETED or
    INCOMPLETE (COMPLETED exactly for a WRITE, and for a READ whose reader
    is not incomplete).  So an error of [process] on an initialised Query
    leaves FAILED, and OK leaves COMPLETED or INCOMPLETE. *)
Theorem process_final_status (E : Engines) (q : Query E) (st : Status)
    (q' : Query E) (events : list Event) :
  process q = (st, q', events) →
  status q' ≠ INPROGRESS ∧
  (status q = UNINITIALIZED →
   st = NotInitialized ∧ status q' = UNINITIALIZED) ∧
  (status q ≠ UNINITIALIZED → engine_process_status q ≠ Ok →
   st = engine_process_status q ∧ status q' = FAILED) ∧
  (status q ≠ UNINITIALIZED → engine_process_status q = Ok →
   st = Ok ∧ (status q' = COMPLETED ∨ status q' = INCOMPLETE) ∧
   (status q' = COMPLETED ↔
    type q = WRITE ∨ reader_incomplete E (reader_ q') = false)) ∧
  (status q ≠ UNINITIALIZED → st ≠ Ok → status q' = FAILED) ∧
  (st = Ok → status q' = COMPLETED ∨ status q' = INCOMPLETE).
Proof.
  unfold process, engine_process_status, status, type.
  destruct (decide (status_ q = UNINITIALIZED)) as [Hu|Hu].
  { intros [= <- <- <-]. rewrite Hu. by repeat split. }
  cbn [with_status type_ reader_ writer_].
  destruct (type_ q) eqn:Ht;
    [destruct (reader_read E (reader_ q)) as [st1 r]
    |destruct (writer_write E (writer_ q)) as [st1 w]];
    cbn [fst]; destruct (ok st1) eqn:Hok; cbn; rewrite ?Ht;
    try apply ok_true in Hok as ->; try apply ok_false in Hok.
  - destruct (reader_incomplete E r) eqn:Hinc; cbn;
      intros [= <- <- <-]; cbn; rewrite ?Hinc;
      repeat split; try done; intros; try done; auto;
      try (by right); try (by left); intuition congruence.
  - intros [= <- <- <-]; cbn.
    repeat split; try done; intros; done.
  - intros [= <- <- <-]; cbn.
    repeat split; try done; intros; try done; auto.
  - intros [= <- <- <-]; cbn.
    repeat split; try done; intros; done.
Qed.

Lemma process_final_status_witness :
  process failing_write
  = (EngineError "write failed", with_status failing_write FAILED, []) ∧
  engine_process_status failing_write = EngineError "write failed" ∧
  status (with_status failing_write FAILED) = FAILED.
Proof.
  assert (H : process failing_write
              = (EngineError "write failed", with_status failing_write FAILED,
                 [])) by reflexivity.
  split; [exact H|]. split; [reflexivity|].
  destruct (process_final_status _ _ _ _ _ H) as (_ & _ & Herr & _).
  destruct Herr as [_ Hs]; [discriminate|discriminate|exact Hs].
Defined.

Example process_uninitialized :
  process (fresh_write ten_cells_schema)
  = (NotInitialized, fresh_write ten_cells_schema, []).
Proof. reflexivity. Qed.

(** C7. A call of [process] that completes successfully (it returns OK
    and leaves the status COMPLETED: always so for WRITE once the engine
    succeeded, and for READ when the reader is not incomplete) invokes a
    registered callback exactly once, at a moment when the status the
    Query shows is still INPROGRESS; a call that ends INCOMPLETE or FAILED,
    or is refused, invokes no callback. *)
Theorem process_callback (E : Engines) (q : Query E) (st : Status)
    (q' : Query E) (events : list Event) :
  process q = (st, q', events) →
  (st = Ok → status q' = COMPLETED →
   events = match callback_ q with
            | Some callback =>
                [CallbackInvoked callback (callback_data_ q) INPROGRESS]
            | None => []
            end) ∧
  (st ≠ Ok ∨ status q' ≠ COMPLETED → events = []) ∧
  (st = Ok → type q = WRITE → status q' = COMPLETED) ∧
  (st = Ok → type q = READ →
   (status q' = COMPLETED ↔ reader_incomplete E (reader_ q') = false)).
Proof.
  intros H. apply process_cases in H.
  destruct H as [(Hu & -> & -> & ->)
                |(Hu & [(Hst & Hs & ->)
                       |[(-> & Hs & -> & Ht & Hinc)
                        |(-> & Hs & Hc & ->)]])];
    unfold status, type in *; rewrite ?Hs;
    repeat split; intros; try done; try congruence;
    intuition congruence.
Qed.

Lemma process_callback_witness :
  process (reading 1)
  = (Ok, with_status (with_reader (reading 1)
                        (sim_engine (Some ten_cells_schema) [] 0)) COMPLETED,
     [CallbackInvoked 1%positive None INPROGRESS]) ∧
  [CallbackInvoked 1%positive None INPROGRESS]
  = match callback_ (reading 1) with
    | Some callback =>
        [CallbackInvoked callback (callback_data_ (reading 1)) INPROGRESS]
    | None => []
    end.
Proof.
  assert (H : process (reading 1)
    = (Ok, with_status (with_reader (reading 1)
                          (sim_engine (Some ten_cells_schema) [] 0)) COMPLETED,
       [CallbackInvoked 1%positive None INPROGRESS])) by reflexivity.
  split; [exact H|].
  by apply (process_callback _ _ _ _ _ H).
Defined.

(** Twenty reads drain a reader that needs twenty rounds: the callback is
    invoked in the last call only. *)
Example read_incomplete_then_complete :
  status (process_rounds 19 (reading 20)).1 = INCOMPLETE ∧
  (process_rounds 19 (reading 20)).2 = [] ∧
  status (process_rounds 20 (reading 20)).1 = COMPLETED ∧
  (process_rounds 20 (reading 20)).2
  = [CallbackInvoked 1%positive None INPROGRESS].
Proof. vm_compute. done. Qed.

(** C4 (as stated, refuted). A write query that was cancelled after
    [init] has status FAILED; [process] then runs the writer and leaves the
    status COMPLETED, and [finalize] finalizes the writer and leaves the
    status COMPLETED: neither is a no-op and neither keeps FAILED. *)
Lemma cancelled_query_is_processed :
  status cancelled_write = FAILED ∧
  (process cancelled_write).1.1 = Ok ∧
  status (process cancelled_write).1.2 = COMPLETED ∧
  (finalize cancelled_write).1 = Ok ∧
  status (finalize cancelled_write).2 = COMPLETED.
Proof. by repeat split. Qed.

(** C4 (amended). On a Query whose status is FAILED, [process] does what
    it does on a Query in progress: it runs the engine, and either returns
    the error of the engine with the status FAILED, or returns OK with the
    status COMPLETED or INCOMPLETE; [finalize] runs the finalization of
    the writer, and either returns its error with the status still FAILED,
    or returns OK with the status COMPLETED.  Neither call returns OK with
    the status FAILED. *)
Theorem failed_query_process_finalize (E : Engines) (q : Query E) :
  status q = FAILED →
  process q = process (with_status q INPROGRESS) ∧
  (∀ st q' events, process q = (st, q', events) →
     st ≠ Ok ∧ status q' = FAILED ∨
     st = Ok ∧ (status q' = COMPLETED ∨ status q' = INCOMPLETE)) ∧
  (∀ st q', finalize q = (st, q') →
     st ≠ Ok ∧ st = (writer_finalize E (writer_ q)).1 ∧ status q' = FAILED ∨
     st = Ok ∧ (writer_finalize E (writer_ q)).1 = Ok ∧
       status q' = COMPLETED).
Proof.
  unfold status. intros Hf. split; [|split].
  - unfold process. cbn [with_status status_].
    rewrite Hf. by repeat case_decide.
  - intros st q' events H. apply process_cases in H.
    unfold status in H.
    destruct H as [(Hu & _)|(_ & [(? & ? & _)|[(? & ? & _)|(? & ? & _)]])];
      [congruence|auto..].
  - intros st q'. unfold finalize. rewrite Hf.
    destruct (decide (FAILED = UNINITIALIZED)) as [?|_]; [done|].
    destruct (writer_finalize E (writer_ q)) as [st1 w].
    destruct (ok st1) eqn:Hok; cbn [negb fst]; intros [= <- <-].
    + right. apply ok_true in Hok. by cbn.
    + left. apply ok_false in Hok. by cbn.
Qed.

Lemma failed_query_process_finalize_witness :
  status cancelled_write = FAILED ∧
  process cancelled_write = process (with_status cancelled_write INPROGRESS).
Proof.
  split; [reflexivity|].
  by apply (failed_query_process_finalize (sim_engines true) cancelled_write
              eq_refl).
Defined.

Example cancel_twice :
  status (cancel (cancel (fresh_write ten_cells_schema)).2).2 = FAILED.
Proof. reflexivity. Qed.

Example finalize_uninitialized :
  finalize (fresh_write ten_cells_schema)
  = (Ok, fresh_write ten_cells_schema).
Proof. reflexivity. Qed.

Example write_fixed_attribute :
  status (finalize (process (init (fresh_write ten_cells_schema)).2).1.2).2
  = COMPLETED.
Proof. reflexivity. Qed.

(** ** The buffer copy *)

Lemma load_size_Some h c n :
  sizes h !! c = Some n → load_size h (Some c) = Done n.
Proof. intros H. unfold load_size. cbn. by rewrite H. Qed.

Lemma memcpy_Done h d s to from n :
  payload h !! d = Some to → payload h !! s = Some from →
  0 ≤ n ≤ Z.of_nat (length to) → n ≤ Z.of_nat (length from) → d ≠ s →
  memcpy (Some d) (Some s) n h
  = Done {| payload := <[d := take (Z.to_nat n) from ++ drop (Z.to_nat n) to]>
                         (payload h);
            sizes := sizes h |}.
Proof.
  intros Hd Hs Hn1 Hn2 Hne. unfold memcpy. cbn. rewrite Hd, Hs. cbn.
  rewrite decide_True; [done|]. split; [done|]. split; [done|]. by left.
Qed.

Lemma free_payload_Done h l bytes :
  payload h !! l = Some bytes →
  free_payload (Some l) h
  = Done {| payload := delete l (payload h); sizes := sizes h |}.
Proof. intros H. unfold free_payload. by rewrite H. Qed.

Lemma free_size_Done h c n :
  sizes h !! c = Some n →
  free_size (Some c) h
  = Done {| payload := payload h; sizes := delete c (sizes h) |}.
Proof. intros H. unfold free_size. by rewrite H. Qed.

Lemma elem_of_non_null (l : list ptr) (x : loc) :
  Some x ∈ l → x ∈ non_null l.
Proof. intros H. apply list_elem_of_omap. by exists (Some x). Qed.

Lemma NoDup_non_null_lookup (l : list ptr) (i j : nat) (x : loc) :
  NoDup (non_null l) →
  l !! i = Some (Some x) → l !! j = Some (Some x) → i = j.
Proof.
  revert i j. induction l as [|[y|] l IH]; intros i j; cbn; [done| |].
  - rewrite NoDup_cons. intros [Hy ND] Hi Hj.
    destruct i as [|i], j as [|j]; cbn in Hi, Hj; simplify_eq; [done|..].
    + exfalso. apply Hy, elem_of_non_null. by eapply list_elem_of_lookup_2.
    + exfalso. apply Hy, elem_of_non_null. by eapply list_elem_of_lookup_2.
    + f_equal. by apply IH.
  - intros ND Hi Hj.
    destruct i as [|i], j as [|j]; cbn in Hi, Hj; simplify_eq.
    f_equal. by apply IH.
Qed.

Lemma copy_existing_spec h (eb db : AttributeBuffer) :
  pair_ok h (eb, db) →
  NoDup (payload_locs (eb, db)) → NoDup (size_locs (eb, db)) →
  ∃ st h',
    copy_existing eb db h = Done (st, h') ∧
    agree_off (payload_locs (eb, db)) (size_locs (eb, db)) h h' ∧
    (st = Ok ↔ sizes_agree h (eb, db)) ∧
    (¬ fixed_agree h (eb, db) →
     h' = h ∧
     ∀ es ds, size_of h (buffer_size_ eb) = Some es →
              size_of h (buffer_size_ db) = Some ds →
              st = buffer_mismatch es ds) ∧
    (fixed_agree h (eb, db) → ¬ sizes_agree h (eb, db) →
     (∀ evs dvs, size_of h (buffer_var_size_ eb) = Some evs →
                 size_of h (buffer_var_size_ db) = Some dvs →
                 st = buffer_var_mismatch evs dvs) ∧
     (∀ n to from, size_of h (buffer_size_ db) = Some n →
                  bytes_of h (buffer_ eb) = Some to →
                  bytes_of h (buffer_ db) = Some from →
                  bytes_of h' (buffer_ eb)
                  = Some (take (Z.to_nat n) from ++ drop (Z.to_nat n) to)) ∧
     bytes_of h' (buffer_var_ eb) = bytes_of h (buffer_var_ eb)).
Proof.
  intros (Be & Bd & Bv) NDp NDs.
  destruct Be as (l1 & c1 & to & es & Hl1 & Hc1 & Hto & Hes & Hcap1).
  destruct Bd as (l2 & c2 & from & ds & Hl2 & Hc2 & Hfrom & Hds & Hcap2).
  cbn [fst snd] in *.
  set (PL := [buffer_ eb; buffer_var_ eb; buffer_ db; buffer_var_ db]).
  set (SL := [buffer_size_ eb; buffer_var_size_ eb;
              buffer_size_ db; buffer_var_size_ db]).
  assert (P0 : PL !! 0%nat = Some (Some l1)) by (by cbn; rewrite Hl1).
  assert (P2 : PL !! 2%nat = Some (Some l2)) by (by cbn; rewrite Hl2).
  assert (S0 : SL !! 0%nat = Some (Some c1)) by (by cbn; rewrite Hc1).
  assert (S2 : SL !! 2%nat = Some (Some c2)) by (by cbn; rewrite Hc2).
  assert (Pdiff : ∀ i j x y, PL !! i = Some (Some x) → PL !! j = Some (Some y) →
                             i ≠ j → x ≠ y).
  { intros i j x y Hi Hj Hij ->. apply Hij.
    by apply (NoDup_non_null_lookup PL i j y NDp). }
  assert (Sdiff : ∀ i j x y, SL !! i = Some (Some x) → SL !! j = Some (Some y) →
                             i ≠ j → x ≠ y).
  { intros i j x y Hi Hj Hij ->. apply Hij.
    by apply (NoDup_non_null_lookup SL i j y NDs). }
  assert (Pin : ∀ i x, PL !! i = Some (Some x) → x ∈ payload_locs (eb, db)).
  { intros i x Hi. apply elem_of_non_null. by eapply list_elem_of_lookup_2. }
  assert (Sin : ∀ i x, SL !! i = Some (Some x) → x ∈ size_locs (eb, db)).
  { intros i x Hi. apply elem_of_non_null. by eapply list_elem_of_lookup_2. }
  assert (Hne12 : l1 ≠ l2) by (by apply (Pdiff 0%nat 2%nat)).
  unfold copy_existing, sizes_agree, fixed_agree, size_of, bytes_of.
  cbn [fst snd]. rewrite Hl1, Hc1, Hl2, Hc2. cbn [mbind option_bind].
  rewrite (load_size_Some _ _ _ Hes), (load_size_Some _ _ _ Hds).
  cbn [obind]. rewrite Hes, Hds.
  destruct (decide (es ≠ ds)) as [Hne|Heq].
  { eexists _, _. split; [reflexivity|].
    split; [by split|].
    split; [split; [discriminate|intros [? _]; congruence]|].
    split; [intros _; split; [done|congruence]|].
    intros ?; congruence. }
  apply dec_stable in Heq. subst ds.
  rewrite (memcpy_Done h l1 l2 to from es) by (done || lia).
  cbn [obind].
  erewrite free_payload_Done
    by (cbn [payload]; rewrite lookup_insert_ne by done; exact Hfrom).
  cbn [obind payload sizes].
  erewrite free_size_Done by (cbn [sizes]; exact Hds).
  cbn [obind payload sizes].
  destruct (buffer_var_ db) as [l4|] eqn:Hl4.
  2:{ eexists _, _. split; [reflexivity|]. split.
      { split; cbn [payload sizes]; intros x Hx.
        - rewrite lookup_delete_ne, lookup_insert_ne; [done|..];
            intros ->; apply Hx; eauto.
        - rewrite lookup_delete_ne; [done|].
          intros ->; apply Hx; eauto. }
      split; [split; [intros _; split; [done|by intros [? ?]]|done]|].
      split; [done|]. intros _ Hn. destruct Hn. split; [done|].
      by intros [? ?]. }
  destruct Bv as [Bev Bdv]; [by eauto|].
  destruct Bev as (l3 & c3 & to' & evs & Hl3 & Hc3 & Hto' & Hevs & Hcap3).
  destruct Bdv as (l4' & c4 & from' & dvs & Hl4' & Hc4 & Hfrom' & Hdvs & Hcap4).
  simplify_eq.
  assert (P1 : PL !! 1%nat = Some (Some l3)) by (by cbn; rewrite Hl3).
  assert (P3 : PL !! 3%nat = Some (Some l4')) by (by cbn; rewrite ?Hl4).
  assert (S1 : SL !! 1%nat = Some (Some c3)) by (by cbn; rewrite Hc3).
  assert (S3 : SL !! 3%nat = Some (Some c4)) by (by cbn; rewrite Hc4).
  assert (l1 ≠ l3) by (by apply (Pdiff 0%nat 1%nat)).
  assert (l1 ≠ l4') by (by apply (Pdiff 0%nat 3%nat)).
  assert (l2 ≠ l3) by (by apply (Pdiff 2%nat 1%nat)).
  assert (l2 ≠ l4') by (by apply (Pdiff 2%nat 3%nat)).
  assert (l3 ≠ l4') by (by apply (Pdiff 1%nat 3%nat)).
  assert (c2 ≠ c3) by (by apply (Sdiff 2%nat 1%nat)).
  assert (c2 ≠ c4) by (by apply (Sdiff 2%nat 3%nat)).
  rewrite Hl3, Hc3, Hc4. cbn [mbind option_bind].
  erewrite !load_size_Some
    by (cbn [sizes]; rewrite lookup_delete_ne by done; eassumption).
  cbn [obind]. rewrite Hevs, Hdvs.
  destruct (decide (evs ≠ dvs)) as [Hne|Heq].
  { eexists _, _. split; [reflexivity|]. split.
    { split; cbn [payload sizes]; intros x Hx.
      - rewrite lookup_delete_ne, lookup_insert_ne; [done|..];
          intros ->; apply Hx; eauto.
      - rewrite lookup_delete_ne; [done|].
        intros ->; apply Hx; eauto. }
    split; [split; [discriminate|intros [_ Hv]; specialize (Hv ltac:(eauto));
                                  congruence]|].
    split; [done|]. intros _ _. split; [congruence|]. split.
    - intros n to0 from0 ? ? ?. simplify_eq. cbn [payload].
      rewrite lookup_delete_ne, lookup_insert_eq; done.
    - cbn [payload]. rewrite lookup_delete_ne, lookup_insert_ne; done. }
  apply dec_stable in Heq. subst dvs.
  erewrite (memcpy_Done _ l3 l4' to' from' evs);
    [|cbn [payload]; rewrite lookup_delete_ne, lookup_insert_ne by done;
      eassumption..|lia|lia|done].
  cbn [obind payload sizes].
  erewrite free_payload_Done
    by (cbn [payload];
        rewrite lookup_insert_ne, lookup_delete_ne, lookup_insert_ne by done;
        exact Hfrom').
  cbn [obind payload sizes].
  erewrite free_size_Done
    by (cbn [sizes]; rewrite lookup_delete_ne by done; exact Hdvs).
  eexists _, _. split; [reflexivity|]. split.
  { split; cbn [payload sizes]; intros x Hx.
    - rewrite lookup_delete_ne, lookup_insert_ne,
        lookup_delete_ne, lookup_insert_ne; [done|..];
        intros ->; apply Hx; eauto.
    - rewrite !lookup_delete_ne; [done|..];
        intros ->; apply Hx; eauto. }
  split; [split; [intros _; split; [done|done]|done]|].
  split; [done|]. intros _ Hn. destruct Hn. by split.
Qed.

(** Facts that depend on a heap only through the cells of a pair. *)
Lemma size_of_agree h h' (p : AttributeBuffer * AttributeBuffer) (x : ptr) :
  (∀ c, c ∈ size_locs p → sizes h' !! c = sizes h !! c) →
  x ∈ [buffer_size_ p.1; buffer_var_size_ p.1;
       buffer_size_ p.2; buffer_var_size_ p.2] →
  size_of h' x = size_of h x.
Proof.
  intros Hs Hx. destruct x as [c|]; [|done]. cbn.
  apply Hs. by apply elem_of_non_null.
Qed.

Lemma bytes_of_agree h h' (p : AttributeBuffer * AttributeBuffer) (x : ptr) :
  (∀ l, l ∈ payload_locs p → payload h' !! l = payload h !! l) →
  x ∈ [buffer_ p.1; buffer_var_ p.1; buffer_ p.2; buffer_var_ p.2] →
  bytes_of h' x = bytes_of h x.
Proof.
  intros Hs Hx. destruct x as [c|]; [|done]. cbn.
  apply Hs. by apply elem_of_non_null.
Qed.

Lemma block_ok_agree h h' (p sz : ptr) :
  bytes_of h' p = bytes_of h p → size_of h' sz = size_of h sz →
  block_ok h p sz → block_ok h' p sz.
Proof.
  intros Hb Hs (l & c & bytes & n & -> & -> & ? & ? & ?).
  cbn in Hb, Hs. exists l, c, bytes, n. repeat split; congruence || lia.
Qed.

Section PairAgree.

Context (h h' : Heap) (p : AttributeBuffer * AttributeBuffer).
Hypothesis same_payload :
  ∀ l, l ∈ payload_locs p → payload h' !! l = payload h !! l.
Hypothesis same_sizes :
  ∀ c, c ∈ size_locs p → sizes h' !! c = sizes h !! c.

Lemma pair_ok_agree : pair_ok h p → pair_ok h' p.
Proof.
  intros (B1 & B2 & B3). split; [|split; [|intros Hv; split]].
  - eapply block_ok_agree; [| |exact B1];
      [eapply bytes_of_agree|eapply size_of_agree]; eauto; set_solver.
  - eapply block_ok_agree; [| |exact B2];
      [eapply bytes_of_agree|eapply size_of_agree]; eauto; set_solver.
  - eapply block_ok_agree; [| |exact (proj1 (B3 Hv))];
      [eapply bytes_of_agree|eapply size_of_agree]; eauto; set_solver.
  - eapply block_ok_agree; [| |exact (proj2 (B3 Hv))];
      [eapply bytes_of_agree|eapply size_of_agree]; eauto; set_solver.
Qed.

Lemma fixed_agree_agree : fixed_agree h' p ↔ fixed_agree h p.
Proof.
  unfold fixed_agree.
  rewrite !(size_of_agree h h' p) by (done || set_solver). done.
Qed.

Lemma sizes_agree_agree : sizes_agree h' p ↔ sizes_agree h p.
Proof.
  unfold sizes_agree. rewrite fixed_agree_agree.
  rewrite !(size_of_agree h h' p) by (done || set_solver). done.
Qed.

End PairAgree.

Lemma string_app_assoc (a b c : string) : (a +:+ b) +:+ c = a +:+ b +:+ c.
Proof.
  induction a as [|x a IH]; [reflexivity|].
  change (String x ((a +:+ b) +:+ c) = String x (a +:+ b +:+ c)).
  by rewrite IH.
Qed.

Lemma occurs_in_middle (a x b : string) : occurs_in x (a +:+ x +:+ b).
Proof. by exists a, b. Qed.

Lemma occurs_in_second (a x b y c : string) :
  occurs_in y (a +:+ x +:+ b +:+ y +:+ c).
Proof.
  exists (a +:+ x +:+ b), c. by rewrite !string_app_assoc.
Qed.

Lemma mismatch_at_message h p st :
  mismatch_at h p st →
  ∃ msg x y, st = QueryError msg ∧ x ≠ y ∧
             occurs_in (to_string x) msg ∧ occurs_in (to_string y) msg.
Proof.
  intros (x & y & Hne & [(_ & _ & ->)|(_ & _ & _ & _ & ->)]);
    eexists _, x, y; (split; [reflexivity|]); (split; [done|]);
    split; [apply occurs_in_middle|apply occurs_in_second
           |apply occurs_in_middle|apply occurs_in_second].
Qed.

Lemma mismatch_at_agree h h' p st :
  (∀ c, c ∈ size_locs p → sizes h' !! c = sizes h !! c) →
  mismatch_at h' p st → mismatch_at h p st.
Proof.
  intros Hs (x & y & Hne & H). exists x, y. split; [done|].
  revert H. unfold fixed_agree.
  rewrite !(size_of_agree h h' p) by (done || set_solver). done.
Qed.

Lemma pair_ok_sizes h p :
  pair_ok h p →
  (∃ x y, size_of h (buffer_size_ p.1) = Some x ∧
          size_of h (buffer_size_ p.2) = Some y) ∧
  (is_Some (buffer_var_ p.2) →
   ∃ x y, size_of h (buffer_var_size_ p.1) = Some x ∧
          size_of h (buffer_var_size_ p.2) = Some y).
Proof.
  intros (B1 & B2 & B3).
  assert (Hb : ∀ a sz, block_ok h a sz → ∃ n, size_of h sz = Some n).
  { intros a sz (l & c & bytes & n & _ & -> & _ & ? & _). by exists n. }
  split.
  - destruct (Hb _ _ B1) as [x Hx], (Hb _ _ B2) as [y Hy]. eauto.
  - intros Hv. destruct (B3 Hv) as [B4 B5].
    destruct (Hb _ _ B4) as [x Hx], (Hb _ _ B5) as [y Hy]. eauto.
Qed.

(** What the branch returns when it does not fall through. *)
Lemma copy_existing_failure h eb db st h' :
  pair_ok h (eb, db) →
  NoDup (payload_locs (eb, db)) → NoDup (size_locs (eb, db)) →
  copy_existing eb db h = Done (st, h') → st ≠ Ok →
  mismatch_at h (eb, db) st.
Proof.
  intros Hok NDp NDs Hrun Hst.
  destruct (copy_existing_spec h eb db Hok NDp NDs)
    as (st0 & h0 & Hrun0 & _ & Hiff & Hfix & Hvar).
  rewrite Hrun in Hrun0. simplify_eq.
  destruct (pair_ok_sizes h (eb, db) Hok) as [(x & y & Hx & Hy) Hv].
  cbn [fst snd] in *.
  destruct (decide (x = y)) as [->|Hne].
  - assert (Hfa : fixed_agree h (eb, db))
      by (unfold fixed_agree; cbn; congruence).
    assert (Hna : ¬ sizes_agree h (eb, db)) by (intros ?; by apply Hst, Hiff).
    assert (Hsome : is_Some (buffer_var_ db)).
    { destruct (buffer_var_ db) eqn:Hb; [by eauto|].
      destruct Hna. split; [done|]. cbn. rewrite Hb. by intros [? ?]. }
    destruct (Hv Hsome) as (u & v & Hu & Hw).
    destruct (Hvar Hfa Hna) as [Hmsg _].
    exists u, v. split.
    + intros ->. apply Hna. split; [done|]. intros _. cbn. congruence.
    + right. repeat split; try done. by apply Hmsg.
  - assert (Hnf : ¬ fixed_agree h (eb, db))
      by (unfold fixed_agree; cbn; congruence).
    destruct (Hfix Hnf) as [_ Hmsg].
    exists x, y. split; [done|]. left. repeat split; try done. by apply Hmsg.
Qed.

Lemma copy_new_status (E : Engines) (q : Query E) name b :
  status (copy_new q name b) = status q.
Proof.
  unfold copy_new, set_buffer, set_buffer_var, status.
  destruct (buffer_var_ b), (type_ q);
    repeat match goal with |- context [let '(_, _) := ?x in _] => destruct x end;
    reflexivity.
Qed.

Lemma copy_buffers_loop_status (E : Engines) ex :
  ∀ l (q : Query E) h st q' h',
    copy_buffers_loop ex l q h = Done (st, q', h') → status q' = status q.
Proof.
  induction l as [|[n db] l IH]; intros q h st q' h';
    cbn [copy_buffers_loop fst snd].
  - by intros [= _ <- _].
  - destruct (find ex n) as [eb|].
    + destruct (copy_existing eb db h) as [[st0 h0]| |]; cbn [obind fst snd];
        [|done..].
      destruct (ok st0); cbn [negb]; [apply IH|by intros [= _ <- _]].
    + intros H. apply IH in H. by rewrite copy_new_status in H.
Qed.

Lemma matches_cons_Some ex n db l eb :
  find ex n = Some eb → matches ex ((n, db) :: l) = (eb, db) :: matches ex l.
Proof. intros H. unfold matches. cbn. by rewrite H. Qed.

Lemma matches_cons_None ex n db l :
  find ex n = None → matches ex ((n, db) :: l) = matches ex l.
Proof. intros H. unfold matches. cbn. by rewrite H. Qed.

Lemma copy_buffers_loop_spec (E : Engines) ex :
  ∀ l (q : Query E) h,
    separated (matches ex l) → Forall (pair_ok h) (matches ex l) →
    ∃ st q' h',
      copy_buffers_loop ex l q h = Done (st, q', h') ∧
      (st = Ok ∨ ∃ p, p ∈ matches ex l ∧ mismatch_at h p st) ∧
      (st = Ok ↔ Forall (sizes_agree h) (matches ex l)) ∧
      agree_off (matches ex l ≫= payload_locs) (matches ex l ≫= size_locs)
        h h' ∧
      (∀ p, p ∈ matches ex l → ¬ fixed_agree h p →
            ∀ x, x ∈ non_null [buffer_ p.1; buffer_var_ p.1] →
                 payload h' !! x = payload h !! x).
Proof.
  induction l as [|[n db] l IH]; intros q h Hsep Hok.
  { exists Ok, q, h. cbn. split; [done|]. split; [by left|].
    split; [done|]. split; [by split|]. intros p Hp. by apply elem_of_nil in Hp. }
  cbn [copy_buffers_loop fst snd].
  destruct (find ex n) as [eb|] eqn:Hfind.
  2:{ rewrite (matches_cons_None _ _ _ _ Hfind) in *. by apply IH. }
  rewrite (matches_cons_Some _ _ _ _ _ Hfind) in *.
  destruct Hsep as [NDp NDs]. cbn [mbind list_bind] in NDp, NDs |- *.
  apply NoDup_app in NDp as (NDp1 & NDp12 & NDp2).
  apply NoDup_app in NDs as (NDs1 & NDs12 & NDs2).
  apply Forall_cons in Hok as [Hok1 Hok2].
  destruct (copy_existing_spec h eb db Hok1 NDp1 NDs1)
    as (st0 & h0 & Hrun & [Hap Has] & Hiff & Hfix & _).
  rewrite Hrun. cbn [obind fst snd].
  assert (Hrest_p : ∀ p x, p ∈ matches ex l → x ∈ payload_locs p →
                           payload h0 !! x = payload h !! x).
  { intros p x Hp Hx. apply Hap. intros Hin. apply (NDp12 x Hin).
    apply list_elem_of_bind. eauto. }
  assert (Hrest_s : ∀ p c, p ∈ matches ex l → c ∈ size_locs p →
                           sizes h0 !! c = sizes h !! c).
  { intros p c Hp Hc. apply Has. intros Hin. apply (NDs12 c Hin).
    apply list_elem_of_bind. eauto. }
  assert (Hsub : ∀ (p : AttributeBuffer * AttributeBuffer) x,
            x ∈ non_null [buffer_ p.1; buffer_var_ p.1] → x ∈ payload_locs p).
  { intros p x Hx. apply list_elem_of_omap in Hx as (y & Hy & Hid).
    apply list_elem_of_omap. exists y. split; [set_solver|done]. }
  destruct (ok st0) eqn:Hst0; cbn [negb].
  - (* the pair is copied and the loop goes on from [h0] *)
    apply ok_true in Hst0 as ->.
    assert (Hhere : sizes_agree h (eb, db)) by (by apply Hiff).
    destruct (IH q h0) as (st & q' & h' & -> & Hkind' & Hiff' & [Hap' Has'] & Hfix').
    { by split. }
    { rewrite Forall_forall in Hok2 |- *. intros p Hp.
      apply (pair_ok_agree h h0 p); eauto. }
    exists st, q', h'. split; [done|]. split; [|split; [|split; [split|]]].
    + destruct Hkind' as [->|(p & Hp & Hm)]; [by left|right].
      exists p. split; [by apply elem_of_cons; right|].
      eapply mismatch_at_agree; [|exact Hm]. eauto.
    + rewrite Hiff', Forall_cons. split.
      * intros H. split; [done|].
        rewrite Forall_forall in H |- *. intros p Hp.
        apply (sizes_agree_agree h h0 p); eauto.
      * intros [_ H]. rewrite Forall_forall in H |- *. intros p Hp.
        apply (sizes_agree_agree h h0 p); eauto.
    + intros x Hx. rewrite not_elem_of_app in Hx. destruct Hx as [Hx1 Hx2].
      rewrite Hap' by done. by apply Hap.
    + intros c Hc. rewrite not_elem_of_app in Hc. destruct Hc as [Hc1 Hc2].
      rewrite Has' by done. by apply Has.
    + intros p Hp Hnf x Hx. apply elem_of_cons in Hp as [->|Hp].
      { by destruct Hnf, Hhere. }
      rewrite (Hfix' p Hp); [by eapply Hrest_p; eauto| |done].
      intros Hf. apply Hnf. apply (fixed_agree_agree h h0 p); eauto.
  - (* the pair fails and the loop returns *)
    apply ok_false in Hst0.
    exists st0, q, h0. split; [done|]. split; [|split; [|split; [split|]]].
    + right. exists (eb, db). split; [by apply elem_of_cons; left|].
      by eapply copy_existing_failure.
    + rewrite Forall_cons. split; [done|]. intros [H _]. by apply Hiff.
    + intros x Hx. rewrite not_elem_of_app in Hx. apply Hap. by destruct Hx.
    + intros c Hc. rewrite not_elem_of_app in Hc. apply Has. by destruct Hc.
    + intros p Hp Hnf x Hx. apply elem_of_cons in Hp as [->|Hp].
      * by destruct (Hfix Hnf) as [-> _].
      * eapply Hrest_p; eauto.
Qed.

Lemma copy_buffers_loop_app (E : Engines) ex l2 :
  ∀ l1 (q : Query E) h,
    copy_buffers_loop ex (l1 ++ l2) q h =
    (r ←! copy_buffers_loop ex l1 q h;
     if negb (ok r.1.1) then Done r
     else copy_buffers_loop ex l2 r.1.2 r.2).
Proof.
  induction l1 as [|[n db] l1 IH]; intros q h;
    cbn [app copy_buffers_loop fst snd obind negb ok]; [done|].
  destruct (find ex n) as [eb|]; [|apply IH].
  destruct (copy_existing eb db h) as [[st0 h0]| |]; cbn [obind fst snd];
    [|done..].
  destruct (ok st0) eqn:Hok; cbn [negb obind fst snd]; [apply IH|].
  by rewrite Hok.
Qed.

Lemma matches_app ex l1 l2 :
  matches ex (l1 ++ l2) = matches ex l1 ++ matches ex l2.
Proof. unfold matches. apply omap_app. Qed.

Lemma elem_of_matches ex l name eb db :
  find ex name = Some eb → (name, db) ∈ l → (eb, db) ∈ matches ex l.
Proof.
  intros Hf Hin. apply list_elem_of_omap. exists (name, db).
  split; [done|]. cbn. by rewrite Hf.
Qed.

(** The loop over a prefix whose pairs all copy, up to the next buffer the
    receiver has. *)
Lemma copy_buffers_loop_prefix (E : Engines) ex pre n db post
    (q : Query E) h eb :
  find ex n = Some eb →
  separated (matches ex (pre ++ (n, db) :: post)) →
  Forall (pair_ok h) (matches ex (pre ++ (n, db) :: post)) →
  Forall (sizes_agree h) (matches ex pre) →
  ∃ q1 h1,
    copy_buffers_loop ex (pre ++ (n, db) :: post) q h
    = (r ←! copy_existing eb db h1;
       if negb (ok r.1) then Done (r.1, q1, r.2)
       else copy_buffers_loop ex post q1 r.2) ∧
    pair_ok h1 (eb, db) ∧
    NoDup (payload_locs (eb, db)) ∧ NoDup (size_locs (eb, db)) ∧
    (∀ x, x ∈ payload_locs (eb, db) → payload h1 !! x = payload h !! x) ∧
    (∀ c, c ∈ size_locs (eb, db) → sizes h1 !! c = sizes h !! c).
Proof.
  intros Hfind [NDp NDs] Hok Hclean.
  rewrite matches_app, (matches_cons_Some _ _ _ _ _ Hfind) in *.
  rewrite bind_app in NDp, NDs. cbn [mbind list_bind] in NDp, NDs.
  apply NoDup_app in NDp as (NDp1 & NDp12 & NDp2).
  apply NoDup_app in NDs as (NDs1 & NDs12 & NDs2).
  apply NoDup_app in NDp2 as (NDp2 & _ & _).
  apply NoDup_app in NDs2 as (NDs2 & _ & _).
  apply Forall_app in Hok as [Hok1 Hok2].
  apply Forall_cons in Hok2 as [Hok2 _].
  destruct (copy_buffers_loop_spec E ex pre q h) as
    (st & q1 & h1 & Hrun & _ & Hiff & [Hap Has] & _); [done|done|].
  assert (st = Ok) as -> by (by apply Hiff).
  assert (Hp : ∀ x, x ∈ payload_locs (eb, db) → payload h1 !! x = payload h !! x).
  { intros x Hx. apply Hap. intros Hin. apply (NDp12 x Hin).
    apply elem_of_app. by left. }
  assert (Hs : ∀ c, c ∈ size_locs (eb, db) → sizes h1 !! c = sizes h !! c).
  { intros c Hc. apply Has. intros Hin. apply (NDs12 c Hin).
    apply elem_of_app. by left. }
  exists q1, h1. split; [|split; [|done]].
  - rewrite copy_buffers_loop_app, Hrun.
    cbn [obind fst snd ok negb copy_buffers_loop]. by rewrite Hfind.
  - by apply (pair_ok_agree h h1 (eb, db)).
Qed.

Lemma starts_with_app (needle after : string) :
  starts_with needle (needle +:+ after) = true.
Proof.
  induction needle as [|a needle IH]; [done|].
  change (String a needle +:+ after) with (String a (needle +:+ after)).
  cbn [starts_with]. by rewrite bool_decide_eq_true_2, IH.
Qed.

Lemma occurs_in_b_complete (needle hay : string) :
  occurs_in needle hay → occurs_in_b needle hay = true.
Proof.
  intros (before & after & ->).
  induction before as [|a before IH].
  - change ("" +:+ needle +:+ after) with (needle +:+ after).
    destruct (needle +:+ after) eqn:Heq; cbn [occurs_in_b];
      rewrite <- Heq, starts_with_app; done.
  - change (String a before +:+ needle +:+ after)
      with (String a (before +:+ needle +:+ after)).
    cbn [occurs_in_b]. rewrite IH. apply orb_true_r.
Qed.

(** C6 (as stated, refuted). The attribute [a] is in both queries, with
    fixed sizes 40 and 48 that differ; the loop meets [b] first, whose
    sizes 10 and 12 differ too, and returns there: the message holds the
    sizes of [b], and neither size of [a]. *)
Lemma copy_buffers_mismatch_of_another_attribute :
  find (attribute_buffers receiver_a_b) "a" = Some (fixed_buffer 1%positive) ∧
  ("a", fixed_buffer 2%positive) ∈ attribute_buffers donor_b_a ∧
  size_of heap_a_b (buffer_size_ (fixed_buffer 1%positive)) = Some 40 ∧
  size_of heap_a_b (buffer_size_ (fixed_buffer 2%positive)) = Some 48 ∧
  copy_buffers receiver_a_b donor_b_a heap_a_b
  = Done (QueryError
            "Existing buffer in query object is different size (10) vs new query object buffer size (12)",
          receiver_a_b, heap_a_b) ∧
  ¬ occurs_in (to_string 40)
      "Existing buffer in query object is different size (10) vs new query object buffer size (12)" ∧
  ¬ occurs_in (to_string 48)
      "Existing buffer in query object is different size (10) vs new query object buffer size (12)".
Proof.
  split; [reflexivity|]. split; [apply list_elem_of_further, list_elem_of_here|].
  split; [reflexivity|]. split; [reflexivity|].
  split; [vm_compute; reflexivity|].
  split; intros H; apply occurs_in_b_complete in H; vm_compute in H;
    discriminate H.
Qed.

(** C6 (amended). When every buffer the two queries share is an allocation
    of its own that can hold its size, and an attribute present in both
    has fixed sizes that differ, [copy_buffers] fails: it returns the
    BufferSizeMismatch error of a shared buffer whose sizes differ, a
    message that contains both sizes of that buffer; the error is the one
    of this attribute, with its two sizes, when the buffers the loop meets
    before it all copy; and the payload bytes of the receiver for the
    attribute are the same after the call. *)
Theorem copy_buffers_size_mismatch (E : Engines) (q donor : Query E)
    (h : Heap) (name : string) (eb db : AttributeBuffer) (es ds : Z) :
  separated (matches (attribute_buffers q) (attribute_buffers donor)) →
  Forall (pair_ok h) (matches (attribute_buffers q) (attribute_buffers donor)) →
  find (attribute_buffers q) name = Some eb →
  (name, db) ∈ attribute_buffers donor →
  size_of h (buffer_size_ eb) = Some es →
  size_of h (buffer_size_ db) = Some ds →
  es ≠ ds →
  ∃ st q' h',
    copy_buffers q donor h = Done (st, q', h') ∧
    (∃ p, p ∈ matches (attribute_buffers q) (attribute_buffers donor) ∧
          mismatch_at h p st) ∧
    (∃ msg x y, st = QueryError msg ∧ x ≠ y ∧
                occurs_in (to_string x) msg ∧ occurs_in (to_string y) msg) ∧
    (∀ pre post,
       attribute_buffers donor = pre ++ (name, db) :: post →
       Forall (sizes_agree h) (matches (attribute_buffers q) pre) →
       st = buffer_mismatch es ds) ∧
    bytes_of h' (buffer_ eb) = bytes_of h (buffer_ eb) ∧
    bytes_of h' (buffer_var_ eb) = bytes_of h (buffer_var_ eb).
Proof.
  intros Hsep Hok Hfind Hin Hes Hds Hne. unfold copy_buffers.
  set (ex := attribute_buffers q) in *.
  set (l := attribute_buffers donor) in *.
  destruct (copy_buffers_loop_spec E ex l q h Hsep Hok)
    as (st & q' & h' & Hrun & Hkind & Hiff & _ & Hfix).
  assert (Hmem : (eb, db) ∈ matches ex l) by (by eapply elem_of_matches).
  assert (Hnf : ¬ fixed_agree h (eb, db))
    by (unfold fixed_agree; cbn; congruence).
  assert (Hst : st ≠ Ok).
  { intros Hst. apply Hiff in Hst. rewrite Forall_forall in Hst.
    by destruct (Hst _ Hmem) as [? _]. }
  destruct Hkind as [?|(p & Hp & Hm)]; [done|].
  exists st, q', h'. split; [done|]. split; [by eauto|].
  split; [by eapply mismatch_at_message|]. split; [|split].
  - intros pre post Hl Hclean.
    destruct (copy_buffers_loop_prefix E ex pre name db post q h eb)
      as (q1 & h1 & Hrun1 & Hok1 & NDp & NDs & Hp1 & Hs1);
      [done|by rewrite <- Hl..|done|].
    rewrite <- Hl, Hrun in Hrun1.
    destruct (copy_existing_spec h1 eb db Hok1 NDp NDs)
      as (st0 & h0 & Hrun0 & _ & _ & Hfix0 & _).
    rewrite Hrun0 in Hrun1. cbn [obind fst snd] in Hrun1.
    destruct Hfix0 as [-> Hmsg].
    { intros Hf. apply Hnf. by apply (fixed_agree_agree h h1 (eb, db)). }
    rewrite (Hmsg es ds) in Hrun1.
    + cbn in Hrun1. by simplify_eq.
    + rewrite <- Hes. apply (size_of_agree h h1 (eb, db)); [done|set_solver].
    + rewrite <- Hds. apply (size_of_agree h h1 (eb, db)); [done|set_solver].
  - destruct (buffer_ eb) as [x|] eqn:Hb; [|done]. cbn.
    apply (Hfix (eb, db) Hmem Hnf). cbn. rewrite Hb. set_solver.
  - destruct (buffer_var_ eb) as [x|] eqn:Hb; [|done]. cbn.
    apply (Hfix (eb, db) Hmem Hnf). cbn. rewrite Hb.
    destruct (buffer_ eb); set_solver.
Qed.

(** C10 (as stated, refuted). The attribute [v] is in both queries, with
    equal fixed sizes and values sizes 3 and 5 that differ; the loop meets
    [a] first, whose fixed sizes differ, and returns there: the error is
    the one of [a], and the fixed payload of the receiver for [v] was not
    overwritten with the bytes of the donor. *)
Lemma copy_buffers_var_mismatch_not_reached :
  find (attribute_buffers receiver_a_v) "v"
    = Some (var_buffer 3%positive 4%positive) ∧
  ("v", var_buffer 5%positive 6%positive) ∈ attribute_buffers donor_a_v ∧
  size_of heap_a_v (buffer_size_ (var_buffer 3%positive 4%positive)) = Some 4 ∧
  size_of heap_a_v (buffer_size_ (var_buffer 5%positive 6%positive)) = Some 4 ∧
  size_of heap_a_v (buffer_var_size_ (var_buffer 3%positive 4%positive))
    = Some 3 ∧
  size_of heap_a_v (buffer_var_size_ (var_buffer 5%positive 6%positive))
    = Some 5 ∧
  bytes_of heap_a_v (buffer_ (var_buffer 5%positive 6%positive))
    = Some [Byte.x00; Byte.x02; Byte.x00; Byte.x03] ∧
  ∃ h',
    copy_buffers receiver_a_v donor_a_v heap_a_v
    = Done (buffer_mismatch 40 48, receiver_a_v, h') ∧
    bytes_of h' (buffer_ (var_buffer 3%positive 4%positive))
    = Some [Byte.x00; Byte.x00; Byte.x00; Byte.x00].
Proof.
  split; [reflexivity|]. split; [apply list_elem_of_further, list_elem_of_here|].
  do 5 (split; [reflexivity|]).
  exists heap_a_v. split; [vm_compute; reflexivity|reflexivity].
Qed.

(** C10 (amended). For a variable-length attribute present in both queries
    whose fixed sizes are equal and whose values sizes differ, reached by
    the loop after buffers that all copy, [copy_buffers] returns the
    BufferSizeMismatch error of the values sizes from a heap in which the
    fixed payload of the receiver already holds the bytes of the donor
    (its first [n] bytes, [n] the fixed size), while the values payload
    of the receiver is as before. *)
Theorem copy_buffers_var_mismatch_not_atomic (E : Engines)
    (q donor : Query E) (h : Heap)
    (pre post : list (string * AttributeBuffer)) (name : string)
    (eb db : AttributeBuffer) (n evs dvs : Z) (to from : list Byte.byte) :
  attribute_buffers donor = pre ++ (name, db) :: post →
  find (attribute_buffers q) name = Some eb →
  separated (matches (attribute_buffers q) (attribute_buffers donor)) →
  Forall (pair_ok h) (matches (attribute_buffers q) (attribute_buffers donor)) →
  Forall (sizes_agree h) (matches (attribute_buffers q) pre) →
  is_Some (buffer_var_ db) →
  size_of h (buffer_size_ eb) = Some n →
  size_of h (buffer_size_ db) = Some n →
  size_of h (buffer_var_size_ eb) = Some evs →
  size_of h (buffer_var_size_ db) = Some dvs →
  evs ≠ dvs →
  bytes_of h (buffer_ eb) = Some to →
  bytes_of h (buffer_ db) = Some from →
  ∃ q' h',
    copy_buffers q donor h = Done (buffer_var_mismatch evs dvs, q', h') ∧
    bytes_of h' (buffer_ eb)
    = Some (take (Z.to_nat n) from ++ drop (Z.to_nat n) to) ∧
    bytes_of h' (buffer_var_ eb) = bytes_of h (buffer_var_ eb).
Proof.
  intros Hl Hfind Hsep Hok Hclean Hvar Hes Hds Hevs Hdvs Hne Hto Hfrom.
  unfold copy_buffers. rewrite Hl in *.
  set (ex := attribute_buffers q) in *.
  destruct (copy_buffers_loop_prefix E ex pre name db post q h eb)
    as (q1 & h1 & -> & Hok1 & NDp & NDs & Hp1 & Hs1); [done..|].
  destruct (copy_existing_spec h1 eb db Hok1 NDp NDs)
    as (st0 & h0 & -> & _ & Hiff & _ & Hmis).
  assert (Hsz : ∀ x, x ∈ [buffer_size_ eb; buffer_var_size_ eb;
                          buffer_size_ db; buffer_var_size_ db] →
                     size_of h1 x = size_of h x).
  { intros x Hx. by apply (size_of_agree h h1 (eb, db)). }
  assert (Hby : ∀ x, x ∈ [buffer_ eb; buffer_var_ eb;
                          buffer_ db; buffer_var_ db] →
                     bytes_of h1 x = bytes_of h x).
  { intros x Hx. by apply (bytes_of_agree h h1 (eb, db)). }
  destruct Hmis as (Hmsg & Hbytes & Hvals).
  { unfold fixed_agree. cbn. rewrite !Hsz by set_solver. congruence. }
  { intros [_ Hv]. specialize (Hv Hvar). cbn in Hv.
    rewrite !Hsz in Hv by set_solver. congruence. }
  rewrite (Hmsg evs dvs) by (rewrite Hsz by set_solver; done).
  cbn [obind fst snd ok negb].
  exists q1, h0. split; [done|]. split.
  - apply (Hbytes n to from); rewrite ?Hsz, ?Hby by set_solver; done.
  - rewrite Hvals. apply Hby. set_solver.
Qed.

Example buffer_copy_size_mismatch :
  copy_buffers receiver_fixed donor_fixed heap_40_48
  = Done (QueryError
            "Existing buffer in query object is different size (40) vs new query object buffer size (48)",
          receiver_fixed, heap_40_48).
Proof. vm_compute. reflexivity. Qed.

Lemma copy_buffers_size_mismatch_witness :
  (separated (matches (attribute_buffers receiver_fixed)
                (attribute_buffers donor_fixed)) ∧
   Forall (pair_ok heap_40_48)
     (matches (attribute_buffers receiver_fixed)
        (attribute_buffers donor_fixed)) ∧
   find (attribute_buffers receiver_fixed) "a"
     = Some (fixed_buffer 1%positive) ∧
   ("a", fixed_buffer 2%positive) ∈ attribute_buffers donor_fixed ∧
   size_of heap_40_48 (buffer_size_ (fixed_buffer 1%positive)) = Some 40 ∧
   size_of heap_40_48 (buffer_size_ (fixed_buffer 2%positive)) = Some 48 ∧
   40 ≠ 48) ∧
  ∃ st q' h',
    copy_buffers receiver_fixed donor_fixed heap_40_48 = Done (st, q', h') ∧
    st = buffer_mismatch 40 48 ∧
    bytes_of h' (buffer_ (fixed_buffer 1%positive))
    = bytes_of heap_40_48 (buffer_ (fixed_buffer 1%positive)).
Proof.
  assert (Hsep : separated
            (matches (attribute_buffers receiver_fixed)
               (attribute_buffers donor_fixed))).
  { split; compute_done. }
  assert (Hok : Forall (pair_ok heap_40_48)
     (matches (attribute_buffers receiver_fixed)
        (attribute_buffers donor_fixed))).
  { replace (matches (attribute_buffers receiver_fixed)
               (attribute_buffers donor_fixed))
      with [(fixed_buffer 1%positive, fixed_buffer 2%positive)]
      by (vm_compute; reflexivity).
    apply Forall_cons; split; [|constructor].
    split; [block_ok_tac|split; [block_ok_tac|]].
    intros [? Hv]; discriminate Hv. }
  assert (Hin : ("a", fixed_buffer 2%positive) ∈ attribute_buffers donor_fixed)
    by (apply list_elem_of_here).
  assert (Hne : 40 ≠ 48) by discriminate.
  split; [repeat match goal with |- _ ∧ _ => split end;
          done || (vm_compute; reflexivity)|].
  destruct (copy_buffers_size_mismatch (sim_engines true)
              receiver_fixed donor_fixed heap_40_48 "a"
              (fixed_buffer 1%positive) (fixed_buffer 2%positive) 40 48
              Hsep Hok eq_refl Hin eq_refl eq_refl Hne)
    as (st & q' & h' & Hrun & _ & _ & Hfirst & Hbytes & _).
  exists st, q', h'. split; [done|]. split; [|done].
  by apply (Hfirst [] []).
Defined.

Example buffer_copy_var_mismatch :
  ∃ h', copy_buffers receiver_var donor_var heap_var
        = Done (buffer_var_mismatch 3 5, receiver_var, h') ∧
        payload h' !! 3%positive
        = Some [Byte.x00; Byte.x02; Byte.x00; Byte.x03] ∧
        payload h' !! 4%positive = Some [Byte.x0a; Byte.x0b; Byte.x0c].
Proof. eexists. split; [vm_compute; reflexivity|]. by vm_compute. Qed.

Lemma copy_buffers_var_mismatch_not_atomic_witness :
  (attribute_buffers donor_var
     = [] ++ ("v", var_buffer 5%positive 6%positive) :: [] ∧
   find (attribute_buffers receiver_var) "v"
     = Some (var_buffer 3%positive 4%positive) ∧
   separated (matches (attribute_buffers receiver_var)
                (attribute_buffers donor_var)) ∧
   Forall (pair_ok heap_var)
     (matches (attribute_buffers receiver_var) (attribute_buffers donor_var)) ∧
   Forall (sizes_agree heap_var) (matches (attribute_buffers receiver_var) []) ∧
   is_Some (buffer_var_ (var_buffer 5%positive 6%positive)) ∧
   size_of heap_var (buffer_size_ (var_buffer 3%positive 4%positive)) = Some 4 ∧
   size_of heap_var (buffer_size_ (var_buffer 5%positive 6%positive)) = Some 4 ∧
   size_of heap_var (buffer_var_size_ (var_buffer 3%positive 4%positive))
     = Some 3 ∧
   size_of heap_var (buffer_var_size_ (var_buffer 5%positive 6%positive))
     = Some 5 ∧
   3 ≠ 5 ∧
   bytes_of heap_var (buffer_ (var_buffer 3%positive 4%positive))
     = Some [Byte.x00; Byte.x00; Byte.x00; Byte.x00] ∧
   bytes_of heap_var (buffer_ (var_buffer 5%positive 6%positive))
     = Some [Byte.x00; Byte.x02; Byte.x00; Byte.x03]) ∧
  ∃ q' h',
    copy_buffers receiver_var donor_var heap_var
    = Done (buffer_var_mismatch 3 5, q', h') ∧
    bytes_of h' (buffer_ (var_buffer 3%positive 4%positive))
    = Some [Byte.x00; Byte.x02; Byte.x00; Byte.x03].
Proof.
  assert (Hsep : separated (matches (attribute_buffers receiver_var)
                              (attribute_buffers donor_var))).
  { split; compute_done. }
  assert (Hok : Forall (pair_ok heap_var)
     (matches (attribute_buffers receiver_var) (attribute_buffers donor_var))).
  { replace (matches (attribute_buffers receiver_var)
               (attribute_buffers donor_var))
      with [(var_buffer 3%positive 4%positive,
             var_buffer 5%positive 6%positive)]
      by (vm_compute; reflexivity).
    apply Forall_cons; split; [|constructor].
    split; [block_ok_tac|split; [block_ok_tac|]].
    intros _. split; block_ok_tac. }
  assert (Hclean : Forall (sizes_agree heap_var)
                     (matches (attribute_buffers receiver_var) []))
    by constructor.
  assert (Hvar : is_Some (buffer_var_ (var_buffer 5%positive 6%positive)))
    by (by eexists).
  assert (Hne : 3 ≠ 5) by discriminate.
  split; [repeat match goal with |- _ ∧ _ => split end;
          done || (vm_compute; reflexivity)|].
  destruct (copy_buffers_var_mismatch_not_atomic (sim_engines true)
              receiver_var donor_var heap_var [] [] "v"
              (var_buffer 3%positive 4%positive)
              (var_buffer 5%positive 6%positive) 4 3 5
              [Byte.x00; Byte.x00; Byte.x00; Byte.x00]
              [Byte.x00; Byte.x02; Byte.x00; Byte.x03]
              eq_refl eq_refl Hsep Hok Hclean Hvar
              eq_refl eq_refl eq_refl eq_refl Hne eq_refl eq_refl)
    as (q' & h' & Hrun & Hbytes & _).
  by exists q', h'.
Defined.

(** ** The hand-over of a deserialized query *)

(** [copy_buffers] does not assign the status. *)
Lemma copy_buffers_status (E : Engines) (q donor : Query E) h st q' h' :
  copy_buffers q donor h = Done (st, q', h') → status q' = status q.
Proof. apply copy_buffers_loop_status. Qed.

(** C8 (as stated, refuted). The subarray of the donor passes the bounds
    validation, the engine of the receiver rejects it, and the receiver is
    left with the status COMPLETED of the donor, not UNINITIALIZED. *)
Lemma copy_json_wip_engine_rejection :
  check_subarray_bounds false
    (set_layout (with_status (with_type (rejecting INPROGRESS)
                                (type (rejecting COMPLETED)))
                   (status (rejecting COMPLETED)))
       (layout (rejecting COMPLETED))).2
    (subarray_2_7 _ (rejecting COMPLETED) int32_t) = Done Ok ∧
  ∃ q', copy_json_wip false (subarray_2_7 _) (rejecting INPROGRESS)
          (rejecting COMPLETED) empty_heap = Done (Ok, q', empty_heap) ∧
        status q' = COMPLETED.
Proof. split; [reflexivity|]. eexists. split; reflexivity. Qed.

(** C8 (amended). On a numeric domain type, [copy_json_wip] drops the
    Status of [set_subarray] and returns what [copy_buffers] returns; and
    whenever [set_subarray] succeeds on the subarray of the donor (it
    passes the bounds validation and the engine accepts it), the receiver
    is left with the status UNINITIALIZED, whatever the status of the
    donor that was assigned at entry. *)
Theorem copy_json_wip_status (E : Engines) (NDEBUG : bool)
    (subarray_data : Query E → NumType → option Buffer)
    (q donor : Query E) (h : Heap) (schema : ArraySchema) (T : NumType)
    (st_sub : Status) (q2 : Query E) :
  array_schema (set_layout (with_status (with_type q (type donor))
                              (status donor)) (layout donor)).2
    = Some schema →
  numeric_type (dom_type (domain schema)) = Some T →
  set_subarray NDEBUG
    (set_layout (with_status (with_type q (type donor)) (status donor))
       (layout donor)).2
    (subarray_data donor T) = Done (st_sub, q2) →
  copy_json_wip NDEBUG subarray_data q donor h = copy_buffers q2 donor h ∧
  (st_sub = Ok →
   ∀ st q' h',
     copy_json_wip NDEBUG subarray_data q donor h = Done (st, q', h') →
     status q' = UNINITIALIZED).
Proof.
  intros Hschema HT Hset.
  assert (Hrun : copy_json_wip NDEBUG subarray_data q donor h
                 = copy_buffers q2 donor h).
  { unfold copy_json_wip.
    destruct (set_layout (with_status (with_type q (type donor))
                            (status donor)) (layout donor)) as [st_l q1].
    cbn [snd] in Hschema, Hset. rewrite Hschema. cbn [deref obind].
    destruct (dom_type (domain schema)); simplify_eq/=;
      by rewrite Hset. }
  split; [exact Hrun|].
  intros -> st q' h' Hdone. rewrite Hrun in Hdone.
  apply copy_buffers_status in Hdone. rewrite Hdone.
  by apply (set_subarray_Ok_resets _ _ _ _ _ Hset).
Qed.

Lemma copy_json_wip_status_witness :
  (array_schema (set_layout (with_status (with_type (accepting INPROGRESS)
                                            (type (accepting COMPLETED)))
                               (status (accepting COMPLETED)))
                   (layout (accepting COMPLETED))).2
     = Some ten_cells_schema ∧
   numeric_type (dom_type (domain ten_cells_schema)) = Some int32_t) ∧
  ∃ q2 q',
    set_subarray false
      (set_layout (with_status (with_type (accepting INPROGRESS)
                                  (type (accepting COMPLETED)))
                     (status (accepting COMPLETED)))
         (layout (accepting COMPLETED))).2
      (subarray_2_7 _ (accepting COMPLETED) int32_t) = Done (Ok, q2) ∧
    copy_json_wip false (subarray_2_7 _) (accepting INPROGRESS)
      (accepting COMPLETED) empty_heap = Done (Ok, q', empty_heap) ∧
    status q' = UNINITIALIZED.
Proof.
  split; [by split|].
  eexists _, _. split; [reflexivity|]. split; [reflexivity|].
  eapply (copy_json_wip_status (sim_engines true) false (subarray_2_7 _)
            (accepting INPROGRESS) (accepting COMPLETED) empty_heap
            ten_cells_schema int32_t Ok _ eq_refl eq_refl eq_refl);
    reflexivity.
Defined.

(** On a non-numeric domain type [copy_json_wip] reaches its own
    [assert(false)]; compiled with [NDEBUG] it skips [set_subarray] and
    the receiver keeps the status of the donor. *)
Example copy_json_wip_non_numeric :
  copy_json_wip false (subarray_2_7 _)
    (sim_query true READ INPROGRESS (sim_engine (Some char_schema) [] 0))
    (sim_query true READ COMPLETED (sim_engine (Some char_schema) [] 0))
    empty_heap = AssertionFailed ∧
  copy_json_wip true (subarray_2_7 _)
    (sim_query true READ INPROGRESS (sim_engine (Some char_schema) [] 0))
    (sim_query true READ COMPLETED (sim_engine (Some char_schema) [] 0))
    empty_heap
  = Done (Ok, sim_query true READ COMPLETED (sim_engine (Some char_schema) [] 0),
          empty_heap).
Proof. split; reflexivity. Qed.

(** ** More on the variable-length offsets *)

(** Acceptance, for a buffer that holds the [n] offsets. *)
Lemma check_var_attr_offsets_Ok_iff (offsets : list Z) (off_size val_size : Z) :
  0 ≤ off_size → (Z.to_nat (off_size / 8) ≤ length offsets)%nat →
  check_var_attr_offsets (Some offsets) (Some off_size) (Some val_size)
  = Done Ok ↔
  ∀ i : nat, (i < Z.to_nat (off_size / 8))%nat →
    offsets !!! i < val_size ∧
    ((1 ≤ i)%nat → offsets !!! (i - 1)%nat < offsets !!! i).
Proof.
  intros Hpos Hlen.
  assert (Hn : 0 ≤ off_size / 8) by (apply Z.div_pos; lia).
  unfold check_var_attr_offsets. cbv zeta.
  destruct (Z.eqb_spec (off_size / 8) 0) as [H0|H0].
  { rewrite H0. split; [intros _ i Hi; cbn in Hi; lia|done]. }
  destruct (lookup_lt_is_Some_2 offsets 0) as [x Hx]; [lia|].
  rewrite Hx. cbn [deref obind].
  assert (Hxt : offsets !!! 0%nat = x) by (by apply list_lookup_total_correct).
  rewrite Z.geb_leb. destruct (Z.leb_spec val_size x) as [Hge|Hlt].
  { split; [discriminate|]. intros H.
    destruct (H 0%nat) as [? _]; lia. }
  destruct (check_var_attr_offsets_loop_spec offsets val_size
              (Z.to_nat (off_size / 8) - 1) 1 x) as [_ L];
    [lia|lia|done|].
  rewrite L. split.
  - intros H i Hi. destruct i as [|i]; [split; [lia|intros; lia]|].
    destruct (H (S i)) as [? ?]; [lia|]. split; [done|]. by intros _.
  - intros H i Hi. destruct (H i) as [? Hs]; [lia|]. split; [|done].
    apply Hs. lia.
Qed.

(** X1. An offsets buffer that [check_var_attr_offsets] accepts is
    strictly ascending as a whole, not only from one offset to the next:
    for any two positions [i < j] among its [n = offsets_size / 8]
    offsets, [offsets[i] < offsets[j]]; every offset is below the size of
    the values; and no offset occurs twice. *)
Theorem accepted_offsets_ascending (offsets : list Z) (off_size val_size : Z) :
  0 ≤ off_size → (Z.to_nat (off_size / 8) ≤ length offsets)%nat →
  check_var_attr_offsets (Some offsets) (Some off_size) (Some val_size)
  = Done Ok →
  (∀ i j : nat, (i < j < Z.to_nat (off_size / 8))%nat →
     offsets !!! i < offsets !!! j) ∧
  (∀ i : nat, (i < Z.to_nat (off_size / 8))%nat → offsets !!! i < val_size) ∧
  NoDup (take (Z.to_nat (off_size / 8)) offsets).
Proof.
  intros Hpos Hlen Hrun.
  pose proof (proj1 (check_var_attr_offsets_Ok_iff offsets off_size val_size
                       Hpos Hlen) Hrun) as Hok.
  set (n := Z.to_nat (off_size / 8)) in *.
  assert (Hasc : ∀ d i : nat, (i + S d < n)%nat →
                   offsets !!! i < offsets !!! (i + S d)%nat).
  { induction d as [|d IH]; intros i Hi.
    - destruct (Hok (i + 1)%nat) as [_ H]; [lia|].
      replace (i + 1 - 1)%nat with i in H by lia. apply H. lia.
    - specialize (IH i ltac:(lia)).
      destruct (Hok (i + S (S d))%nat) as [_ H]; [lia|].
      replace (i + S (S d) - 1)%nat with (i + S d)%nat in H by lia.
      specialize (H ltac:(lia)). lia. }
  assert (Hlt : ∀ i j : nat, (i < j < n)%nat → offsets !!! i < offsets !!! j).
  { intros i j Hij. replace j with (i + S (j - i - 1))%nat by lia.
    apply Hasc. lia. }
  split; [exact Hlt|]. split; [intros i Hi; by apply Hok|].
  apply NoDup_alt. intros i j x Hi Hj.
  apply lookup_take_Some in Hi as [Hi Hin], Hj as [Hj Hjn].
  apply list_lookup_total_correct in Hi, Hj.
  destruct (Nat.lt_trichotomy i j) as [Hc|[Hc|Hc]]; [|done|].
  - specialize (Hlt i j ltac:(lia)). lia.
  - specialize (Hlt j i ltac:(lia)). lia.
Qed.

Lemma accepted_offsets_ascending_witness :
  (0 ≤ 32 ∧ (Z.to_nat (32 / 8) ≤ length [0; 3; 5; 8])%nat ∧
   check_var_attr_offsets (Some [0; 3; 5; 8]) (Some 32) (Some 10) = Done Ok) ∧
  NoDup (take (Z.to_nat (32 / 8)) [0; 3; 5; 8]).
Proof.
  assert (H0 : 0 ≤ 32) by lia.
  assert (Hlen : (Z.to_nat (32 / 8) ≤ length [0; 3; 5; 8])%nat)
    by (vm_compute; lia).
  split; [by repeat split|].
  by apply (accepted_offsets_ascending [0; 3; 5; 8] 32 10 H0 Hlen eq_refl).
Defined.

(** X2. With sizes and a first offset that are not negative (they are
    [uint64_t] in the code), acceptance by [check_var_attr_offsets] means
    that every cell holds at least one byte: the values have at least as
    many bytes as there are offsets, each offset is at least one byte
    before the next, and the last one at least one byte before the end of
    the values. *)
Theorem accepted_offsets_cells_nonempty (offsets : list Z)
    (off_size val_size : Z) :
  0 ≤ off_size → (Z.to_nat (off_size / 8) ≤ length offsets)%nat →
  0 ≤ val_size → 0 ≤ offsets !!! 0%nat →
  check_var_attr_offsets (Some offsets) (Some off_size) (Some val_size)
  = Done Ok →
  off_size / 8 ≤ val_size ∧
  (∀ i : nat, (i + 1 < Z.to_nat (off_size / 8))%nat →
     1 ≤ offsets !!! (i + 1)%nat - offsets !!! i) ∧
  (∀ i : nat, (i + 1 = Z.to_nat (off_size / 8))%nat →
     1 ≤ val_size - offsets !!! i).
Proof.
  intros Hpos Hlen Hval Hfirst Hrun.
  pose proof (proj1 (check_var_attr_offsets_Ok_iff offsets off_size val_size
                       Hpos Hlen) Hrun) as Hok.
  assert (Hn : 0 ≤ off_size / 8) by (apply Z.div_pos; lia).
  set (n := Z.to_nat (off_size / 8)) in *.
  assert (Hgrow : ∀ i : nat, (i < n)%nat → Z.of_nat i ≤ offsets !!! i).
  { induction i as [|i IH]; intros Hi; [done|].
    destruct (Hok (S i)) as [_ H]; [lia|].
    replace (S i - 1)%nat with i in H by lia.
    specialize (H ltac:(lia)). specialize (IH ltac:(lia)). lia. }
  split; [|split].
  - destruct (decide (n = 0%nat)) as [Hz|Hz].
    + lia.
    + destruct (Hok (n - 1)%nat) as [H _]; [lia|].
      specialize (Hgrow (n - 1)%nat ltac:(lia)). lia.
  - intros i Hi. destruct (Hok (i + 1)%nat) as [_ H]; [lia|].
    replace (i + 1 - 1)%nat with i in H by lia. specialize (H ltac:(lia)). lia.
  - intros i Hi. destruct (Hok i) as [H _]; [lia|]. lia.
Qed.

Lemma accepted_offsets_cells_nonempty_witness :
  (0 ≤ 32 ∧ (Z.to_nat (32 / 8) ≤ length [0; 3; 5; 8])%nat ∧ 0 ≤ 10 ∧
   0 ≤ [0; 3; 5; 8] !!! 0%nat ∧
   check_var_attr_offsets (Some [0; 3; 5; 8]) (Some 32) (Some 10) = Done Ok) ∧
  32 / 8 ≤ 10.
Proof.
  assert (H0 : 0 ≤ 32) by lia.
  assert (Hlen : (Z.to_nat (32 / 8) ≤ length [0; 3; 5; 8])%nat)
    by (vm_compute; lia).
  assert (Hv : 0 ≤ 10) by lia.
  assert (Hf : 0 ≤ [0; 3; 5; 8] !!! 0%nat) by (vm_compute; discriminate).
  split; [by repeat split|].
  by apply (accepted_offsets_cells_nonempty [0; 3; 5; 8] 32 10
              H0 Hlen Hv Hf eq_refl).
Defined.

(** The loop reads the offsets at its indices only. *)
Lemma check_var_attr_offsets_loop_ext (offsets offsets' : list Z)
    (val_size : Z) :
  ∀ (indices : list nat) (prev : Z),
    (∀ i, i ∈ indices → offsets !! i = offsets' !! i) →
    check_var_attr_offsets_loop offsets val_size prev indices
    = check_var_attr_offsets_loop offsets' val_size prev indices.
Proof.
  induction indices as [|i indices IH]; intros prev Hsame; [done|].
  cbn [check_var_attr_offsets_loop].
  rewrite <- (Hsame i) by (by left).
  destruct (offsets !! i) as [x|]; cbn [deref obind]; [|done].
  destruct (x <=? prev); [done|]. destruct (x >=? val_size); [done|].
  apply IH. intros j Hj. apply Hsame. by right.
Qed.

(** X3. [check_var_attr_offsets] reads the first [n = offsets_size / 8]
    offsets and nothing after them, and uses the size of the offsets only
    through [n]: two calls whose sizes give the same [n], on buffers that
    agree on their first [n] offsets, end the same way, up to the bytes of
    a last incomplete offset. *)
Theorem check_var_attr_offsets_reads_prefix (offsets offsets' : list Z)
    (off_size off_size' val_size : Z) :
  0 ≤ off_size →
  off_size / 8 = off_size' / 8 →
  take (Z.to_nat (off_size / 8)) offsets
  = take (Z.to_nat (off_size / 8)) offsets' →
  check_var_attr_offsets (Some offsets) (Some off_size) (Some val_size)
  = check_var_attr_offsets (Some offsets') (Some off_size') (Some val_size).
Proof.
  intros Hpos Hq Htake. unfold check_var_attr_offsets. cbv zeta. rewrite <- Hq.
  assert (Hn : 0 ≤ off_size / 8) by (apply Z.div_pos; lia).
  destruct (Z.eqb_spec (off_size / 8) 0) as [H0|H0]; [done|].
  set (n := Z.to_nat (off_size / 8)) in *.
  assert (Hsame : ∀ i, (i < n)%nat → offsets !! i = offsets' !! i).
  { intros i Hi.
    rewrite <- (lookup_take_lt offsets n i), <- (lookup_take_lt offsets' n i)
      by done.
    by rewrite Htake. }
  rewrite <- (Hsame 0%nat) by lia.
  destruct (offsets !! 0%nat) as [x|]; cbn [deref obind]; [|done].
  destruct (x >=? val_size); [done|].
  apply check_var_attr_offsets_loop_ext.
  intros i Hi. apply elem_of_seq in Hi. apply Hsame. lia.
Qed.

Lemma check_var_attr_offsets_reads_prefix_witness :
  (0 ≤ 16 ∧ 16 / 8 = 23 / 8 ∧
   take (Z.to_nat (16 / 8)) [0; 4] = take (Z.to_nat (16 / 8)) [0; 4; 4; 1]) ∧
  check_var_attr_offsets (Some [0; 4]) (Some 16) (Some 9)
  = check_var_attr_offsets (Some [0; 4; 4; 1]) (Some 23) (Some 9).
Proof.
  assert (H0 : 0 ≤ 16) by lia.
  split; [by repeat split|].
  by apply (check_var_attr_offsets_reads_prefix [0; 4] [0; 4; 4; 1] 16 23 9 H0).
Defined.

(** A larger values buffer. *)
Lemma check_var_attr_offsets_loop_mono (offsets : list Z) (val_size val_size' : Z) :
  val_size ≤ val_size' →
  ∀ (indices : list nat) (prev : Z),
    check_var_attr_offsets_loop offsets val_size prev indices = Done Ok →
    check_var_attr_offsets_loop offsets val_size' prev indices = Done Ok.
Proof.
  intros Hle. induction indices as [|i indices IH]; intros prev; [done|].
  cbn [check_var_attr_offsets_loop].
  destruct (offsets !! i) as [x|]; cbn [deref obind]; [|done].
  destruct (x <=? prev); [done|]. rewrite !Z.geb_leb.
  destruct (Z.leb_spec val_size x); [done|].
  destruct (Z.leb_spec val_size' x); [lia|]. apply IH.
Qed.

(** X4. Acceptance by [check_var_attr_offsets] is monotone in the size of
    the values: offsets accepted for a values buffer are accepted for any
    larger one, whichever pointers are null. *)
Theorem check_var_attr_offsets_larger_values (buffer_off : option (list Z))
    (off_size : option Z) (val_size val_size' : Z) :
  val_size ≤ val_size' →
  check_var_attr_offsets buffer_off off_size (Some val_size) = Done Ok →
  check_var_attr_offsets buffer_off off_size (Some val_size') = Done Ok.
Proof.
  intros Hle. unfold check_var_attr_offsets.
  destruct buffer_off as [offsets|], off_size as [os|]; try done. cbv zeta.
  destruct (os / 8 =? 0); [done|].
  destruct (offsets !! 0%nat) as [x|]; cbn [deref obind]; [|done].
  rewrite !Z.geb_leb.
  destruct (Z.leb_spec val_size x); [done|].
  destruct (Z.leb_spec val_size' x); [lia|].
  by apply check_var_attr_offsets_loop_mono.
Qed.

Lemma check_var_attr_offsets_larger_values_witness :
  (10 ≤ 64 ∧
   check_var_attr_offsets (Some [0; 3; 5; 8]) (Some 32) (Some 10) = Done Ok) ∧
  check_var_attr_offsets (Some [0; 3; 5; 8]) (Some 32) (Some 64) = Done Ok.
Proof.
  assert (H : 10 ≤ 64) by lia.
  split; [by split|].
  by apply (check_var_attr_offsets_larger_values (Some [0; 3; 5; 8]) (Some 32)
              10 64 H).
Defined.

(** ** More on the subarray validation *)

Lemma SFleb_key (x y : spec_float) :
  x ≠ S754_nan → y ≠ S754_nan →
  SFleb x y = true ↔ lex_le (sf_key x) (sf_key y).
Proof.
  intros Hx Hy. unfold SFleb, lex_le.
  destruct x as [sx|sx| |sx mx ex], y as [sy|sy| |sy my ey]; try done;
    cbn [SFcompare sf_key fst snd].
  all: try (destruct sx, sy; cbn; split; intros; try done; lia).
  all: try (destruct sx; cbn; split; intros; try done; lia).
  all: try (destruct sy; cbn; split; intros; try done; lia).
  change (PosDef.Pos.compare_cont Eq mx my) with (Pos.compare mx my).
  destruct sx, sy; cbn [fst snd];
    destruct (Z.compare_spec ex ey), (Pos.compare_spec mx my);
    cbn [CompOpp]; split; intros; try done; try lia.
Qed.

Lemma lex_le_trans (a b c : Z * Z * Z) : lex_le a b → lex_le b c → lex_le a c.
Proof. unfold lex_le. lia. Qed.

Lemma numeric_type_le_trans t T (x y z : carrier T) :
  numeric_type t = Some T →
  is_nan T x = false → is_nan T y = false → is_nan T z = false →
  le T x y = true → le T y z = true → le T x z = true.
Proof.
  intros Ht.
  assert (Hf : ∀ prec emax (x y z : carrier (float_type prec emax)),
    is_nan (float_type prec emax) x = false →
    is_nan (float_type prec emax) y = false →
    is_nan (float_type prec emax) z = false →
    le (float_type prec emax) x y = true →
    le (float_type prec emax) y z = true →
    le (float_type prec emax) x z = true).
  { clear. cbn. intros _ _ x y z Nx Ny Nz.
    rewrite !SFleb_key by (first [by destruct x|by destruct y|by destruct z]).
    apply lex_le_trans. }
  destruct t; simplify_eq/=;
    try (intros _ _ _ H1 H2; apply Z.leb_le; apply Z.leb_le in H1, H2; lia);
    first [apply (Hf 24 128) | apply (Hf 53 1024)].
Qed.

(** The switch and the template, on a numeric domain type and a typed
    subarray: the loop over all the dimensions. *)
Lemma check_subarray_bounds_as_loop (E : Engines) NDEBUG (q : Query E)
    schema T sub (s : list (carrier T)) :
  array_schema q = Some schema →
  numeric_type (dom_type (domain schema)) = Some T →
  view T sub = Some s →
  check_subarray_bounds NDEBUG q (Some sub)
  = check_subarray_bounds_loop T (domain schema) s
      (seq 0 (dim_num (domain schema))).
Proof.
  intros Hschema HT Hview.
  rewrite (check_subarray_bounds_numeric _ _ _ _ _ _ Hschema HT).
  unfold check_subarray_bounds_T. by rewrite Hview, Hschema.
Qed.

Lemma check_subarray_bounds_accepts (E : Engines) NDEBUG (q : Query E)
    schema T sub (s : list (carrier T)) :
  array_schema q = Some schema →
  numeric_type (dom_type (domain schema)) = Some T →
  domain_set T (domain schema) →
  view T sub = Some s →
  length s = (2 * dim_num (domain schema))%nat →
  Forall (λ x, is_nan T x = false) s →
  check_subarray_bounds NDEBUG q (Some sub) = Done Ok ↔
  ∀ i, (i < dim_num (domain schema))%nat → ok_at T (domain schema) s i.
Proof.
  intros Hschema HT Hdom Hview Hlen Hnan.
  rewrite (check_subarray_bounds_as_loop _ _ _ _ _ _ _ Hschema HT Hview).
  destruct (check_subarray_bounds_loop_spec T (domain schema) s
              (λ x y, numeric_type_total _ T x y HT)
              (dim_num (domain schema)) 0) as (_ & L & _).
  { intros i Hi. destruct (Hdom i) as (d & Hd & ? & ?); [lia|].
    destruct (range_defined T s (dim_num (domain schema)) i Hlen)
      as (r & Hr & ? & ?); [lia|done|].
    by exists d, r. }
  rewrite L. split; intros H i Hi; apply H; lia.
Qed.

(** X5. [check_subarray_bounds] is monotone under shrinking: on a numeric
    domain type with every dimension set, when a subarray without NaN is
    accepted, so is every subarray without NaN whose ranges are not empty
    and lie inside the ranges of the first, dimension by dimension. *)
Theorem check_subarray_bounds_nested (E : Engines) (NDEBUG : bool)
    (q : Query E) (schema : ArraySchema) (T : NumType) (sub sub' : Buffer)
    (s s' : list (carrier T)) :
  array_schema q = Some schema →
  numeric_type (dom_type (domain schema)) = Some T →
  domain_set T (domain schema) →
  view T sub = Some s → view T sub' = Some s' →
  length s = (2 * dim_num (domain schema))%nat →
  length s' = (2 * dim_num (domain schema))%nat →
  Forall (λ x, is_nan T x = false) s →
  Forall (λ x, is_nan T x = false) s' →
  (∀ i r r', range T s i = Some r → range T s' i = Some r' →
     le T r.1 r'.1 = true ∧ le T r'.1 r'.2 = true ∧ le T r'.2 r.2 = true) →
  check_subarray_bounds NDEBUG q (Some sub) = Done Ok →
  check_subarray_bounds NDEBUG q (Some sub') = Done Ok.
Proof.
  intros Hschema HT Hdom Hview Hview' Hlen Hlen' Hnan Hnan' Hnest Hok.
  rewrite (check_subarray_bounds_accepts _ _ _ _ _ _ _ Hschema HT Hdom Hview
             Hlen Hnan) in Hok.
  apply (check_subarray_bounds_accepts _ _ _ _ _ _ _ Hschema HT Hdom Hview'
           Hlen' Hnan').
  intros i Hi d r' Hd Hr'.
  destruct (Hdom i Hi) as (d0 & Hd0 & Nd1 & Nd2). simplify_eq.
  destruct (range_defined T s _ i Hlen Hi Hnan) as (r & Hr & Nr1 & Nr2).
  assert (Nr1' : is_nan T r'.1 = false ∧ is_nan T r'.2 = false).
  { destruct (range_defined T s' _ i Hlen' Hi Hnan') as (r0 & Hr0 & ? & ?).
    by simplify_eq. }
  destruct Nr1' as [Nr1' Nr2'].
  destruct (Hok i Hi d r Hd Hr) as [[H1 H2] H3].
  destruct (Hnest i r r' Hr Hr') as (N1 & N2 & N3).
  repeat split; [| |done].
  - by apply (numeric_type_le_trans _ T d.1 r.1 r'.1 HT).
  - by apply (numeric_type_le_trans _ T r'.2 r.2 d.2 HT).
Qed.

(** The loop reads the subarray at the two scalars of each index only. *)
Lemma check_subarray_bounds_loop_app T dom (s extra : list (carrier T)) :
  ∀ indices : list nat,
    (∀ i, i ∈ indices → (2 * i + 1 < length s)%nat) →
    check_subarray_bounds_loop T dom (s ++ extra) indices
    = check_subarray_bounds_loop T dom s indices.
Proof.
  induction indices as [|i indices IH]; intros Hin; [done|].
  cbn [check_subarray_bounds_loop].
  assert (Hi : (2 * i + 1 < length s)%nat) by (apply Hin; by left).
  rewrite !lookup_app_l by lia.
  rewrite IH; [done|]. intros j Hj. apply Hin. by right.
Qed.

(** X6. [check_subarray_bounds] reads the [2 * dim_num] scalars of the
    ranges and nothing after them: whatever follows them in memory, the
    outcome is the same. *)
Theorem check_subarray_bounds_reads_prefix (E : Engines) (NDEBUG : bool)
    (q : Query E) (schema : ArraySchema) (T : NumType) (sub sub' : Buffer)
    (s extra : list (carrier T)) :
  array_schema q = Some schema →
  numeric_type (dom_type (domain schema)) = Some T →
  view T sub = Some s → view T sub' = Some (s ++ extra) →
  length s = (2 * dim_num (domain schema))%nat →
  check_subarray_bounds NDEBUG q (Some sub')
  = check_subarray_bounds NDEBUG q (Some sub).
Proof.
  intros Hschema HT Hview Hview' Hlen.
  rewrite (check_subarray_bounds_as_loop _ _ _ _ _ _ _ Hschema HT Hview).
  rewrite (check_subarray_bounds_as_loop _ _ _ _ _ _ _ Hschema HT Hview').
  apply check_subarray_bounds_loop_app.
  intros i Hi. apply elem_of_seq in Hi. lia.
Qed.

(** X7. On a Query whose engine holds no array schema, a null subarray
    passes [check_subarray_bounds], and every non-null subarray is refused
    with the QueryError "Cannot check subarray; Array schema not set";
    [set_subarray] returns this error and leaves the Query as it was,
    without asking the engine. *)
Theorem check_subarray_bounds_no_schema (E : Engines) (NDEBUG : bool)
    (q : Query E) :
  array_schema q = None →
  check_subarray_bounds NDEBUG q None = Done Ok ∧
  ∀ sub, check_subarray_bounds NDEBUG q (Some sub) = Done SchemaNotSet ∧
         set_subarray NDEBUG q (Some sub) = Done (SchemaNotSet, q).
Proof.
  intros Hs. split; [done|]. intros sub.
  unfold set_subarray, check_subarray_bounds. by rewrite Hs.
Qed.

Lemma check_subarray_bounds_nested_witness :
  check_subarray_bounds false (fresh_write unit_interval_schema)
    (Some (FloatArr [d_zero; d_one])) = Done Ok ∧
  check_subarray_bounds false (fresh_write unit_interval_schema)
    (Some (FloatArr [d_half; d_one])) = Done Ok.
Proof.
  assert (Hdom : domain_set double (domain unit_interval_schema)).
  { intros i Hi. destruct i as [|i]; [|cbn in Hi; lia].
    exists (d_zero, d_one). by repeat split. }
  assert (Hfirst : check_subarray_bounds false (fresh_write unit_interval_schema)
    (Some (FloatArr [d_zero; d_one])) = Done Ok) by reflexivity.
  split; [exact Hfirst|].
  apply (check_subarray_bounds_nested (sim_engines true) false
           (fresh_write unit_interval_schema) unit_interval_schema double
           (FloatArr [d_zero; d_one]) (FloatArr [d_half; d_one])
           [d_zero; d_one] [d_half; d_one]
           eq_refl eq_refl Hdom eq_refl eq_refl eq_refl eq_refl);
    [by repeat constructor|by repeat constructor| |exact Hfirst].
  intros i r r' Hr Hr'. destruct i as [|[|i]]; [|done..].
  vm_compute in Hr, Hr'. simplify_eq. cbn [fst snd]. repeat split; vm_compute; reflexivity.
Defined.

Lemma check_subarray_bounds_reads_prefix_witness :
  check_subarray_bounds false (fresh_write ten_cells_schema)
    (Some (IntArr [2; 7; 40; 3]))
  = check_subarray_bounds false (fresh_write ten_cells_schema)
      (Some (IntArr [2; 7])).
Proof.
  apply (check_subarray_bounds_reads_prefix (sim_engines true) false
           (fresh_write ten_cells_schema) ten_cells_schema int32_t
           (IntArr [2; 7]) (IntArr [2; 7; 40; 3]) [2; 7] [40; 3]);
    reflexivity.
Defined.

Lemma check_subarray_bounds_no_schema_witness :
  check_subarray_bounds false
    (sim_query true READ COMPLETED (sim_engine None [] 0)) None = Done Ok ∧
  set_subarray false (sim_query true READ COMPLETED (sim_engine None [] 0))
    (Some (IntArr [2; 7]))
  = Done (SchemaNotSet, sim_query true READ COMPLETED (sim_engine None [] 0)).
Proof.
  destruct (check_subarray_bounds_no_schema (sim_engines true) false
              (sim_query true READ COMPLETED (sim_engine None [] 0)) eq_refl)
    as [Hnull Hsub].
  split; [exact Hnull|]. apply (Hsub (IntArr [2; 7])).
Defined.

(** ** More on the life cycle and the rest of the interface *)

Lemma init_cases (E : Engines) (q : Query E) st q' :
  init q = (st, q') →
  same_shell q q' ∧ other_engine_kept q q' ∧
  (st = Ok ∧ status q' = INPROGRESS ∨
   st ≠ Ok ∧ status q = UNINITIALIZED ∧ status q' = UNINITIALIZED).
Proof.
  unfold init, same_shell, other_engine_kept, status, type, layout.
  destruct (decide (status_ q = UNINITIALIZED)) as [Hu|Hu].
  - destruct (type_ q) eqn:Ht;
      [destruct (reader_init E (reader_ q)) as [st1 r]
      |destruct (writer_init E (writer_ q)) as [st1 w]];
      destruct (ok st1) eqn:Hok; cbn [negb]; intros [= <- <-]; cbn;
      rewrite ?Ht.
    all: (split; [done|]); (split; [done|]).
    all: try (left; by split).
    all: right; apply ok_false in Hok; by split.
  - cbn. intros [= <- <-]. cbn.
    destruct (type_ q); (split; [done|]); (split; [done|]); by left.
Qed.

Lemma process_shell (E : Engines) (q : Query E) :
  same_shell q (process q).1.2 ∧ other_engine_kept q (process q).1.2.
Proof.
  unfold process, same_shell, other_engine_kept, type, layout.
  destruct (decide (status_ q = UNINITIALIZED)) as [Hu|Hu].
  { cbn. by destruct (type_ q). }
  cbn [with_status type_ reader_ writer_].
  destruct (type_ q) eqn:Ht;
    [destruct (reader_read E (reader_ q)) as [st1 r]
    |destruct (writer_write E (writer_ q)) as [st1 w]];
    destruct (ok st1); cbn; rewrite ?Ht; try done.
  by destruct (reader_incomplete E r).
Qed.

Lemma finalize_shell (E : Engines) (q : Query E) :
  same_shell q (finalize q).2 ∧ reader_ (finalize q).2 = reader_ q.
Proof.
  unfold finalize, same_shell, type, layout.
  destruct (decide (status_ q = UNINITIALIZED)) as [Hu|Hu]; [done|].
  destruct (writer_finalize E (writer_ q)) as [st1 w].
  by destruct (ok st1).
Qed.

Lemma set_buffer_shell (E : Engines) (q : Query E) a b bs :
  same_shell q (set_buffer q a b bs).2 ∧
  other_engine_kept q (set_buffer q a b bs).2 ∧
  status (set_buffer q a b bs).2 = status q.
Proof.
  unfold set_buffer, same_shell, other_engine_kept, type, layout, status.
  destruct (type_ q) eqn:Ht; engine_calls; cbn; by rewrite ?Ht.
Qed.

Lemma set_buffer_var_shell (E : Engines) (q : Query E) a o os v vs :
  same_shell q (set_buffer_var q a o os v vs).2 ∧
  other_engine_kept q (set_buffer_var q a o os v vs).2 ∧
  status (set_buffer_var q a o os v vs).2 = status q.
Proof.
  unfold set_buffer_var, same_shell, other_engine_kept, type, layout, status.
  destruct (type_ q) eqn:Ht; engine_calls; cbn; by rewrite ?Ht.
Qed.

Lemma set_layout_shell (E : Engines) (q : Query E) l :
  type (set_layout q l).2 = type q ∧ layout (set_layout q l).2 = l ∧
  callback_ (set_layout q l).2 = callback_ q ∧
  callback_data_ (set_layout q l).2 = callback_data_ q ∧
  status (set_layout q l).2 = status q ∧
  other_engine_kept q (set_layout q l).2.
Proof.
  unfold set_layout, other_engine_kept, type, layout, status.
  cbn [with_layout type_ reader_ writer_].
  destruct (type_ q) eqn:Ht; engine_calls; cbn; by rewrite ?Ht.
Qed.

Lemma set_subarray_shell (E : Engines) NDEBUG (q : Query E) sub st q' :
  set_subarray NDEBUG q sub = Done (st, q') →
  same_shell q q' ∧ other_engine_kept q q' ∧
  (st = Ok ∧ status q' = UNINITIALIZED ∨ st ≠ Ok ∧ status q' = status q).
Proof.
  unfold set_subarray, same_shell, other_engine_kept, type, layout, status.
  destruct (check_subarray_bounds NDEBUG q sub) as [st0| |];
    cbn [obind]; [|done..].
  destruct (ok st0) eqn:Hok0; cbn [negb].
  2:{ intros [= <- <-]. apply ok_false in Hok0.
      destruct (type_ q); by eauto 10. }
  destruct (type_ q) eqn:Ht;
    [destruct (reader_set_subarray E (reader_ q) sub) as [st1 r]
    |destruct (writer_set_subarray E (writer_ q) sub) as [st1 w]];
    destruct (ok st1) eqn:Hok1; cbn [negb]; intros [= <- <-]; cbn;
    rewrite ?Ht; try apply ok_false in Hok1; by eauto 10.
Qed.

Lemma copy_new_shell (E : Engines) (q : Query E) name b :
  same_shell q (copy_new q name b) ∧ other_engine_kept q (copy_new q name b).
Proof.
  unfold copy_new. destruct (buffer_var_ b) as [v|].
  - by destruct (set_buffer_var_shell E q name (Some v)
                   (buffer_var_size_ b) (buffer_ b) (buffer_size_ b))
      as (? & ? & _).
  - by destruct (set_buffer_shell E q name (buffer_ b) (buffer_size_ b))
      as (? & ? & _).
Qed.

Lemma same_shell_trans (E : Engines) (q1 q2 q3 : Query E) :
  same_shell q1 q2 → same_shell q2 q3 → same_shell q1 q3.
Proof. unfold same_shell. intuition congruence. Qed.

Lemma other_engine_kept_trans (E : Engines) (q1 q2 q3 : Query E) :
  type q2 = type q1 →
  other_engine_kept q1 q2 → other_engine_kept q2 q3 → other_engine_kept q1 q3.
Proof.
  unfold other_engine_kept. intros ->. destruct (type q1); congruence.
Qed.

Lemma copy_buffers_loop_shell (E : Engines) ex :
  ∀ l (q : Query E) h st q' h',
    copy_buffers_loop ex l q h = Done (st, q', h') →
    same_shell q q' ∧ other_engine_kept q q'.
Proof.
  induction l as [|[n db] l IH]; intros q h st q' h';
    cbn [copy_buffers_loop fst snd].
  - intros [= _ <- _]. split; [done|].
    unfold other_engine_kept. by destruct (type q).
  - destruct (find ex n) as [eb|].
    + destruct (copy_existing eb db h) as [[st0 h0]| |]; cbn [obind fst snd];
        [|done..].
      destruct (ok st0); cbn [negb]; [apply IH|].
      intros [= _ <- _]. split; [done|].
      unfold other_engine_kept. by destruct (type q).
    + intros H. apply IH in H as [H1 H2].
      destruct (copy_new_shell E q n db) as [H3 H4]. split.
      * by apply (same_shell_trans _ _ _ _ H3).
      * apply (other_engine_kept_trans _ _ _ _ (proj1 H3) H4 H2).
Qed.

Lemma uninitialized_refused (E : Engines) (X : EngineAccessors E)
    (q : Query E) :
  status q = UNINITIALIZED →
  process q = (NotInitialized, q, []) ∧ finalize q = (Ok, q) ∧
  has_results X q = false.
Proof.
  unfold status, process, finalize, has_results. intros ->.
  by rewrite !decide_True by done.
Qed.

(** X8. After a successful [set_subarray] the Query has to be initialised
    again: [process] is refused with NotInitialized and changes nothing,
    [finalize] returns OK without finalizing the writer, and [has_results]
    is false. *)
Theorem set_subarray_then_process (E : Engines) (X : EngineAccessors E)
    (NDEBUG : bool) (q : Query E) (sub : option Buffer) (q' : Query E) :
  set_subarray NDEBUG q sub = Done (Ok, q') →
  process q' = (NotInitialized, q', []) ∧ finalize q' = (Ok, q') ∧
  has_results X q' = false.
Proof.
  intros H. apply uninitialized_refused.
  by apply (set_subarray_Ok_resets _ _ _ _ _ H).
Qed.

Lemma set_subarray_then_process_witness :
  set_subarray false (accepting COMPLETED) (Some (IntArr [2; 7]))
  = Done (Ok, subarray_set) ∧
  (process subarray_set).1.1
  = NotInitialized.
Proof.
  assert (H : set_subarray false (accepting COMPLETED) (Some (IntArr [2; 7]))
    = Done (Ok, subarray_set))
    by reflexivity.
  split; [exact H|].
  destruct (set_subarray_then_process (sim_engines true) (sim_accessors true)
              false _ _ _ H) as (Hp & _ & _).
  by rewrite Hp.
Defined.


(** X9. [init] runs the initialisation of the engine only on a Query
    that is UNINITIALIZED.  Called after [cancel], even on a Query that was
    never initialised, it returns OK and sets INPROGRESS without calling
    the engine; and a second [init] after a successful one changes
    nothing. *)
Theorem init_skips_initialized (E : Engines) (q : Query E) :
  init (cancel q).2 = (Ok, with_status q INPROGRESS) ∧
  ((init q).1 = Ok → init (init q).2 = (Ok, (init q).2)).
Proof.
  split; [done|].
  destruct (init q) as [st q'] eqn:Hi. cbn [fst snd]. intros ->.
  destruct (init_cases _ _ _ _ Hi) as (_ & _ & [[_ Hs]|[? _]]); [|done].
  unfold init, status in *. rewrite Hs.
  rewrite decide_False by done. cbn. f_equal.
  destruct q'. cbn in *. by subst.
Qed.

(** X10. [init] either returns OK and leaves the status INPROGRESS, or
    returns the error of the initialisation of the engine the type
    selects; in that case the Query was UNINITIALIZED and stays so:
    [process] afterwards is refused with NotInitialized and [finalize] is
    a no-op. *)
Theorem init_outcome (E : Engines) (q : Query E) (st : Status)
    (q' : Query E) :
  init q = (st, q') →
  (st = Ok → status q' = INPROGRESS) ∧
  (st ≠ Ok →
   status q = UNINITIALIZED ∧
   st = match type q with
        | READ => (reader_init E (reader_ q)).1
        | WRITE => (writer_init E (writer_ q)).1
        end ∧
   process q' = (NotInitialized, q', []) ∧ finalize q' = (Ok, q')).
Proof.
  intros Hi.
  destruct (init_cases _ _ _ _ Hi) as (_ & _ & [[-> Hs]|(Hne & Hu & Hu')]).
  { split; [done|]. by intros []. }
  split; [done|]. intros _. split; [done|]. split.
  - revert Hi. unfold init, status, type in *. rewrite Hu.
    rewrite decide_True by done.
    destruct (type_ q);
      [destruct (reader_init E (reader_ q)) as [st1 r]
      |destruct (writer_init E (writer_ q)) as [st1 w]];
      destruct (ok st1) eqn:Hok; cbn [negb fst]; intros [= <- <-]; done.
  - unfold status, process, finalize in *. rewrite Hu'.
    by rewrite !decide_True by done.
Qed.

(** X11. [finalize] does not look at the type: on a READ query it
    finalizes the writer, as on a WRITE query, with the same status and
    the same effect on the Query; and it never assigns to the reader. *)
Theorem finalize_ignores_type (E : Engines) (q : Query E) (t : QueryType) :
  finalize (with_type q t)
  = ((finalize q).1, with_type (finalize q).2 t) ∧
  reader_ (finalize q).2 = reader_ q.
Proof.
  split; [|apply finalize_shell].
  unfold finalize. cbn [with_type status_ writer_].
  destruct (decide (status_ q = UNINITIALIZED)); [done|].
  destruct (writer_finalize E (writer_ q)) as [st1 w].
  by destruct (ok st1).
Qed.

(** X12. The callback has no influence on what [process] returns or on
    the Query it leaves; and the only callback a call of [process] can
    invoke is the one registered last, once, with the data registered with
    it: after [set_callback] with a null callback nothing is invoked. *)
Theorem process_callback_independent (E : Engines) (q : Query E)
    (callback : option Callback) (callback_data : ptr) :
  (process (set_callback q callback callback_data)).1
  = ((process q).1.1, set_callback (process q).1.2 callback callback_data) ∧
  ((process (set_callback q callback callback_data)).2 = [] ∨
   ∃ f, callback = Some f ∧
        (process (set_callback q callback callback_data)).2
        = [CallbackInvoked f callback_data INPROGRESS]).
Proof.
  unfold process. cbn [set_callback status_ type_ with_status reader_ writer_
                       callback_ callback_data_].
  destruct (decide (status_ q = UNINITIALIZED)); [by split; [|left]|].
  destruct (type_ q) eqn:Ht;
    [destruct (reader_read E (reader_ q)) as [st1 r]
    |destruct (writer_write E (writer_ q)) as [st1 w]];
    destruct (ok st1); cbn; rewrite ?Ht; try (by split; [|left]).
  - destruct (reader_incomplete E r); cbn; [by split; [|left]|].
    split; [done|]. destruct callback as [f|]; [right; by exists f|by left].
  - split; [done|]. destruct callback as [f|]; [right; by exists f|by left].
Qed.

Lemma call_type (E : Engines) (X : EngineAccessors E) NDEBUG (q q' : Query E) :
  call X NDEBUG q q' →
  type q' = type q ∧ (type q = WRITE → reader_ q' = reader_ q).
Proof.
  assert (K : ∀ a b : Query E, same_shell a b → other_engine_kept a b →
                type b = type a ∧ (type a = WRITE → reader_ b = reader_ a)).
  { intros a b (Ht & _) Ho. split; [done|]. intros Hw.
    unfold other_engine_kept in Ho. by rewrite Hw in Ho. }
  destruct 1.
  - destruct (finalize_shell E q) as [(? & _) ?]. by split.
  - destruct (init q) as [st q'] eqn:Hi.
    destruct (init_cases _ _ _ _ Hi) as (? & ? & _). by apply K.
  - done.
  - destruct (process_shell E q). by apply K.
  - destruct (set_buffer_shell E q attribute buffer buffer_size) as (? & ? & _).
    by apply K.
  - destruct (set_buffer_var_shell E q attribute buffer_off buffer_off_size
                buffer_val buffer_val_size) as (? & ? & _). by apply K.
  - done.
  - unfold set_fragment_uri, type. destruct (type_ q) eqn:Ht; cbn; by rewrite ?Ht.
  - done.
  - destruct (set_layout_shell E q l) as (Ht & _ & _ & _ & _ & Ho).
    split; [done|]. intros Hw. unfold other_engine_kept in Ho.
    by rewrite Hw in Ho.
  - done.
  - unfold set_storage_manager, type. destruct (type_ q) eqn:Ht; cbn; by rewrite ?Ht.
  - destruct (set_subarray_shell _ _ _ _ _ _ H) as (? & ? & _). by apply K.
  - unfold set_array_schema, type. destruct (type_ q) eqn:Ht; cbn; by rewrite ?Ht.
  - unfold set_fragment_metadata, type. destruct (type_ q) eqn:Ht; cbn; by rewrite ?Ht.
  - apply copy_buffers_loop_shell in H as [? ?]. by apply K.
Qed.

(** X13. The type is fixed for the life of a Query: no sequence of calls
    of [finalize], [init], [cancel], [process], the two [set_buffer],
    [set_callback], [set_fragment_uri], [set_writer], [set_layout],
    [set_status], [set_storage_manager], [set_subarray],
    [set_array_schema], [set_fragment_metadata] and [copy_buffers] changes
    it (only [copy_json_wip] assigns it); and on a WRITE query none of
    them assigns to the reader. *)
Theorem type_never_changes (E : Engines) (X : EngineAccessors E)
    (NDEBUG : bool) (q q' : Query E) :
  rtc (call X NDEBUG) q q' →
  type q' = type q ∧ (type q = WRITE → reader_ q' = reader_ q).
Proof.
  induction 1 as [q|q q1 q2 Hc _ [IHt IHr]]; [done|].
  apply call_type in Hc as [Ht Hr]. split; [congruence|].
  intros Hw. rewrite IHr by congruence. by apply Hr.
Qed.

Lemma init_outcome_witness :
  init never_initialized = (EngineError "no buffers set", never_initialized) ∧
  process never_initialized = (NotInitialized, never_initialized, []).
Proof.
  assert (H : init never_initialized
              = (EngineError "no buffers set", never_initialized))
    by reflexivity.
  split; [exact H|].
  destruct (init_outcome failing_init_engines _ _ _ H) as [_ Herr].
  destruct Herr as (_ & _ & Hp & _); [discriminate|]. exact Hp.
Defined.

Lemma type_never_changes_witness :
  type (finalize (process (init (fresh_write ten_cells_schema)).2).1.2).2
  = WRITE.
Proof.
  apply (type_never_changes (sim_engines true) (sim_accessors true) false
           (fresh_write ten_cells_schema)).
  eapply rtc_l; [apply call_init|].
  eapply rtc_l; [apply call_process|].
  eapply rtc_l; [apply call_finalize|].
  apply rtc_refl.
Defined.

(** The three setters of the constructors assign to an engine only. *)
Lemma engine_setters_shell (E : Engines) (X : EngineAccessors E)
    (q : Query E) sm schema fm :
  same_shell q
    (set_fragment_metadata X
       (set_array_schema X (set_storage_manager X q sm) schema) fm) ∧
  status (set_fragment_metadata X
            (set_array_schema X (set_storage_manager X q sm) schema) fm)
  = status q.
Proof.
  unfold set_fragment_metadata, set_array_schema, set_storage_manager,
    same_shell, type, layout, status.
  destruct (type_ q) eqn:Ht; repeat (cbn; rewrite ?Ht); done.
Qed.

(** X14. A Query just constructed has the type it was given, the status
    UNINITIALIZED and the layout ROW_MAJOR, whatever the setters of the
    constructor do to the engines: [process] on it is refused with
    NotInitialized, [finalize] is a no-op and [has_results] is false. *)
Theorem Query_new_uninitialized (E : Engines) (X : EngineAccessors E)
    (sm : ptr) (t : QueryType) (schema : option ArraySchema)
    (fm : list ptr) :
  type (Query_new X sm t schema fm) = t ∧
  status (Query_new X sm t schema fm) = UNINITIALIZED ∧
  layout (Query_new X sm t schema fm) = ROW_MAJOR ∧
  process (Query_new X sm t schema fm)
  = (NotInitialized, Query_new X sm t schema fm, []) ∧
  finalize (Query_new X sm t schema fm) = (Ok, Query_new X sm t schema fm) ∧
  has_results X (Query_new X sm t schema fm) = false.
Proof.
  unfold Query_new.
  destruct (engine_setters_shell E X
              (Build_Query E t UNINITIALIZED ROW_MAJOR None None
                 (reader_new X) (writer_new X)) sm schema fm)
    as [(Ht & Hl & _) Hs].
  split; [exact Ht|]. split; [exact Hs|]. split; [exact Hl|].
  by apply uninitialized_refused.
Qed.

(** X15. The constructor of a WRITE query drops the fragment metadata it
    is given: the Query is the one built with no fragment metadata, its
    reader is the default-constructed one, and [fragment_metadata],
    [fragment_num], [fragment_uris] and [last_fragment_uri] answer with
    nothing, zero, nothing and the empty URI. *)
Theorem Query_new_write_ignores_fragments (E : Engines)
    (X : EngineAccessors E) (sm : ptr) (schema : option ArraySchema)
    (fm : list ptr) :
  Query_new X sm WRITE schema fm = Query_new X sm WRITE schema [] ∧
  reader_ (Query_new X sm WRITE schema fm) = reader_new X ∧
  fragment_metadata X (Query_new X sm WRITE schema fm) = [] ∧
  fragment_num X (Query_new X sm WRITE schema fm) = 0%N ∧
  fragment_uris X (Query_new X sm WRITE schema fm) = [] ∧
  last_fragment_uri X (Query_new X sm WRITE schema fm) = "".
Proof. done. Qed.

(** X16. The copy constructor gives a Query with the type, the layout,
    the callback, the callback data and the status of the original,
    whatever the engine answers to [set_layout] and whatever the setters
    do to the engines. *)
Theorem Query_copy_shell (E : Engines) (X : EngineAccessors E)
    (query : Query E) :
  same_shell query (Query_copy X query) ∧
  status (Query_copy X query) = status query.
Proof.
  unfold Query_copy.
  set (q0 := Build_Query E (type query) UNINITIALIZED ROW_MAJOR
               (callback_ query) (callback_data_ query)
               (reader_new X) (writer_new X)).
  destruct (set_layout_shell E q0 (layout query))
    as (Ht & Hl & Hc & Hd & _ & _).
  destruct (set_layout q0 (layout query)) as [st q1]. cbn [snd] in *.
  destruct (engine_setters_shell E X (with_status q1 (status query))
              (storage_manager X query) (array_schema query)
              (fragment_metadata X query)) as [(Ht' & Hl' & Hc' & Hd') Hs'].
  split; [|exact Hs'].
  unfold same_shell. rewrite Ht', Hl', Hc', Hd'.
  unfold type, layout in *.
  cbn [with_status type_ layout_ callback_ callback_data_].
  by rewrite Ht, Hl, Hc, Hd.
Qed.

(** X17. The copy constructor sees the original only through its type,
    status, layout, callback, storage manager, array schema and fragment
    metadata: two Queries that agree on these have the same copy.  The
    buffers and the subarray of the original are not copied. *)
Theorem Query_copy_observes (E : Engines) (X : EngineAccessors E)
    (query query' : Query E) :
  type query = type query' → status query = status query' →
  layout query = layout query' →
  callback_ query = callback_ query' →
  callback_data_ query = callback_data_ query' →
  storage_manager X query = storage_manager X query' →
  array_schema query = array_schema query' →
  fragment_metadata X query = fragment_metadata X query' →
  Query_copy X query = Query_copy X query'.
Proof.
  unfold Query_copy. by intros -> -> -> -> -> -> -> ->.
Qed.

Lemma Query_copy_observes_witness :
  attribute_buffers donor_fixed ≠ attribute_buffers (holder []) ∧
  Query_copy (sim_accessors true) donor_fixed
  = Query_copy (sim_accessors true) (holder []).
Proof.
  split; [discriminate|].
  by apply (Query_copy_observes (sim_engines true) (sim_accessors true)
              donor_fixed (holder [])).
Defined.

(** X18. [set_writer] replaces the writer and hands the array schema of
    the old writer to the new one: for a writer that returns the schema it
    was last given, the array schema of the Query is the same after the
    call; the type, the layout, the callback, the status and the reader
    are untouched. *)
Theorem set_writer_keeps_schema (E : Engines) (X : EngineAccessors E)
    (q : Query E) (j : Json X) :
  (∀ w schema,
     writer_array_schema E (writer_set_array_schema X w schema) = schema) →
  array_schema (set_writer X q j) = array_schema q ∧
  same_shell q (set_writer X q j) ∧
  status (set_writer X q j) = status q ∧
  reader_ (set_writer X q j) = reader_ q.
Proof.
  intros Hlaw. split; [|done].
  unfold set_writer, array_schema. cbn [with_writer type_ writer_ reader_].
  destruct (type_ q); [done|apply Hlaw].
Qed.

Lemma set_writer_keeps_schema_witness :
  array_schema (set_writer (sim_accessors true)
                  (fresh_write ten_cells_schema)
                  (sim_engine (Some grid_schema) [] 0))
  = Some ten_cells_schema.
Proof.
  apply (set_writer_keeps_schema (sim_engines true) (sim_accessors true)
           (fresh_write ten_cells_schema) (sim_engine (Some grid_schema) [] 0)).
  intros w schema. reflexivity.
Defined.

(** X19. Both overloads of [set_buffer] assign to the engine the type
    selects and to nothing else: the type, the layout, the callback, the
    status and the other engine are the same after the call, whatever the
    engine answers. *)
Theorem set_buffer_keeps_status (E : Engines) (q : Query E)
    (attribute : string)
    (buffer buffer_size buffer_off buffer_off_size buffer_val buffer_val_size
       : ptr) :
  (same_shell q (set_buffer q attribute buffer buffer_size).2 ∧
   other_engine_kept q (set_buffer q attribute buffer buffer_size).2 ∧
   status (set_buffer q attribute buffer buffer_size).2 = status q) ∧
  (same_shell q
     (set_buffer_var q attribute buffer_off buffer_off_size
        buffer_val buffer_val_size).2 ∧
   other_engine_kept q
     (set_buffer_var q attribute buffer_off buffer_off_size
        buffer_val buffer_val_size).2 ∧
   status (set_buffer_var q attribute buffer_off buffer_off_size
             buffer_val buffer_val_size).2 = status q).
Proof. split; [apply set_buffer_shell|apply set_buffer_var_shell]. Qed.

(** ** More on the buffer copy *)

Lemma copy_existing_moves h (eb db : AttributeBuffer) :
  pair_ok h (eb, db) →
  NoDup (payload_locs (eb, db)) → NoDup (size_locs (eb, db)) →
  sizes_agree h (eb, db) →
  ∃ h', copy_existing eb db h = Done (Ok, h') ∧ moved h h' (eb, db).
Proof.
  intros (Be & Bd & Bv) NDp NDs [Hfa Hva].
  destruct Be as (l1 & c1 & to & es & Hl1 & Hc1 & Hto & Hes & Hcap1).
  destruct Bd as (l2 & c2 & from & ds & Hl2 & Hc2 & Hfrom & Hds & Hcap2).
  cbn [fst snd] in *.
  set (PL := [buffer_ eb; buffer_var_ eb; buffer_ db; buffer_var_ db]).
  set (SL := [buffer_size_ eb; buffer_var_size_ eb;
              buffer_size_ db; buffer_var_size_ db]).
  assert (P0 : PL !! 0%nat = Some (Some l1)) by (by cbn; rewrite Hl1).
  assert (P2 : PL !! 2%nat = Some (Some l2)) by (by cbn; rewrite Hl2).
  assert (S0 : SL !! 0%nat = Some (Some c1)) by (by cbn; rewrite Hc1).
  assert (S2 : SL !! 2%nat = Some (Some c2)) by (by cbn; rewrite Hc2).
  assert (Pdiff : ∀ i j x y, PL !! i = Some (Some x) → PL !! j = Some (Some y) →
                             i ≠ j → x ≠ y).
  { intros i j x y Hi Hj Hij ->. apply Hij.
    by apply (NoDup_non_null_lookup PL i j y NDp). }
  assert (Sdiff : ∀ i j x y, SL !! i = Some (Some x) → SL !! j = Some (Some y) →
                             i ≠ j → x ≠ y).
  { intros i j x y Hi Hj Hij ->. apply Hij.
    by apply (NoDup_non_null_lookup SL i j y NDs). }
  assert (Hne12 : l1 ≠ l2) by (by apply (Pdiff 0%nat 2%nat)).
  assert (Hnc12 : c1 ≠ c2) by (by apply (Sdiff 0%nat 2%nat)).
  unfold fixed_agree, size_of in Hfa, Hva. cbn [fst snd] in Hfa, Hva.
  rewrite Hc1, Hc2 in Hfa. cbn [mbind option_bind] in Hfa.
  rewrite Hes, Hds in Hfa. simplify_eq.
  unfold copy_existing, moved, block_moved, size_of, bytes_of.
  cbn [fst snd]. rewrite Hl1, Hc1, Hl2, Hc2. cbn [mbind option_bind].
  rewrite (load_size_Some _ _ _ Hes), (load_size_Some _ _ _ Hds).
  cbn [obind]. rewrite decide_False by (by intros []).
  rewrite (memcpy_Done h l1 l2 to from ds) by (done || lia).
  cbn [obind].
  erewrite free_payload_Done
    by (cbn [payload]; rewrite lookup_insert_ne by done; exact Hfrom).
  cbn [obind payload sizes].
  erewrite free_size_Done by (cbn [sizes]; exact Hds).
  cbn [obind payload sizes].
  destruct (buffer_var_ db) as [l4|] eqn:Hl4.
  2:{ eexists. split; [reflexivity|]. cbn [payload sizes]. split.
      { exists ds, to, from.
        rewrite lookup_delete_ne, lookup_insert_eq, lookup_delete_eq,
          lookup_delete_eq by done. done. }
      split; [by rewrite lookup_delete_ne|]. by intros [? ?]. }
  destruct Bv as [Bev Bdv]; [by eauto|].
  destruct Bev as (l3 & c3 & to' & evs & Hl3 & Hc3 & Hto' & Hevs & Hcap3).
  destruct Bdv as (l4' & c4 & from' & dvs & Hl4' & Hc4 & Hfrom' & Hdvs & Hcap4).
  simplify_eq.
  assert (P1 : PL !! 1%nat = Some (Some l3)) by (by cbn; rewrite Hl3).
  assert (P3 : PL !! 3%nat = Some (Some l4')) by (by cbn; rewrite ?Hl4).
  assert (S1 : SL !! 1%nat = Some (Some c3)) by (by cbn; rewrite Hc3).
  assert (S3 : SL !! 3%nat = Some (Some c4)) by (by cbn; rewrite Hc4).
  assert (l1 ≠ l3) by (by apply (Pdiff 0%nat 1%nat)).
  assert (l1 ≠ l4') by (by apply (Pdiff 0%nat 3%nat)).
  assert (l2 ≠ l3) by (by apply (Pdiff 2%nat 1%nat)).
  assert (l2 ≠ l4') by (by apply (Pdiff 2%nat 3%nat)).
  assert (l3 ≠ l4') by (by apply (Pdiff 1%nat 3%nat)).
  assert (c2 ≠ c3) by (by apply (Sdiff 2%nat 1%nat)).
  assert (c2 ≠ c4) by (by apply (Sdiff 2%nat 3%nat)).
  assert (c1 ≠ c4) by (by apply (Sdiff 0%nat 3%nat)).
  assert (c3 ≠ c4) by (by apply (Sdiff 1%nat 3%nat)).
  specialize (Hva ltac:(eauto)).
  rewrite Hc3, Hc4 in Hva. cbn [mbind option_bind] in Hva.
  rewrite Hevs, Hdvs in Hva. simplify_eq.
  rewrite Hl3, Hc3, Hc4. cbn [mbind option_bind].
  erewrite !load_size_Some
    by (cbn [sizes]; rewrite lookup_delete_ne by done; eassumption).
  cbn [obind]. rewrite decide_False by (by intros []).
  erewrite (memcpy_Done _ l3 l4' to' from' dvs);
    [|cbn [payload]; rewrite lookup_delete_ne, lookup_insert_ne by done;
      eassumption..|lia|lia|done].
  cbn [obind payload sizes].
  erewrite free_payload_Done
    by (cbn [payload];
        rewrite lookup_insert_ne, lookup_delete_ne, lookup_insert_ne by done;
        exact Hfrom').
  cbn [obind payload sizes].
  erewrite free_size_Done
    by (cbn [sizes]; rewrite lookup_delete_ne by done; exact Hdvs).
  eexists. split; [reflexivity|]. cbn [payload sizes]. split.
  { exists ds, to, from.
    rewrite (lookup_delete_ne _ l4' l1), (lookup_insert_ne _ l3 l1),
      (lookup_delete_ne _ l2 l1), lookup_insert_eq by done.
    rewrite (lookup_delete_ne _ l4' l2), (lookup_insert_ne _ l3 l2),
      lookup_delete_eq by done.
    rewrite (lookup_delete_ne _ c4 c2), lookup_delete_eq by done. done. }
  split; [by rewrite !lookup_delete_ne|]. intros _. split.
  { exists dvs, to', from'.
    rewrite (lookup_delete_ne _ l4' l3), lookup_insert_eq by done.
    rewrite !lookup_delete_eq. done. }
  by rewrite !lookup_delete_ne.
Qed.

(** [moved] depends on the two heaps only through the cells of the pair. *)
Lemma moved_agree h0 h0' h h' (p : AttributeBuffer * AttributeBuffer) :
  (∀ l, l ∈ payload_locs p → payload h0 !! l = payload h !! l) →
  (∀ c, c ∈ size_locs p → sizes h0 !! c = sizes h !! c) →
  (∀ l, l ∈ payload_locs p → payload h0' !! l = payload h' !! l) →
  (∀ c, c ∈ size_locs p → sizes h0' !! c = sizes h' !! c) →
  moved h h' p → moved h0 h0' p.
Proof.
  intros Hp Hs Hp' Hs'. unfold moved, block_moved.
  rewrite !(size_of_agree h h0 p), !(size_of_agree h' h0' p),
    !(bytes_of_agree h h0 p), !(bytes_of_agree h' h0' p)
    by (done || set_solver).
  done.
Qed.

Lemma copy_buffers_loop_moves (E : Engines) ex :
  ∀ l (q : Query E) h,
    separated (matches ex l) → Forall (pair_ok h) (matches ex l) →
    Forall (sizes_agree h) (matches ex l) →
    ∃ q' h',
      copy_buffers_loop ex l q h = Done (Ok, q', h') ∧
      Forall (moved h h') (matches ex l).
Proof.
  induction l as [|[n db] l IH]; intros q h Hsep Hok Hag.
  { exists q, h. by split. }
  cbn [copy_buffers_loop fst snd].
  destruct (find ex n) as [eb|] eqn:Hfind.
  2:{ rewrite (matches_cons_None _ _ _ _ Hfind) in *. by apply IH. }
  rewrite (matches_cons_Some _ _ _ _ _ Hfind) in *.
  destruct Hsep as [NDp NDs]. cbn [mbind list_bind] in NDp, NDs.
  apply NoDup_app in NDp as (NDp1 & NDp12 & NDp2).
  apply NoDup_app in NDs as (NDs1 & NDs12 & NDs2).
  apply Forall_cons in Hok as [Hok1 Hok2].
  apply Forall_cons in Hag as [Hag1 Hag2].
  destruct (copy_existing_moves h eb db Hok1 NDp1 NDs1 Hag1)
    as (h0 & Hrun & Hmoved).
  destruct (copy_existing_spec h eb db Hok1 NDp1 NDs1)
    as (st0 & h0' & Hrun' & [Hap Has] & _).
  rewrite Hrun in Hrun'. simplify_eq.
  rewrite Hrun. cbn [obind fst snd ok negb].
  assert (Hrest_p : ∀ p x, p ∈ matches ex l → x ∈ payload_locs p →
                           payload h0' !! x = payload h !! x).
  { intros p x Hp Hx. apply Hap. intros Hin. apply (NDp12 x Hin).
    apply list_elem_of_bind. eauto. }
  assert (Hrest_s : ∀ p c, p ∈ matches ex l → c ∈ size_locs p →
                           sizes h0' !! c = sizes h !! c).
  { intros p c Hp Hc. apply Has. intros Hin. apply (NDs12 c Hin).
    apply list_elem_of_bind. eauto. }
  assert (Hok0 : Forall (pair_ok h0') (matches ex l)).
  { rewrite Forall_forall in Hok2 |- *. intros p Hp.
    apply (pair_ok_agree h h0' p); eauto. }
  assert (Hag0 : Forall (sizes_agree h0') (matches ex l)).
  { rewrite Forall_forall in Hag2 |- *. intros p Hp.
    apply (sizes_agree_agree h h0' p); eauto. }
  destruct (IH q h0' (conj NDp2 NDs2) Hok0 Hag0) as (q' & h' & Hloop & Hm).
  destruct (copy_buffers_loop_spec E ex l q h0' (conj NDp2 NDs2) Hok0)
    as (st1 & q1 & h1 & Hloop' & _ & _ & [Hap' Has'] & _).
  rewrite Hloop in Hloop'. simplify_eq.
  exists q1, h1. split; [done|]. apply Forall_cons. split.
  - apply (moved_agree h h1 h h0' (eb, db)); [done|done| | |done].
    + intros x Hx. apply Hap'. intros Hin. by apply (NDp12 x Hx).
    + intros c Hc. apply Has'. intros Hin. by apply (NDs12 c Hc).
  - rewrite Forall_forall in Hm |- *. intros p Hp.
    apply (moved_agree h h1 h0' h1 p); eauto.
    + intros x Hx. symmetry. eauto.
    + intros c Hc. symmetry. eauto.
Qed.

(** X20. When every buffer the two queries share is an allocation of its
    own that can hold its size, and all the sizes the loop compares are
    equal, [copy_buffers] returns OK and moves every shared buffer: the
    buffer of the receiver starts with the bytes of the donor, as many as
    the donor announced; the payload of the donor and its size cell are
    released; the size cells of the receiver hold what they held; and all
    memory outside the shared buffers is as before. *)
Theorem copy_buffers_moves (E : Engines) (q donor : Query E) (h : Heap) :
  separated (matches (attribute_buffers q) (attribute_buffers donor)) →
  Forall (pair_ok h) (matches (attribute_buffers q) (attribute_buffers donor)) →
  Forall (sizes_agree h)
    (matches (attribute_buffers q) (attribute_buffers donor)) →
  ∃ q' h',
    copy_buffers q donor h = Done (Ok, q', h') ∧
    Forall (moved h h')
      (matches (attribute_buffers q) (attribute_buffers donor)) ∧
    agree_off
      (matches (attribute_buffers q) (attribute_buffers donor) ≫= payload_locs)
      (matches (attribute_buffers q) (attribute_buffers donor) ≫= size_locs)
      h h'.
Proof.
  intros Hsep Hok Hag. unfold copy_buffers.
  destruct (copy_buffers_loop_moves E _ _ q h Hsep Hok Hag)
    as (q' & h' & Hrun & Hm).
  destruct (copy_buffers_loop_spec E _ _ q h Hsep Hok)
    as (st1 & q1 & h1 & Hrun' & _ & _ & Hoff & _).
  rewrite Hrun in Hrun'. simplify_eq. by exists q1, h1.
Qed.

Lemma copy_buffers_moves_witness :
  (separated (matches (attribute_buffers receiver_var)
                (attribute_buffers donor_var)) ∧
   Forall (pair_ok heap_var_equal)
     (matches (attribute_buffers receiver_var) (attribute_buffers donor_var)) ∧
   Forall (sizes_agree heap_var_equal)
     (matches (attribute_buffers receiver_var) (attribute_buffers donor_var))) ∧
  ∃ q' h',
    copy_buffers receiver_var donor_var heap_var_equal = Done (Ok, q', h') ∧
    Forall (moved heap_var_equal h')
      [(var_buffer 3%positive 4%positive, var_buffer 5%positive 6%positive)].
Proof.
  assert (Hsep : separated (matches (attribute_buffers receiver_var)
                              (attribute_buffers donor_var))).
  { split; compute_done. }
  assert (Hok : Forall (pair_ok heap_var_equal)
     (matches (attribute_buffers receiver_var) (attribute_buffers donor_var))).
  { replace (matches (attribute_buffers receiver_var)
               (attribute_buffers donor_var))
      with [(var_buffer 3%positive 4%positive,
             var_buffer 5%positive 6%positive)]
      by (vm_compute; reflexivity).
    apply Forall_cons; split; [|constructor].
    split; [block_ok_tac|split; [block_ok_tac|]].
    intros _. split; block_ok_tac. }
  assert (Hag : Forall (sizes_agree heap_var_equal)
     (matches (attribute_buffers receiver_var) (attribute_buffers donor_var))).
  { replace (matches (attribute_buffers receiver_var)
               (attribute_buffers donor_var))
      with [(var_buffer 3%positive 4%positive,
             var_buffer 5%positive 6%positive)]
      by (vm_compute; reflexivity).
    apply Forall_cons; split; [|constructor].
    split; [vm_compute; reflexivity|]. intros _. vm_compute. reflexivity. }
  split; [exact (conj Hsep (conj Hok Hag))|].
  destruct (copy_buffers_moves (sim_engines true) receiver_var donor_var
              heap_var_equal Hsep Hok Hag) as (q' & h' & Hrun & Hm & _).
  by exists q', h'.
Defined.

(** The status of one copy is [Ok] or one of the two mismatch errors. *)
Lemma copy_existing_status_kinds eb db h st h' :
  copy_existing eb db h = Done (st, h') →
  st = Ok ∨ ∃ x y, x ≠ y ∧
    (st = buffer_mismatch x y ∨ st = buffer_var_mismatch x y).
Proof.
  unfold copy_existing.
  repeat match goal with
         | |- obind ?m _ = _ → _ =>
             destruct m as [?| |]; cbn [obind]; [|done..]
         | |- (if decide ?P then _ else _) = _ → _ => destruct (decide P)
         | |- match ?x with Some _ => _ | None => _ end = _ → _ => destruct x
         end;
    intros [= <- <-]; eauto 10.
Qed.

Lemma copy_buffers_loop_status_kinds (E : Engines) ex :
  ∀ l (q : Query E) h st q' h',
    copy_buffers_loop ex l q h = Done (st, q', h') →
    st = Ok ∨ ∃ x y, x ≠ y ∧
      (st = buffer_mismatch x y ∨ st = buffer_var_mismatch x y).
Proof.
  induction l as [|[n db] l IH]; intros q h st q' h';
    cbn [copy_buffers_loop fst snd].
  - intros [= <- _ _]. by left.
  - destruct (find ex n) as [eb|]; [|apply IH].
    destruct (copy_existing eb db h) as [[st0 h0]| |] eqn:Hrun;
      cbn [obind fst snd]; [|done..].
    destruct (ok st0) eqn:Hok; cbn [negb]; [apply IH|].
    intros [= <- _ _]. by apply copy_existing_status_kinds in Hrun.
Qed.

(** X21. Whenever [copy_buffers] returns, its status is OK or one of its
    two size-mismatch errors, made of two sizes that differ: the status of
    the engine for a buffer it registers is dropped, and no error of the
    engine comes back. *)
Theorem copy_buffers_status_kinds (E : Engines) (q donor : Query E)
    (h : Heap) (st : Status) (q' : Query E) (h' : Heap) :
  copy_buffers q donor h = Done (st, q', h') →
  (st = Ok ∨ ∃ x y, x ≠ y ∧
     (st = buffer_mismatch x y ∨ st = buffer_var_mismatch x y)) ∧
  ∀ msg, st ≠ EngineError msg.
Proof.
  intros H. apply copy_buffers_loop_status_kinds in H. split; [exact H|].
  intros msg ->. destruct H as [?|(x & y & _ & [?|?])]; discriminate.
Qed.

Lemma copy_buffers_status_kinds_witness :
  copy_buffers receiver_fixed donor_fixed heap_40_48
  = Done (buffer_mismatch 40 48, receiver_fixed, heap_40_48) ∧
  ∀ msg, buffer_mismatch 40 48 ≠ EngineError msg.
Proof.
  assert (H : copy_buffers receiver_fixed donor_fixed heap_40_48
              = Done (buffer_mismatch 40 48, receiver_fixed, heap_40_48))
    by (vm_compute; reflexivity).
  split; [exact H|].
  exact (proj2 (copy_buffers_status_kinds (sim_engines true) _ _ _ _ _ _ H)).
Defined.

(** X22. When the receiver has none of the attributes of the donor,
    [copy_buffers] touches no memory and returns OK: it registers the
    buffers of the donor with the engine of the receiver, one after the
    other in the order of the loop, whatever the engine answers. *)
Theorem copy_buffers_disjoint (E : Engines) (q donor : Query E) (h : Heap) :
  (∀ buffer, buffer ∈ attribute_buffers donor →
             find (attribute_buffers q) buffer.1 = None) →
  copy_buffers q donor h
  = Done (Ok,
          foldl (λ q buffer, copy_new q buffer.1 buffer.2) q
            (attribute_buffers donor),
          h).
Proof.
  unfold copy_buffers. generalize (attribute_buffers q) as ex.
  intros ex. revert q.
  induction (attribute_buffers donor) as [|[n db] l IH]; intros q Hnone;
    cbn [copy_buffers_loop foldl fst snd]; [done|].
  pose proof (Hnone (n, db) ltac:(by left)) as Hn. cbn [fst] in Hn.
  rewrite Hn.
  apply IH. intros b Hb. apply Hnone. by right.
Qed.

Lemma copy_buffers_disjoint_witness :
  copy_buffers receiver_fixed (holder [("b", fixed_buffer 2%positive)])
    empty_heap
  = Done (Ok,
          foldl (λ q buffer, copy_new q buffer.1 buffer.2) receiver_fixed
            [("b", fixed_buffer 2%positive)],
          empty_heap).
Proof.
  apply (copy_buffers_disjoint (sim_engines true) receiver_fixed
           (holder [("b", fixed_buffer 2%positive)]) empty_heap).
  intros b Hb. apply list_elem_of_singleton in Hb as ->. reflexivity.
Defined.

(** X23. Whenever [copy_buffers] returns, the type, the layout, the
    callback and the status of the receiver are what they were, and so is
    the engine its type does not select. *)
Theorem copy_buffers_shell (E : Engines) (q donor : Query E) (h : Heap)
    (st : Status) (q' : Query E) (h' : Heap) :
  copy_buffers q donor h = Done (st, q', h') →
  same_shell q q' ∧ other_engine_kept q q' ∧ status q' = status q.
Proof.
  intros H. split; [|split].
  - by apply copy_buffers_loop_shell in H as [? _].
  - by apply copy_buffers_loop_shell in H as [_ ?].
  - by apply copy_buffers_loop_status in H.
Qed.

Lemma copy_buffers_shell_witness :
  copy_buffers receiver_fixed (holder [("b", fixed_buffer 2%positive)])
    empty_heap
  = Done (Ok, copy_new receiver_fixed "b" (fixed_buffer 2%positive),
          empty_heap) ∧
  status (copy_new receiver_fixed "b" (fixed_buffer 2%positive))
  = status receiver_fixed.
Proof.
  assert (H : copy_buffers receiver_fixed
                (holder [("b", fixed_buffer 2%positive)]) empty_heap
              = Done (Ok, copy_new receiver_fixed "b"
                            (fixed_buffer 2%positive), empty_heap))
    by reflexivity.
  split; [exact H|].
  by destruct (copy_buffers_shell (sim_engines true) _ _ _ _ _ _ H)
    as (_ & _ & ?).
Defined.

(** ** More on the hand-over of a deserialized query *)

(** X24. Whenever [copy_json_wip] returns, the receiver has the type and
    the layout of the donor and its own callback; its status is the one of
    the donor, or UNINITIALIZED; and the status returned is no error of
    the engine. *)
Theorem copy_json_wip_shell (E : Engines) (NDEBUG : bool)
    (subarray_data : Query E → NumType → option Buffer)
    (q donor : Query E) (h : Heap) (st : Status) (q' : Query E) (h' : Heap) :
  copy_json_wip NDEBUG subarray_data q donor h = Done (st, q', h') →
  type q' = type donor ∧ layout q' = layout donor ∧
  callback_ q' = callback_ q ∧ callback_data_ q' = callback_data_ q ∧
  (status q' = status donor ∨ status q' = UNINITIALIZED) ∧
  ∀ msg, st ≠ EngineError msg.
Proof.
  unfold copy_json_wip.
  set (q0 := with_status (with_type q (type donor)) (status donor)).
  destruct (set_layout_shell E q0 (layout donor))
    as (Ht & Hl & Hc & Hd & Hs & _).
  destruct (set_layout q0 (layout donor)) as [st_l q1]. cbn [snd] in *.
  destruct (array_schema q1) as [schema|]; cbn [deref obind]; [|done].
  assert (K : ∀ q2 : Query E,
            same_shell q1 q2 →
            status q2 = status q1 ∨ status q2 = UNINITIALIZED →
            copy_buffers q2 donor h = Done (st, q', h') →
            type q' = type donor ∧ layout q' = layout donor ∧
            callback_ q' = callback_ q ∧ callback_data_ q' = callback_data_ q ∧
            (status q' = status donor ∨ status q' = UNINITIALIZED) ∧
            ∀ msg, st ≠ EngineError msg).
  { intros q2 (Ht2 & Hl2 & Hc2 & Hd2) Hs2 Hrun.
    pose proof (copy_buffers_loop_status_kinds _ _ _ _ _ _ _ _ Hrun) as Hk.
    pose proof (copy_buffers_loop_status _ _ _ _ _ _ _ _ Hrun) as Hs3.
    apply copy_buffers_loop_shell in Hrun as [(Ht3 & Hl3 & Hc3 & Hd3) _].
    rewrite Ht3, Hl3, Hc3, Hd3, Hs3, Ht2, Hl2, Hc2, Hd2, Ht, Hl, Hc, Hd.
    repeat split; try done.
    - destruct Hs2 as [Hx | Hx]; rewrite Hx; [left; by rewrite Hs|by right].
    - intros msg ->. destruct Hk as [?|(x & y & _ & [?|?])]; discriminate. }
  assert (S : ∀ T,
            obind (obind (set_subarray NDEBUG q1 (subarray_data donor T))
                     (λ r, Done r.2))
              (λ q2, copy_buffers q2 donor h) = Done (st, q', h') →
            type q' = type donor ∧ layout q' = layout donor ∧
            callback_ q' = callback_ q ∧ callback_data_ q' = callback_data_ q ∧
            (status q' = status donor ∨ status q' = UNINITIALIZED) ∧
            ∀ msg, st ≠ EngineError msg).
  { intros T.
    destruct (set_subarray NDEBUG q1 (subarray_data donor T))
      as [[st2 q2]| |] eqn:Hsub; cbn [obind snd]; [|done..].
    destruct (set_subarray_shell _ _ _ _ _ _ Hsub) as (Hsh & _ & Hst).
    apply K; [done|]. destruct Hst as [[_ ?]|[_ ?]]; by eauto. }
  destruct (dom_type (domain schema)); try apply S.
  all: unfold assert_false; destruct NDEBUG; cbn [obind]; [|done].
  all: apply K; [done|by left].
Qed.

Lemma copy_json_wip_shell_witness :
  ∃ q', copy_json_wip false (subarray_2_7 _) (fresh_write ten_cells_schema)
          (accepting COMPLETED) empty_heap = Done (Ok, q', empty_heap) ∧
        type q' = READ ∧ status q' = UNINITIALIZED.
Proof.
  eexists. split; [reflexivity|].
  edestruct (copy_json_wip_shell (sim_engines true) false (subarray_2_7 _)
               (fresh_write ten_cells_schema) (accepting COMPLETED) empty_heap)
    as (Ht & _); [reflexivity|].
  split; [exact Ht|reflexivity].
Defined.
